(** * Academix scraper service: a shallow embedding of
      [server/src/services/scraperService.ts] and the properties of its
      ingestion pipeline.

    Conventions of the embedding.
    - A JavaScript string is a [string]; each character stands for one code
      unit (the code units below 256 are covered).  A value of type
      [T | undefined] is an [option T]; truthiness of a string is "present
      and non-empty", of a number "present and non-zero".
    - The relational store is a record of tables (lists of rows, in storage
      order) with one serial counter per table.  Every SQL statement that
      the service issues is a constructor of [Stmt]; [exec] gives its effect.
    - The store may refuse any statement: the environment carries an oracle
      [rejects] that, given the statement and the current database, says
      whether the statement raises and with which message.
    - The store is PostgreSQL, reached through [pg] ([Pool], [client]).  A
      statement that fails inside a transaction aborts the transaction:
      until the transaction ends every further statement on that client
      fails, and a [COMMIT] then ends it as a rollback.  A statement that
      fails outside a transaction leaves the database as it was.
    - Asynchronous code is sequential here (every call is awaited), so it is
      written in a state-and-exception monad.
    - The service is described for arguments of the types its signatures
      declare.  The handlers of the controller read a parsed JSON body of
      any shape; a call of the service that a body of another shape leads
      to is left open ([Beyond]). *)

From Stdlib Require Import String Ascii List ZArith Lia Bool Arith.
From Stdlib Require Import DecimalString SpecFloat.
Import ListNotations.
Open Scope string_scope.
Open Scope list_scope.
Open Scope nat_scope.

Set Implicit Arguments.

(* ====================================================================== *)
(** * Text utilities *)
(* ====================================================================== *)

Module Text.

(** The code units matched by [\s] and stripped by [trim]. *)
Definition is_space (c : ascii) : bool :=
  let n := nat_of_ascii c in
  (n =? 9) || (n =? 10) || (n =? 11) || (n =? 12) || (n =? 13)
  || (n =? 32) || (n =? 160).

(** The code units matched by [\d]. *)
Definition is_digit (c : ascii) : bool :=
  let n := nat_of_ascii c in (48 <=? n) && (n <=? 57).

Fixpoint dropWhile {A} (p : A -> bool) (l : list A) : list A :=
  match l with
  | [] => []
  | x :: r => if p x then dropWhile p r else l
  end.

Definition trimStart (l : list ascii) : list ascii := dropWhile is_space l.
Definition trimEnd (l : list ascii) : list ascii :=
  rev (dropWhile is_space (rev l)).

(** [String.prototype.trim]. *)
Definition trim (s : string) : string :=
  string_of_list_ascii (trimEnd (trimStart (list_ascii_of_string s))).

(** [replace(/\s+/g, ' ')]: every maximal run of white space becomes one
    blank.  [in_run] says that the previous code unit was white space. *)
Fixpoint collapse_aux (in_run : bool) (l : list ascii) : list ascii :=
  match l with
  | [] => []
  | c :: r =>
      if is_space c
      then if in_run then collapse_aux true r
           else " "%char :: collapse_aux true r
      else c :: collapse_aux false r
  end.

Definition collapse (s : string) : string :=
  string_of_list_ascii (collapse_aux false (list_ascii_of_string s)).

(** Truthiness of a string. *)
Definition nonempty (s : string) : bool :=
  match s with EmptyString => false | _ => true end.

Definition truthy (o : option string) : bool :=
  match o with Some s => nonempty s | None => false end.

Definition truthyZ (o : option Z) : bool :=
  match o with Some z => negb (z =? 0)%Z | None => false end.

(** [a || b] on optional strings. *)
Definition orElse (a b : option string) : option string :=
  if truthy a then a else b.

(** [cleanText]. *)
Definition cleanText (text : option string) : option string :=
  match text with
  | None => None
  | Some s => if nonempty s then Some (collapse (trim s)) else None
  end.

(** The value of a code unit as a decimal digit. *)
Definition digit_val (c : ascii) : Z := Z.of_nat (nat_of_ascii c) - 48.

(** [parseInt] on a string of decimal digits (the only arguments it gets
    in this service are matches of [\d{4}] and [\d+]). *)
Definition parseInt (l : list ascii) : Z :=
  fold_left (fun acc c => acc * 10 + digit_val c)%Z l 0%Z.

Definition four_digits (a b c d : ascii) : bool :=
  is_digit a && is_digit b && is_digit c && is_digit d.

(** [s.match(/\d{4}/)]: the leftmost four consecutive digits. *)
Fixpoint match_d4 (l : list ascii) : option (list ascii) :=
  match l with
  | [] => None
  | a :: t =>
      match t with
      | b :: c :: d :: _ =>
          if four_digits a b c d then Some [a; b; c; d] else match_d4 t
      | _ => None
      end
  end.

(** [extractYear]. *)
Definition extractYear (dateString : option string) : option Z :=
  match dateString with
  | None => None
  | Some s =>
      if nonempty s
      then match match_d4 (list_ascii_of_string s) with
           | Some m => Some (parseInt m)
           | None => None
           end
      else None
  end.

(** [s.match(/\d+/)]: the leftmost maximal run of digits. *)
Fixpoint takeWhile {A} (p : A -> bool) (l : list A) : list A :=
  match l with
  | [] => []
  | x :: r => if p x then x :: takeWhile p r else []
  end.

Fixpoint match_digits (l : list ascii) : option (list ascii) :=
  match l with
  | [] => None
  | c :: r => if is_digit c then Some (c :: takeWhile is_digit r)
              else match_digits r
  end.

(** ** The rule of the specification, for comparison.

    "The first run of exactly four digits": the digit runs of the string
    are its maximal blocks of consecutive digits; the rule picks the first
    block whose length is four. *)
Fixpoint digit_runs_aux (cur : list ascii) (l : list ascii)
  : list (list ascii) :=
  match l with
  | [] => match cur with [] => [] | _ => [rev cur] end
  | c :: r =>
      if is_digit c then digit_runs_aux (c :: cur) r
      else match cur with
           | [] => digit_runs_aux [] r
           | _ => rev cur :: digit_runs_aux [] r
           end
  end.

Definition digit_runs (s : string) : list (list ascii) :=
  digit_runs_aux [] (list_ascii_of_string s).

Definition spec_extractYear (dateString : option string) : option Z :=
  match dateString with
  | None => None
  | Some s =>
      match find (fun r => length r =? 4) (digit_runs s) with
      | Some r => Some (parseInt r)
      | None => None
      end
  end.

(** The four code units starting at index [i] are digits. *)
Definition window4_at (l : list ascii) (i : nat) : Prop :=
  exists a b c d rest,
    skipn i l = a :: b :: c :: d :: rest /\ four_digits a b c d = true.

Definition window4_val (l : list ascii) (i : nat) : Z :=
  parseInt (firstn 4 (skipn i l)).

End Text.

(* ====================================================================== *)
(** * Data model *)
(* ====================================================================== *)

(** [interface ScrapedBook]: a candidate record produced by an adapter. *)
Record ScrapedBook := mkScrapedBook {
  title : string;
  subtitle : option string;
  isbn : option string;
  publication_year : option Z;
  publisher : option string;
  pages : option Z;
  language : option string;
  description : option string;
  cover_image_url : option string;
  source_url : option string;
  authors : list string;
  categories : list string;
  pdf_url : option string;
  download_url : option string
}.

Inductive Status := running | completed | failed.

(** [interface ScrapingResult]. *)
Record ScrapingResult := mkScrapingResult {
  log_id : nat;
  source_id : nat;
  books_added : nat;
  books_updated : nat;
  errors : nat;
  status : Status;
  error_details : option string
}.

(** [interface CustomSelectors]. *)
Record CustomSelectors := mkCustomSelectors {
  sel_container : string;
  sel_title : string;
  sel_subtitle : option string;
  sel_authors : option string;
  sel_description : option string;
  sel_coverImage : option string;
  sel_link : option string;
  sel_publisher : option string;
  sel_year : option string;
  sel_isbn : option string;
  sel_categories : option string;
  sel_pages : option string
}.

(* ====================================================================== *)
(** * The relational store *)
(* ====================================================================== *)

Module Store.

(** Row of [books]. *)
Record BookRow := mkBookRow {
  book_id : nat;
  b_title : string;
  b_subtitle : option string;
  b_isbn : option string;
  b_publication_year : option Z;
  b_publisher : option string;
  b_pages : option Z;
  b_language : string;
  b_description : option string;
  b_cover_image_url : option string;
  b_source_id : nat;
  b_source_url : option string;
  b_pdf_url : option string;
  b_download_url : option string;
  b_scraped_at : nat;
  b_last_updated : nat
}.

(** Rows of [authors] and of [categories]: an id and a name. *)
Record NamedRow := mkNamedRow { row_id : nat; row_name : string }.

(** Row of [book_authors]. *)
Record BookAuthorRow := mkBookAuthorRow {
  ba_book : nat;
  ba_author : nat;
  ba_position : nat
}.

(** Row of [book_categories]. *)
Record BookCategoryRow := mkBookCategoryRow {
  bc_book : nat;
  bc_category : nat
}.

(** Row of [sources]. *)
Record SourceRow := mkSourceRow {
  s_id : nat;
  s_name : string;
  s_base_url : string;
  s_is_active : bool;
  s_last_scraped : option nat
}.

(** Row of [scraping_logs]. *)
Record LogRow := mkLogRow {
  l_id : nat;
  l_source_id : nat;
  l_started_at : nat;
  l_completed_at : option nat;
  l_books_added : nat;
  l_books_updated : nat;
  l_errors : nat;
  l_status : Status;
  l_error_details : option string
}.

(** The database: the tables in storage order and the serial counters. *)
Record DB := mkDB {
  books : list BookRow;
  authors_tbl : list NamedRow;
  categories_tbl : list NamedRow;
  book_authors : list BookAuthorRow;
  book_categories : list BookCategoryRow;
  sources : list SourceRow;
  scraping_logs : list LogRow;
  seq_book : nat;
  seq_author : nat;
  seq_category : nat;
  seq_source : nat;
  seq_log : nat
}.

Definition empty_db : DB := mkDB [] [] [] [] [] [] [] 0 0 0 0 0.

(** One entry of the [updates] array that [updateScrapingLog] builds. *)
Inductive LogAssign :=
| SetCompletedAt (t : nat)
| SetBooksAdded (n : nat)
| SetBooksUpdated (n : nat)
| SetErrors (n : nat)
| SetStatus (s : Status)
| SetErrorDetails (m : string).

(** The statements that the service sends to the store. *)
Inductive Stmt :=
| Connect                       (* pool.connect() *)
| Begin
| Commit
| Rollback
| SelectBookByIsbn (i : string)
| SelectBookByTitleYear (t : string) (y : Z)
| SelectBookByTitle (t : string)
| UpdateBook (sub pub : option string) (pg : option Z)
             (desc cover isb : option string) (id : nat)
| InsertBook (t : string) (sub isb : option string) (yr : option Z)
             (pub : option string) (pg : option Z) (lang : string)
             (desc cover : option string) (src : nat)
             (surl pdf dl : option string)
| DeleteBookAuthors (book : nat)
| SelectAuthorByName (n : string)
| InsertAuthor (n : string)
| UpsertBookAuthor (book author pos : nat)
| SelectCategoryByName (n : string)
| InsertCategory (n : string)
| InsertBookCategory (book cat : nat)
| TouchSource (src : nat)
| SelectSourceByName (n : string)
| InsertSource (n url : string)
| InsertLog (src : nat)
| UpdateLog (updates : list LogAssign) (id : nat).

Definition opt_eqb (a : option string) (b : string) : bool :=
  match a with Some x => String.eqb x b | None => false end.

Definition optZ_eqb (a : option Z) (b : Z) : bool :=
  match a with Some x => Z.eqb x b | None => false end.

(** [COALESCE(p, old)]. *)
Definition coalesce {A} (p old : option A) : option A :=
  match p with Some _ => p | None => old end.

(** The [UPDATE books SET ... WHERE book_id = id] of step 2A, on one row. *)
Definition update_row (now : nat) (sub pub : option string) (pg : option Z)
    (desc cover isb : option string) (r : BookRow) : BookRow :=
  mkBookRow (book_id r) (b_title r)
    (coalesce sub (b_subtitle r))
    (coalesce isb (b_isbn r))
    (b_publication_year r)
    (coalesce pub (b_publisher r))
    (coalesce pg (b_pages r))
    (b_language r)
    (coalesce desc (b_description r))
    (coalesce cover (b_cover_image_url r))
    (b_source_id r) (b_source_url r) (b_pdf_url r) (b_download_url r)
    (b_scraped_at r) now.

Definition ba_key (book author : nat) (r : BookAuthorRow) : bool :=
  (ba_book r =? book) && (ba_author r =? author).

Definition bc_key (book cat : nat) (r : BookCategoryRow) : bool :=
  (bc_book r =? book) && (bc_category r =? cat).

(** [INSERT ... ON CONFLICT (book_id, author_id) DO UPDATE SET
    author_position = pos]. *)
Definition upsert_book_author (book author pos : nat)
    (t : list BookAuthorRow) : list BookAuthorRow :=
  if existsb (ba_key book author) t
  then map (fun r => if ba_key book author r
                     then mkBookAuthorRow book author pos else r) t
  else t ++ [mkBookAuthorRow book author pos].

(** [INSERT ... ON CONFLICT (book_id, category_id) DO NOTHING]. *)
Definition insert_book_category (book cat : nat)
    (t : list BookCategoryRow) : list BookCategoryRow :=
  if existsb (bc_key book cat) t then t
  else t ++ [mkBookCategoryRow book cat].

Definition apply_assign (a : LogAssign) (r : LogRow) : LogRow :=
  match a with
  | SetCompletedAt t =>
      mkLogRow (l_id r) (l_source_id r) (l_started_at r) (Some t)
        (l_books_added r) (l_books_updated r) (l_errors r) (l_status r)
        (l_error_details r)
  | SetBooksAdded n =>
      mkLogRow (l_id r) (l_source_id r) (l_started_at r) (l_completed_at r)
        n (l_books_updated r) (l_errors r) (l_status r) (l_error_details r)
  | SetBooksUpdated n =>
      mkLogRow (l_id r) (l_source_id r) (l_started_at r) (l_completed_at r)
        (l_books_added r) n (l_errors r) (l_status r) (l_error_details r)
  | SetErrors n =>
      mkLogRow (l_id r) (l_source_id r) (l_started_at r) (l_completed_at r)
        (l_books_added r) (l_books_updated r) n (l_status r)
        (l_error_details r)
  | SetStatus s =>
      mkLogRow (l_id r) (l_source_id r) (l_started_at r) (l_completed_at r)
        (l_books_added r) (l_books_updated r) (l_errors r) s
        (l_error_details r)
  | SetErrorDetails m =>
      mkLogRow (l_id r) (l_source_id r) (l_started_at r) (l_completed_at r)
        (l_books_added r) (l_books_updated r) (l_errors r) (l_status r)
        (Some m)
  end.

Definition apply_assigns (l : list LogAssign) (r : LogRow) : LogRow :=
  fold_left (fun r a => apply_assign a r) l r.

Definition set_books (d : DB) (x : list BookRow) (sq : nat) : DB :=
  mkDB x (authors_tbl d) (categories_tbl d) (book_authors d)
    (book_categories d) (sources d) (scraping_logs d)
    sq (seq_author d) (seq_category d) (seq_source d) (seq_log d).

Definition set_authors (d : DB) (x : list NamedRow) (sq : nat) : DB :=
  mkDB (books d) x (categories_tbl d) (book_authors d)
    (book_categories d) (sources d) (scraping_logs d)
    (seq_book d) sq (seq_category d) (seq_source d) (seq_log d).

Definition set_categories (d : DB) (x : list NamedRow) (sq : nat) : DB :=
  mkDB (books d) (authors_tbl d) x (book_authors d)
    (book_categories d) (sources d) (scraping_logs d)
    (seq_book d) (seq_author d) sq (seq_source d) (seq_log d).

Definition set_book_authors (d : DB) (x : list BookAuthorRow) : DB :=
  mkDB (books d) (authors_tbl d) (categories_tbl d) x
    (book_categories d) (sources d) (scraping_logs d)
    (seq_book d) (seq_author d) (seq_category d) (seq_source d) (seq_log d).

Definition set_book_categories (d : DB) (x : list BookCategoryRow) : DB :=
  mkDB (books d) (authors_tbl d) (categories_tbl d) (book_authors d)
    x (sources d) (scraping_logs d)
    (seq_book d) (seq_author d) (seq_category d) (seq_source d) (seq_log d).

Definition set_sources (d : DB) (x : list SourceRow) (sq : nat) : DB :=
  mkDB (books d) (authors_tbl d) (categories_tbl d) (book_authors d)
    (book_categories d) x (scraping_logs d)
    (seq_book d) (seq_author d) (seq_category d) sq (seq_log d).

Definition set_logs (d : DB) (x : list LogRow) (sq : nat) : DB :=
  mkDB (books d) (authors_tbl d) (categories_tbl d) (book_authors d)
    (book_categories d) (sources d) x
    (seq_book d) (seq_author d) (seq_category d) (seq_source d) sq.

(** Modelled from the spec: the table definitions are not part of the
    sources.  Ids come from a serial counter per table and start at 1;
    [scraped_at] and [last_updated] of a new book default to the current
    timestamp; a new log row starts with zero counts and no completion
    time; a new source has never been scraped.

    [exec now q d] is the database after statement [q] and the ids that the
    statement returns ([SELECT id ...] and [RETURNING id]), in storage
    order.  PostgreSQL fixes no order for a [SELECT] without [ORDER BY];
    here it is the order of insertion, and an [UPDATE] keeps a row in its
    place, so that [rows[0]] of several matching rows is the oldest.  The
    transaction statements are handled by [after_stmt] below. *)
Definition exec (now : nat) (q : Stmt) (d : DB) : DB * list nat :=
  match q with
  | Connect | Begin | Commit | Rollback => (d, [])
  | SelectBookByIsbn i =>
      (d, map book_id (filter (fun r => opt_eqb (b_isbn r) i) (books d)))
  | SelectBookByTitleYear t y =>
      (d, map book_id
            (filter (fun r => String.eqb (b_title r) t
                              && optZ_eqb (b_publication_year r) y)
                    (books d)))
  | SelectBookByTitle t =>
      (d, map book_id (filter (fun r => String.eqb (b_title r) t) (books d)))
  | UpdateBook sub pub pg desc cover isb id =>
      (set_books d
         (map (fun r => if book_id r =? id
                        then update_row now sub pub pg desc cover isb r
                        else r) (books d))
         (seq_book d), [])
  | InsertBook t sub isb yr pub pg lang desc cover src surl pdf dl =>
      let id := S (seq_book d) in
      (set_books d
         (books d ++ [mkBookRow id t sub isb yr pub pg lang desc cover src
                        surl pdf dl now now])
         id, [id])
  | DeleteBookAuthors book =>
      (set_book_authors d
         (filter (fun r => negb (ba_book r =? book)) (book_authors d)), [])
  | SelectAuthorByName n =>
      (d, map row_id
            (filter (fun r => String.eqb (row_name r) n) (authors_tbl d)))
  | InsertAuthor n =>
      let id := S (seq_author d) in
      (set_authors d (authors_tbl d ++ [mkNamedRow id n]) id, [id])
  | UpsertBookAuthor book author pos =>
      (set_book_authors d
         (upsert_book_author book author pos (book_authors d)), [])
  | SelectCategoryByName n =>
      (d, map row_id
            (filter (fun r => String.eqb (row_name r) n) (categories_tbl d)))
  | InsertCategory n =>
      let id := S (seq_category d) in
      (set_categories d (categories_tbl d ++ [mkNamedRow id n]) id, [id])
  | InsertBookCategory book cat =>
      (set_book_categories d
         (insert_book_category book cat (book_categories d)), [])
  | TouchSource src =>
      (set_sources d
         (map (fun r => if s_id r =? src
                        then mkSourceRow (s_id r) (s_name r) (s_base_url r)
                               (s_is_active r) (Some now)
                        else r) (sources d))
         (seq_source d), [])
  | SelectSourceByName n =>
      (d, map s_id (filter (fun r => String.eqb (s_name r) n) (sources d)))
  | InsertSource n url =>
      let id := S (seq_source d) in
      (set_sources d (sources d ++ [mkSourceRow id n url true None]) id,
       [id])
  | InsertLog src =>
      let id := S (seq_log d) in
      (set_logs d
         (scraping_logs d
            ++ [mkLogRow id src now None 0 0 0 running None]) id, [id])
  | UpdateLog updates id =>
      (set_logs d
         (map (fun r => if l_id r =? id then apply_assigns updates r else r)
              (scraping_logs d))
         (seq_log d), [])
  end.

End Store.

(* ====================================================================== *)
(** * State and exceptions *)
(* ====================================================================== *)

(** The outcome of an awaited call: a value, or a raised [Error] with its
    message. *)
Inductive Res (A : Type) :=
| Ok (a : A)
| Throw (msg : string).
Arguments Ok {A} a.
Arguments Throw {A} msg.

Definition M (S A : Type) : Type := S -> Res A * S.

Definition ret {S A} (a : A) : M S A := fun s => (Ok a, s).

Definition bind {S A B} (m : M S A) (k : A -> M S B) : M S B :=
  fun s => match m s with
           | (Ok a, s') => k a s'
           | (Throw e, s') => (Throw e, s')
           end.

Definition throw {S A} (msg : string) : M S A := fun s => (Throw msg, s).

(** [try { m } catch (error) { h error.message }]. *)
Definition try_catch {S A} (m : M S A) (h : string -> M S A) : M S A :=
  fun s => match m s with
           | (Ok a, s') => (Ok a, s')
           | (Throw e, s') => h e s'
           end.

Declare Scope monad_scope.
Delimit Scope monad_scope with monad.
Notation "x <- m ;; k" := (bind m (fun x => k))
  (at level 61, m at next level, right associativity) : monad_scope.
Notation "m ;;; k" := (bind m (fun _ => k))
  (at level 61, right associativity) : monad_scope.
Open Scope monad_scope.

(** What the outside world can observe of a run besides the database. *)
Inductive Event :=
| EvSql (q : Store.Stmt) (accepted : bool)
| EvDelay (ms : nat)
| EvSummary (processed successful failedN added updated errs : nat).

(** The world: the committed database, the database as seen inside the
    open transaction (if one is open), the clock, the events so far, and
    whether a statement has failed inside the open transaction. *)
Record World := mkWorld {
  durable : Store.DB;
  txn : option Store.DB;
  clock : nat;
  trace : list Event;
  txn_failed : bool
}.

Definition current (w : World) : Store.DB :=
  match txn w with Some d => d | None => durable w end.

Definition set_current (d : Store.DB) (w : World) : World :=
  match txn w with
  | Some _ => mkWorld (durable w) (Some d) (clock w) (trace w) (txn_failed w)
  | None => mkWorld d None (clock w) (trace w) (txn_failed w)
  end.

Definition record (e : Event) (w : World) : World :=
  mkWorld (durable w) (txn w) (S (clock w)) (trace w ++ [e]) (txn_failed w).

(** The open transaction is aborted: a statement has failed in it. *)
Definition aborted (w : World) : bool :=
  match txn w with Some _ => txn_failed w | None => false end.

(** A statement has failed on the client: an open transaction is aborted
    by it, and outside a transaction nothing changes. *)
Definition fail_stmt (w : World) : World :=
  match txn w with
  | Some _ => mkWorld (durable w) (txn w) (clock w) (trace w) true
  | None => w
  end.

(** ** Raw payloads of the external sources *)

Inductive Description :=
| DescAbsent
| DescString (s : string)
| DescObject (value : option string).

(** One entry of [data.works] of the subject API. *)
Record Work := mkWork {
  w_title : option string;
  w_first_publish_year : option Z;
  w_description : Description;
  w_cover_id : option Z;  (* a whole number, printed in full *)
  w_key : option string;
  w_authors : option (list (option string));  (* the [name] of each author *)
  w_pdf_url : option string;
  w_download_url : option string
}.

Record Identifier := mkIdentifier {
  id_type : string;
  id_identifier : option string
}.

Record ImageLinks := mkImageLinks {
  thumbnail : option string;
  smallThumbnail : option string
}.

Record VolumeInfo := mkVolumeInfo {
  v_title : option string;
  v_subtitle : option string;
  v_industryIdentifiers : option (list Identifier);
  v_publishedDate : option string;
  v_publisher : option string;
  v_pageCount : option Z;
  v_language : option string;
  v_description : option string;
  v_imageLinks : option ImageLinks;
  v_canonicalVolumeLink : option string;
  v_previewLink : option string;
  v_infoLink : option string;
  v_authors : option (list string);
  v_categories : option (list string)
}.

(** One entry of [data.items] of the search API. *)
Record Item := mkItem { volumeInfo : option VolumeInfo }.

(** An element of a parsed page, seen through the queries the service
    makes: the text of [find(sel)], an attribute of [find(sel)], and the
    texts of the elements of [find(sel)] one by one. *)
Record Element := mkElement {
  findText : string -> string;
  findAttr : string -> string -> option string;
  findEach : string -> list string
}.

(** A parsed page: the elements a selector matches. *)
Definition Page := string -> list Element.

(** The environment of the service. *)
Record Env := mkEnv {
  (** does the store refuse this statement in this database? *)
  rejects : Store.Stmt -> Store.DB -> option string;
  (** [axios.get] on the three kinds of sources.  A response that arrives
      is taken in the shape in which the adapter reads it ([data.works] and
      [data.items] a list or not there, a page that the selectors of the
      adapter can be put to); a response of another shape is outside this
      description. *)
  getWorks : string -> Res (option (list Work));
  getItems : string -> Res (option (list Item));
  getPage : string -> Res Page;
  (** [new URL(rel, base).href]; [None] when the constructor throws *)
  resolveUrl : string -> string -> option string;
  encodeURIComponent : string -> string;
  GOOGLE_BOOKS_API_KEY : option string
}.

(* ====================================================================== *)
(** * The scraper service *)
(* ====================================================================== *)

Section ScraperService.

Variable env : Env.

Definition UNKNOWN_TITLE : string := "Unknown Title".

Definition show_nat (n : nat) : string :=
  NilZero.string_of_uint (Nat.to_uint n).

Definition show_Z (z : Z) : string :=
  NilZero.string_of_int (Z.to_int z).

(** [xs.map(cleanText).filter(Boolean)]. *)
Definition cleanNames (xs : list (option string)) : list string :=
  flat_map (fun x => match Text.cleanText x with
                     | Some s => if Text.nonempty s then [s] else []
                     | None => []
                     end) xs.

(** The test before [books.push(book)], the same in the four adapters:
    [book.title && book.title !== 'Unknown Title']. *)
Definition keep (book : ScrapedBook) : bool :=
  Text.nonempty (title book) && negb (String.eqb (title book) UNKNOWN_TITLE).

(** The body of the per-item [try]: a thrown item is logged and skipped. *)
Definition yield (r : Res ScrapedBook) : list ScrapedBook :=
  match r with
  | Ok book => if keep book then [book] else []
  | Throw _ => []
  end.

(** [x || 'Unknown Title'] on a cleaned title. *)
Definition titleOrUnknown (t : option string) : string :=
  match Text.orElse t (Some UNKNOWN_TITLE) with
  | Some s => s
  | None => UNKNOWN_TITLE
  end.

(** A cleaned title that does not survive: missing, empty, or equal to the
    sentinel. *)
Definition discarded (t : option string) : bool :=
  negb (Text.truthy t) || Store.opt_eqb t UNKNOWN_TITLE.

(** ** Open Library *)

Definition parseWork (subject : string) (work : Work) : Res ScrapedBook :=
  let description :=
    match w_description work with
    | DescString s => Some s
    | DescObject v => if Text.truthy v then v else None
    | DescAbsent => None
    end in
  Ok (mkScrapedBook
        (titleOrUnknown (Text.cleanText (w_title work)))
        None
        None
        (w_first_publish_year work)
        None
        None
        (Some "English")
        (Text.cleanText description)
        (match w_cover_id work with
         | Some c => if (c =? 0)%Z then None
                     else Some ("https://covers.openlibrary.org/b/id/"
                                ++ show_Z c ++ "-L.jpg")%string
         | None => None
         end)
        (match w_key work with
         | Some k => if Text.nonempty k
                     then Some ("https://openlibrary.org" ++ k)%string
                     else None
         | None => None
         end)
        (match w_authors work with
         | Some l => cleanNames l
         | None => []
         end)
        [subject]
        (w_pdf_url work)
        (w_download_url work)).

Definition scrapeOpenLibrary (subject : string) (limit : nat)
  : Res (list ScrapedBook) :=
  let url := ("https://openlibrary.org/subjects/" ++ subject
              ++ ".json?limit=" ++ show_nat limit)%string in
  match getWorks env url with
  | Throw m => Throw ("Open Library scraping failed: " ++ m)%string
  | Ok data =>
      Ok (flat_map (fun work => yield (parseWork subject work))
                   (match data with Some ws => ws | None => [] end))
  end.

(** ** Google Books *)

Definition findIdentifier (ty : string) (ids : list Identifier)
  : option Identifier :=
  find (fun i => String.eqb (id_type i) ty) ids.

Definition parseItem (item : Item) : Res ScrapedBook :=
  match volumeInfo item with
  | None => Throw "Cannot read properties of undefined"
  | Some vi =>
      let isbn :=
        match v_industryIdentifiers vi with
        | Some ids =>
            Text.orElse
              (match findIdentifier "ISBN_13" ids with
               | Some i => id_identifier i | None => None end)
              (match findIdentifier "ISBN_10" ids with
               | Some i => id_identifier i | None => None end)
        | None => None
        end in
      Ok (mkScrapedBook
            (titleOrUnknown (Text.cleanText (v_title vi)))
            (Text.cleanText (v_subtitle vi))
            isbn
            (if Text.truthy (v_publishedDate vi)
             then Text.extractYear (v_publishedDate vi) else None)
            (Text.cleanText (v_publisher vi))
            (v_pageCount vi)
            (Text.orElse (v_language vi) (Some "en"))
            (Text.cleanText (v_description vi))
            (match v_imageLinks vi with
             | Some il => Text.orElse (thumbnail il) (smallThumbnail il)
             | None => None
             end)
            (Text.orElse (v_canonicalVolumeLink vi)
               (Text.orElse (v_previewLink vi) (v_infoLink vi)))
            (match v_authors vi with
             | Some l => cleanNames (map Some l) | None => [] end)
            (match v_categories vi with
             | Some l => cleanNames (map Some l) | None => [] end)
            None
            None)
  end.

Definition scrapeGoogleBooks (query : string) (maxResults : nat)
  : Res (list ScrapedBook) :=
  let url := ("https://www.googleapis.com/books/v1/volumes?q="
              ++ encodeURIComponent env query
              ++ "&maxResults=" ++ show_nat maxResults
              ++ (match GOOGLE_BOOKS_API_KEY env with
                  | Some k => if Text.nonempty k then "&key=" ++ k else ""
                  | None => ""
                  end))%string in
  match getItems env url with
  | Throw m => Throw ("Google Books scraping failed: " ++ m)%string
  | Ok data =>
      Ok (flat_map (fun item => yield (parseItem item))
                   (match data with Some its => its | None => [] end))
  end.

(** ** Project Gutenberg *)

Definition is_letter (lower upper c : ascii) : bool :=
  Ascii.eqb c lower || Ascii.eqb c upper.

(** [replace(/^by\s+/i, '')]. *)
Definition stripBy (l : list ascii) : list ascii :=
  match l with
  | b :: y :: c :: r =>
      if is_letter "b" "B" b && is_letter "y" "Y" y && Text.is_space c
      then Text.dropWhile Text.is_space r
      else l
  | _ => l
  end.

Definition parseBooklink (searchTerm : string) (el : Element)
  : Res ScrapedBook :=
  let title := Text.cleanText (Some (findText el ".title")) in
  let bookUrl := findAttr el "a.link" "href" in
  let authorsText := Text.cleanText (Some (findText el ".subtitle")) in
  let authors :=
    match authorsText with
    | Some t =>
        if Text.nonempty t then
          let authorName :=
            Text.trim (string_of_list_ascii
                         (stripBy (list_ascii_of_string t))) in
          if Text.nonempty authorName then [authorName] else []
        else []
    | None => []
    end in
  Ok (mkScrapedBook
        (titleOrUnknown title)
        None None None None None
        (Some "English")
        None None
        (match bookUrl with
         | Some u => if Text.nonempty u
                     then Some ("https://www.gutenberg.org" ++ u)%string
                     else None
         | None => None
         end)
        authors
        [searchTerm]
        None None).

Definition scrapeProjectGutenberg (searchTerm : string)
  : Res (list ScrapedBook) :=
  let url := ("https://www.gutenberg.org/ebooks/search/?query="
              ++ encodeURIComponent env searchTerm)%string in
  match getPage env url with
  | Throw m => Throw ("Project Gutenberg scraping failed: " ++ m)%string
  | Ok page =>
      Ok (firstn 20
            (flat_map (fun el => yield (parseBooklink searchTerm el))
                      (page ".booklink")))
  end.

(** ** Custom website *)

(** [sel ? cleanText($item.find(sel).text()) : undefined]. *)
Definition optText (el : Element) (sel : option string) : option string :=
  match sel with
  | Some q => if Text.nonempty q then Text.cleanText (Some (findText el q))
              else None
  | None => None
  end.

(** The absolute form of an [src] or [href]; a relative one goes through
    [new URL], which may throw. *)
Definition absoluteUrl (url : string) (el : Element) (sel : option string)
    (attr : string) : Res (option string) :=
  match sel with
  | Some q =>
      if Text.nonempty q then
        match findAttr el q attr with
        | Some a =>
            if Text.nonempty a then
              if String.prefix "http" a then Ok (Some a)
              else match resolveUrl env a url with
                   | Some h => Ok (Some h)
                   | None => Throw "Invalid URL"
                   end
            else Ok None
        | None => Ok None
        end
      else Ok None
  | None => Ok None
  end.

(** The [each] over [find(sel)] that collects the non-empty cleaned texts. *)
Definition eachText (el : Element) (sel : option string) : list string :=
  match sel with
  | Some q => if Text.nonempty q
              then cleanNames (map Some (findEach el q)) else []
  | None => []
  end.

Definition parseCustomItem (url : string) (selectors : CustomSelectors)
    (el : Element) : Res ScrapedBook :=
  let title := Text.cleanText (Some (findText el (sel_title selectors))) in
  let subtitle := optText el (sel_subtitle selectors) in
  let description := optText el (sel_description selectors) in
  match absoluteUrl url el (sel_coverImage selectors) "src" with
  | Throw m => Throw m
  | Ok coverImageUrl =>
  match absoluteUrl url el (sel_link selectors) "href" with
  | Throw m => Throw m
  | Ok sourceUrl =>
      let publisher := optText el (sel_publisher selectors) in
      let publicationYear :=
        match sel_year selectors with
        | Some q => if Text.nonempty q
                    then Text.extractYear (Some (findText el q)) else None
        | None => None
        end in
      let isbn := optText el (sel_isbn selectors) in
      let pages :=
        match sel_pages selectors with
        | Some q =>
            if Text.nonempty q then
              match Text.match_digits
                      (list_ascii_of_string (findText el q)) with
              | Some m => Some (Text.parseInt m)
              | None => None
              end
            else None
        | None => None
        end in
      let authors := eachText el (sel_authors selectors) in
      let categories := eachText el (sel_categories selectors) in
      Ok (mkScrapedBook
            (titleOrUnknown title)
            subtitle isbn publicationYear publisher pages
            (Some "English")
            description coverImageUrl sourceUrl
            authors categories
            None None)
  end end.

Definition scrapeCustomWebsite (url : string) (selectors : CustomSelectors)
  : Res (list ScrapedBook) :=
  match getPage env url with
  | Throw m => Throw ("Custom website scraping failed: " ++ m)%string
  | Ok page =>
      Ok (flat_map (fun el => yield (parseCustomItem url selectors el))
                   (page (sel_container selectors)))
  end.

(** ** Talking to the store *)

(** [BEGIN], [COMMIT] and [ROLLBACK]. *)
Definition is_control (q : Store.Stmt) : bool :=
  match q with
  | Store.Begin | Store.Commit | Store.Rollback => true
  | _ => false
  end.

(** The world after an accepted statement: the transaction statements act
    on the transaction, every other statement on the database in view.
    [BEGIN] is the first statement on a client just taken from the pool;
    [COMMIT] makes the transaction's view the committed database, unless
    the transaction is aborted: then it ends it as [ROLLBACK] does. *)
Definition after_stmt (q : Store.Stmt) (w : World) : World :=
  match q with
  | Store.Begin =>
      mkWorld (durable w) (Some (durable w)) (clock w) (trace w) false
  | Store.Commit =>
      mkWorld (if aborted w then durable w else current w) None (clock w)
        (trace w) false
  | Store.Rollback => mkWorld (durable w) None (clock w) (trace w) false
  | _ => set_current (fst (Store.exec (clock w) q (current w))) w
  end.

(** SQLSTATE 25P02, [in_failed_sql_transaction]. *)
Definition IN_FAILED_TRANSACTION : string :=
  "current transaction is aborted, commands ignored until end of transaction block".

(** In an aborted transaction the store runs nothing but the statement
    that ends it. *)
Definition blocked (q : Store.Stmt) (w : World) : bool :=
  aborted w && negb (is_control q).

(** [client.query(q)]: a statement on a connection taken from the pool. *)
Definition clientQuery (q : Store.Stmt) : M World (list nat) :=
  fun w =>
    if blocked q w
    then (Throw IN_FAILED_TRANSACTION, record (EvSql q false) w)
    else
      match rejects env q (current w) with
      | Some msg => (Throw msg, record (EvSql q false) (fail_stmt w))
      | None =>
          (Ok (snd (Store.exec (clock w) q (current w))),
           record (EvSql q true) (after_stmt q w))
      end.

(** [pool.query(q)]: a statement on its own, outside any transaction. *)
Definition poolQuery (q : Store.Stmt) : M World (list nat) :=
  fun w =>
    match rejects env q (durable w) with
    | Some msg => (Throw msg, record (EvSql q false) w)
    | None =>
        let r := Store.exec (clock w) q (durable w) in
        (Ok (snd r),
         record (EvSql q true)
           (mkWorld (fst r) (txn w) (clock w) (trace w) (txn_failed w)))
    end.

(** [result.rows[0].id]. *)
Definition firstRow {S} (rows : list nat) : M S nat :=
  match rows with
  | id :: _ => ret id
  | [] => throw "Cannot read properties of undefined"
  end.

(** [try { m } catch (error) { console.error(...); throw error; }]. *)
Definition rethrow {S A} (m : M S A) : M S A := try_catch m throw.

(** Local variables of a method, next to the world. *)
Definition liftW {L A} (m : M World A) : M (World * L) A :=
  fun s => let (r, w') := m (fst s) in (r, (w', snd s)).

Definition getLocal {L} : M (World * L) L := fun s => (Ok (snd s), s).

Definition setLocal {L} (f : L -> L) : M (World * L) unit :=
  fun s => (Ok tt, (fst s, f (snd s))).

Definition withLocals {L A} (l0 : L) (m : M (World * L) A) : M World A :=
  fun w => let (r, s) := m (w, l0) in (r, fst s).

Definition now : M World nat := fun w => (Ok (clock w), w).

(** [delay(ms)]. *)
Definition delay (ms : nat) : M World unit :=
  fun w => (Ok tt, record (EvDelay ms) w).

Definition getOrCreateSource (sourceName baseUrl : string) : M World nat :=
  poolQuery Store.Connect ;;;
  rethrow
    (rows <- clientQuery (Store.SelectSourceByName sourceName) ;;
     match rows with
     | id :: _ => ret id
     | [] =>
         rows <- clientQuery (Store.InsertSource sourceName baseUrl) ;;
         firstRow rows
     end).

Definition createScrapingLog (sourceId : nat) : M World nat :=
  rethrow (rows <- poolQuery (Store.InsertLog sourceId) ;; firstRow rows).

(** The [data] argument of [updateScrapingLog]. *)
Record LogData := mkLogData {
  d_completed_at : option nat;
  d_books_added : option nat;
  d_books_updated : option nat;
  d_errors : option nat;
  d_status : option Status;
  d_error_details : option string
}.

Definition optList {A B} (o : option A) (f : A -> B) : list B :=
  match o with Some a => [f a] | None => [] end.

Definition logUpdates (data : LogData) : list Store.LogAssign :=
  optList (d_completed_at data) Store.SetCompletedAt
  ++ optList (d_books_added data) Store.SetBooksAdded
  ++ optList (d_books_updated data) Store.SetBooksUpdated
  ++ optList (d_errors data) Store.SetErrors
  ++ optList (d_status data) Store.SetStatus
  ++ (if Text.truthy (d_error_details data)
      then optList (d_error_details data) Store.SetErrorDetails else []).

Definition updateScrapingLog (logId : nat) (data : LogData) : M World unit :=
  rethrow
    (match logUpdates data with
     | [] => ret tt
     | updates => poolQuery (Store.UpdateLog updates logId) ;;; ret tt
     end).

Definition getOrCreateAuthor (authorName : string) : M World nat :=
  rethrow
    (rows <- clientQuery (Store.SelectAuthorByName authorName) ;;
     match rows with
     | id :: _ => ret id
     | [] => rows <- clientQuery (Store.InsertAuthor authorName) ;;
             firstRow rows
     end).

Definition getOrCreateCategory (categoryName : string) : M World nat :=
  rethrow
    (rows <- clientQuery (Store.SelectCategoryByName categoryName) ;;
     match rows with
     | id :: _ => ret id
     | [] => rows <- clientQuery (Store.InsertCategory categoryName) ;;
             firstRow rows
     end).

(** ** [saveBooks] *)

(** [name && name.trim()]. *)
Definition nonblank (name : string) : bool :=
  Text.nonempty name && Text.nonempty (Text.trim name).

(** STEP 1: the lookup of an existing book, [existingBook.book_id]. *)
Definition findExisting (book : ScrapedBook) : M World (option nat) :=
  existingBook <-
    (if Text.truthy (isbn book)
     then rows <- clientQuery
                    (Store.SelectBookByIsbn
                       (match isbn book with Some i => i | None => "" end)) ;;
          ret (hd_error rows)
     else ret None) ;;
  existingBook <-
    (match existingBook, publication_year book with
     | None, Some y =>
         if Text.nonempty (title book) && Text.truthyZ (Some y)
         then rows <- clientQuery
                        (Store.SelectBookByTitleYear (title book) y) ;;
              ret (hd_error rows)
         else ret existingBook
     | _, _ => ret existingBook
     end) ;;
  match existingBook with
  | None =>
      if Text.nonempty (title book)
      then rows <- clientQuery (Store.SelectBookByTitle (title book)) ;;
           ret (hd_error rows)
      else ret existingBook
  | Some _ => ret existingBook
  end.

(** The counters [booksAdded] and [booksUpdated]. *)
Record Counts := mkCounts { added : nat; updated : nat }.

Definition SaveSt : Type := World * Counts.

(** STEP 2A. *)
Definition updateBook (id : nat) (book : ScrapedBook) : M World unit :=
  clientQuery
    (Store.UpdateBook (subtitle book) (publisher book) (pages book)
       (description book) (cover_image_url book) (isbn book) id) ;;;
  ret tt.

(** STEP 2B. *)
Definition insertBook (book : ScrapedBook) (sourceId : nat) : M World nat :=
  rows <- clientQuery
            (Store.InsertBook (title book) (subtitle book) (isbn book)
               (publication_year book) (publisher book) (pages book)
               (match Text.orElse (language book) (Some "English") with
                | Some l => l | None => "English" end)
               (description book) (cover_image_url book) sourceId
               (source_url book) (pdf_url book) (download_url book)) ;;
  firstRow rows.

(** The loop of STEP 3, from index [i] on. *)
Fixpoint linkAuthorsFrom (bookId i : nat) (names : list string)
  : M World unit :=
  match names with
  | [] => ret tt
  | authorName :: rest =>
      (if nonblank authorName
       then authorId <- getOrCreateAuthor (Text.trim authorName) ;;
            clientQuery (Store.UpsertBookAuthor bookId authorId (i + 1)) ;;;
            ret tt
       else ret tt) ;;;
      linkAuthorsFrom bookId (S i) rest
  end.

(** The body of STEP 3: drop the links of the book, then link the names. *)
Definition relinkAuthors (bookId : nat) (names : list string)
  : M World unit :=
  clientQuery (Store.DeleteBookAuthors bookId) ;;;
  linkAuthorsFrom bookId 0 names.

(** The body of STEP 4. *)
Fixpoint relinkCategories (bookId : nat) (names : list string)
  : M World unit :=
  match names with
  | [] => ret tt
  | categoryName :: rest =>
      (if nonblank categoryName
       then categoryId <- getOrCreateCategory (Text.trim categoryName) ;;
            clientQuery (Store.InsertBookCategory bookId categoryId) ;;;
            ret tt
       else ret tt) ;;;
      relinkCategories bookId rest
  end.

(** STEP 3 and STEP 4 with their guards
    [book.authors && book.authors.length > 0] and
    [book.categories && book.categories.length > 0]. *)
Definition linkSteps (bookId : nat) (book : ScrapedBook) : M SaveSt unit :=
  (match authors book with
   | [] => ret tt
   | _ => liftW (relinkAuthors bookId (authors book))
   end) ;;;
  (match categories book with
   | [] => ret tt
   | _ => liftW (relinkCategories bookId (categories book))
   end).

(** The body of the per-book [try]. *)
Definition saveBook (book : ScrapedBook) (sourceId : nat) : M SaveSt unit :=
  existingBook <- liftW (findExisting book) ;;
  bookId <-
    (match existingBook with
     | Some id =>
         liftW (updateBook id book) ;;;
         setLocal (fun c => mkCounts (added c) (S (updated c))) ;;;
         ret id
     | None =>
         id <- liftW (insertBook book sourceId) ;;
         setLocal (fun c => mkCounts (S (added c)) (updated c)) ;;;
         ret id
     end) ;;
  linkSteps bookId book.

(** [for (const book of books) { try { ... } catch (error) { } }]. *)
Fixpoint saveLoop (books : list ScrapedBook) (sourceId : nat)
  : M SaveSt unit :=
  match books with
  | [] => ret tt
  | book :: rest =>
      try_catch (saveBook book sourceId) (fun _ => ret tt) ;;;
      saveLoop rest sourceId
  end.

Definition saveBooks (books : list ScrapedBook) (sourceId : nat)
  : M World Counts :=
  poolQuery Store.Connect ;;;
  withLocals (mkCounts 0 0)
    (try_catch
       (liftW (clientQuery Store.Begin) ;;;
        saveLoop books sourceId ;;;
        liftW (clientQuery Store.Commit) ;;;
        liftW (clientQuery (Store.TouchSource sourceId)) ;;;
        getLocal)
       (fun error =>
          liftW (clientQuery Store.Rollback) ;;;
          throw error)).

(** ** The orchestrators *)

(** The [type] argument; the controller passes the request body on, so a
    string outside the four known ones can arrive. *)
Inductive ScrapeType :=
| openlibrary | googlebooks | gutenberg | custom
| unknownType (name : string).

(** A result of an adapter, as a computation. *)
Definition liftRes {S A} (r : Res A) : M S A :=
  match r with Ok a => ret a | Throw m => throw m end.

(** The locals [logId] and [sourceId] of [scrapeAndSave]. *)
Record RunLocals := mkRunLocals {
  logId : option nat;
  sourceId : option nat
}.

(** [x || 0] on a nullable id. *)
Definition orZero (o : option nat) : nat :=
  match o with Some n => n | None => 0 end.

Definition failedResult (l : RunLocals) (message : string) : ScrapingResult :=
  mkScrapingResult (orZero (logId l)) (orZero (sourceId l)) 0 0 1 failed
    (Some message).

(** STEP 3 of [scrapeAndSave]: the [switch] over the type. *)
Definition scrapeByType (type : ScrapeType) (query : string)
    (customSelectors : option CustomSelectors) : Res (list ScrapedBook) :=
  match type with
  | openlibrary => scrapeOpenLibrary query 20
  | googlebooks => scrapeGoogleBooks query 20
  | gutenberg => scrapeProjectGutenberg query
  | custom =>
      match customSelectors with
      | None => Throw "Custom selectors required for custom scraping"
      | Some sels => scrapeCustomWebsite query sels
      end
  | unknownType name => Throw ("Unknown scraping type: " ++ name)%string
  end.

(** The [catch] block of [scrapeAndSave]. *)
Definition closeFailed (message : string) : M (World * RunLocals) ScrapingResult :=
  l <- getLocal ;;
  (match logId l with
   | Some (S n) =>
       t <- liftW now ;;
       liftW (updateScrapingLog (S n)
                (mkLogData (Some t) None None (Some 1) (Some failed)
                   (Some message)))
   | _ => ret tt
   end) ;;;
  ret (failedResult l message).

(** The [try] block of [scrapeAndSave]. *)
Definition runOnce (type : ScrapeType) (query sourceName baseUrl : string)
    (customSelectors : option CustomSelectors)
  : M (World * RunLocals) ScrapingResult :=
  sid <- liftW (getOrCreateSource sourceName baseUrl) ;;
  setLocal (fun l => mkRunLocals (logId l) (Some sid)) ;;;
  lid <- liftW (createScrapingLog sid) ;;
  setLocal (fun l => mkRunLocals (Some lid) (sourceId l)) ;;;
  books <- liftRes (scrapeByType type query customSelectors) ;;
  c <- liftW (saveBooks books sid) ;;
  t <- liftW now ;;
  liftW (updateScrapingLog lid
           (mkLogData (Some t) (Some (added c)) (Some (updated c))
              None (Some completed) None)) ;;;
  ret (mkScrapingResult lid sid (added c) (updated c) 0 completed None).

Definition scrapeAndSave (type : ScrapeType) (query sourceName baseUrl : string)
    (customSelectors : option CustomSelectors) : M World ScrapingResult :=
  withLocals (mkRunLocals None None)
    (try_catch (runOnce type query sourceName baseUrl customSelectors)
               closeFailed).

(** One entry of the [sources] argument of [scrapeMultipleSources]. *)
Record SourceSpec := mkSourceSpec {
  sp_type : ScrapeType;
  sp_query : string;
  sp_sourceName : string;
  sp_baseUrl : string;
  sp_customSelectors : option CustomSelectors
}.

Definition sum_by (f : ScrapingResult -> nat) (l : list ScrapingResult) : nat :=
  fold_left (fun sum r => sum + f r) l 0.

Definition is_completed (r : ScrapingResult) : bool :=
  match status r with completed => true | _ => false end.

(** The entry pushed by the [catch] of the loop. *)
Definition failedEntry (message : string) : ScrapingResult :=
  mkScrapingResult 0 0 0 0 1 failed (Some message).

(** The summary printed after the loop. *)
Definition summary (n : nat) (results : list ScrapingResult) : Event :=
  let successfulSources := length (filter is_completed results) in
  EvSummary n successfulSources (n - successfulSources)
    (sum_by books_added results) (sum_by books_updated results)
    (sum_by errors results).

(** The loop over [sources], at index [i] of [len]; the local is the array
    [results]. *)
Fixpoint scrapeLoop (i len : nat) (rest : list SourceSpec)
  : M (World * list ScrapingResult) unit :=
  match rest with
  | [] => ret tt
  | source :: rest' =>
      try_catch
        (result <- liftW (scrapeAndSave (sp_type source) (sp_query source)
                            (sp_sourceName source) (sp_baseUrl source)
                            (sp_customSelectors source)) ;;
         setLocal (fun results => results ++ [result]) ;;;
         (if i <? len - 1 then liftW (delay 2000) else ret tt))
        (fun message =>
           setLocal (fun results => results ++ [failedEntry message])) ;;;
      scrapeLoop (S i) len rest'
  end.

Definition scrapeMultipleSources (sources : list SourceSpec)
  : M World (list ScrapingResult) :=
  withLocals []
    (scrapeLoop 0 (length sources) sources ;;;
     results <- getLocal ;;
     liftW (fun w => (Ok tt, record (summary (length sources) results) w)) ;;;
     ret results).

End ScraperService.


(* ====================================================================== *)
(** * Vocabulary of the properties *)
(* ====================================================================== *)

(** A relation between the state before and the state after a computation
    that holds whatever the outcome (a value or an exception). *)
Definition always {St A} (R : St -> St -> Prop) (m : M St A) : Prop :=
  forall s, R s (snd (m s)).

(** A computation that never raises. *)
Definition total {St A} (m : M St A) : Prop :=
  forall s, exists a, fst (m s) = Ok a.

(** Started with no aborted transaction, [m] returns and leaves none
    aborted.  [pw] is the world of a state. *)
Definition runs_live {St A} (pw : St -> World) (m : M St A) : Prop :=
  forall s,
    aborted (pw s) = false ->
    (exists a, fst (m s) = Ok a) /\ aborted (pw (snd (m s))) = false.

(** A statement that is not one of [BEGIN], [COMMIT], [ROLLBACK]. *)
Definition is_data (q : Store.Stmt) : bool :=
  match q with
  | Store.Begin | Store.Commit | Store.Rollback => false
  | _ => true
  end.

(** An environment whose store refuses nothing. *)
Definition accepts_all (env : Env) : Prop :=
  forall q d, rejects env q d = None.

(** ** The merge of step 2A, field by field *)

(** A column after [COALESCE(supplied, column)]. *)
Definition kept_or_set {A} (supplied stored stored' : option A) : Prop :=
  match supplied with
  | Some v => stored' = Some v
  | None => stored' = stored
  end.

(** Row [r'] is row [r] after the update by candidate [book] at time [t]:
    the six columns are merged, [last_updated] is [t], nothing else moves. *)
Definition merged (t : nat) (book : ScrapedBook) (r r' : Store.BookRow)
  : Prop :=
  kept_or_set (subtitle book) (Store.b_subtitle r) (Store.b_subtitle r')
  /\ kept_or_set (publisher book) (Store.b_publisher r) (Store.b_publisher r')
  /\ kept_or_set (pages book) (Store.b_pages r) (Store.b_pages r')
  /\ kept_or_set (description book) (Store.b_description r)
       (Store.b_description r')
  /\ kept_or_set (cover_image_url book) (Store.b_cover_image_url r)
       (Store.b_cover_image_url r')
  /\ kept_or_set (isbn book) (Store.b_isbn r) (Store.b_isbn r')
  /\ Store.b_last_updated r' = t
  /\ Store.book_id r' = Store.book_id r
  /\ Store.b_title r' = Store.b_title r
  /\ Store.b_publication_year r' = Store.b_publication_year r
  /\ Store.b_language r' = Store.b_language r
  /\ Store.b_source_id r' = Store.b_source_id r
  /\ Store.b_source_url r' = Store.b_source_url r
  /\ Store.b_pdf_url r' = Store.b_pdf_url r
  /\ Store.b_download_url r' = Store.b_download_url r
  /\ Store.b_scraped_at r' = Store.b_scraped_at r.

(** No stored value of the six columns is replaced by null. *)
Definition never_erased (r r' : Store.BookRow) : Prop :=
  (Store.b_subtitle r <> None -> Store.b_subtitle r' <> None)
  /\ (Store.b_publisher r <> None -> Store.b_publisher r' <> None)
  /\ (Store.b_pages r <> None -> Store.b_pages r' <> None)
  /\ (Store.b_description r <> None -> Store.b_description r' <> None)
  /\ (Store.b_cover_image_url r <> None ->
      Store.b_cover_image_url r' <> None)
  /\ (Store.b_isbn r <> None -> Store.b_isbn r' <> None).

(** ** The matching cascade, as the specification words it

    A book is identified by the first satisfied rule: ISBN exact match,
    then (title, publication_year) exact match, then title-only exact
    match.  A rule applies when the candidate has the key it needs; the
    match of a rule is the first row, in storage order, that satisfies it. *)
Definition spec_by_isbn (book : ScrapedBook) (rows : list Store.BookRow)
  : option nat :=
  match isbn book with
  | Some i =>
      if Text.nonempty i
      then option_map Store.book_id
             (find (fun r => Store.opt_eqb (Store.b_isbn r) i) rows)
      else None
  | None => None
  end.

Definition spec_by_title_year (book : ScrapedBook)
    (rows : list Store.BookRow) : option nat :=
  match publication_year book with
  | Some y =>
      if Text.nonempty (title book) && negb (y =? 0)%Z
      then option_map Store.book_id
             (find (fun r => String.eqb (Store.b_title r) (title book)
                             && Store.optZ_eqb (Store.b_publication_year r) y)
                   rows)
      else None
  | None => None
  end.

Definition spec_by_title (book : ScrapedBook) (rows : list Store.BookRow)
  : option nat :=
  if Text.nonempty (title book)
  then option_map Store.book_id
         (find (fun r => String.eqb (Store.b_title r) (title book)) rows)
  else None.

Definition first_some {A} (a b : option A) : option A :=
  match a with Some _ => a | None => b end.

Definition spec_findBookId (book : ScrapedBook) (rows : list Store.BookRow)
  : option nat :=
  first_some (spec_by_isbn book rows)
    (first_some (spec_by_title_year book rows) (spec_by_title book rows)).

(** ** Linking, as functions on the database

    When no statement is refused, the linking loops are functions of the
    database in view; these are their effects, statement by statement. *)

(** The id that [SELECT id ... WHERE name = n] puts in [rows[0]]. *)
Definition lookup_name (n : string) (t : list Store.NamedRow) : option nat :=
  hd_error
    (map Store.row_id (filter (fun r => String.eqb (Store.row_name r) n) t)).

Definition goc_author (n : string) (d : Store.DB) : Store.DB * nat :=
  match lookup_name n (Store.authors_tbl d) with
  | Some id => (d, id)
  | None =>
      let id := S (Store.seq_author d) in
      (Store.set_authors d
         (Store.authors_tbl d ++ [Store.mkNamedRow id n]) id, id)
  end.

Definition goc_category (n : string) (d : Store.DB) : Store.DB * nat :=
  match lookup_name n (Store.categories_tbl d) with
  | Some id => (d, id)
  | None =>
      let id := S (Store.seq_category d) in
      (Store.set_categories d
         (Store.categories_tbl d ++ [Store.mkNamedRow id n]) id, id)
  end.

Fixpoint link_authors_db (bookId i : nat) (names : list string)
    (d : Store.DB) : Store.DB :=
  match names with
  | [] => d
  | n :: rest =>
      link_authors_db bookId (S i) rest
        (if nonblank n
         then let r := goc_author (Text.trim n) d in
              Store.set_book_authors (fst r)
                (Store.upsert_book_author bookId (snd r) (i + 1)
                   (Store.book_authors (fst r)))
         else d)
  end.

Definition relink_authors_db (bookId : nat) (names : list string)
    (d : Store.DB) : Store.DB :=
  link_authors_db bookId 0 names
    (Store.set_book_authors d
       (filter (fun r => negb (Store.ba_book r =? bookId))
               (Store.book_authors d))).

Fixpoint link_categories_db (bookId : nat) (names : list string)
    (d : Store.DB) : Store.DB :=
  match names with
  | [] => d
  | n :: rest =>
      link_categories_db bookId rest
        (if nonblank n
         then let r := goc_category (Text.trim n) d in
              Store.set_book_categories (fst r)
                (Store.insert_book_category bookId (snd r)
                   (Store.book_categories (fst r)))
         else d)
  end.

(** The author that a name of a candidate denotes in a database. *)
Definition author_of (d : Store.DB) (name : string) : option nat :=
  lookup_name (Text.trim name) (Store.authors_tbl d).

Definition category_of (d : Store.DB) (name : string) : option nat :=
  lookup_name (Text.trim name) (Store.categories_tbl d).

(** The non-blank names of a list as pairs (author, 1-based index in the
    list), counting from index [i]. *)
Fixpoint named_positions (d : Store.DB) (i : nat) (names : list string)
  : list (nat * nat) :=
  match names with
  | [] => []
  | n :: rest =>
      (if nonblank n
       then match author_of d n with
            | Some a => [(a, i + 1)]
            | None => []
            end
       else [])
      ++ named_positions d (S i) rest
  end.

(** The position that comes last for author [a] in a list of pairs. *)
Fixpoint last_position (ps : list (nat * nat)) (a : nat) : option nat :=
  match ps with
  | [] => None
  | (k, v) :: rest =>
      match last_position rest a with
      | Some p => Some p
      | None => if k =? a then Some v else None
      end
  end.

(** The rows of one book in [book_authors]. *)
Definition links_of (bookId : nat) (d : Store.DB) : list Store.BookAuthorRow :=
  filter (fun r => Store.ba_book r =? bookId) (Store.book_authors d).

Definition links_of_others (bookId : nat) (d : Store.DB)
  : list Store.BookAuthorRow :=
  filter (fun r => negb (Store.ba_book r =? bookId)) (Store.book_authors d).

(** The upserts of a list of (author, position) pairs, in order. *)
Definition upsert_all (bookId : nat) (ps : list (nat * nat))
    (t : list Store.BookAuthorRow) : list Store.BookAuthorRow :=
  fold_left (fun t p => Store.upsert_book_author bookId (fst p) (snd p) t)
            ps t.

(** Rows of one book only, with at most one row per author. *)
Definition one_per_author (bookId : nat) (F : list Store.BookAuthorRow)
  : Prop :=
  Forall (fun r => Store.ba_book r = bookId) F
  /\ NoDup (map Store.ba_author F).

(** The [book_categories] table has only grown, by rows of one book. *)
Definition categories_grown (bookId : nat) (w w' : World) : Prop :=
  exists extra,
    Store.book_categories (current w')
    = Store.book_categories (current w) ++ extra
    /\ Forall (fun r => Store.bc_book r = bookId) extra.

(** ** The batch loop, candidate by candidate *)

(** The state in which the loop leaves a batch: every candidate is taken
    to the end of its own processing, whether that ended in a value or in
    an exception. *)
Definition loop_end (env : Env) (books : list ScrapedBook) (sourceId : nat)
    (s : SaveSt) : SaveSt :=
  fold_left (fun s book => snd (saveBook env book sourceId s)) books s.

(** What the first two steps of a candidate write: [Some true] for an
    insert that went through, [Some false] for an update that went
    through, [None] when the lookup or the write raised. *)
Definition write_outcome (env : Env) (book : ScrapedBook) (sourceId : nat)
    (w : World) : option bool :=
  match findExisting env book w with
  | (Ok (Some id), w1) =>
      match updateBook env id book w1 with
      | (Ok _, _) => Some false
      | (Throw _, _) => None
      end
  | (Ok None, w1) =>
      match insertBook env book sourceId w1 with
      | (Ok _, _) => Some true
      | (Throw _, _) => None
      end
  | (Throw _, _) => None
  end.

Definition bump (o : option bool) (c : Counts) : Counts :=
  match o with
  | Some true => mkCounts (S (added c)) (updated c)
  | Some false => mkCounts (added c) (S (updated c))
  | None => c
  end.

(** The world in which the loop starts: connected, transaction begun. *)
Definition begun (env : Env) (w : World) : World :=
  snd (clientQuery env Store.Begin (snd (poolQuery env Store.Connect w))).

Definition is_rollback (e : Event) : bool :=
  match e with
  | EvSql Store.Rollback _ => true
  | _ => false
  end.

(** The events from [w] to [w'] contain no [ROLLBACK]. *)
Definition no_rollback (w w' : World) : Prop :=
  exists evs,
    trace w' = trace w ++ evs /\ forallb (fun e => negb (is_rollback e)) evs = true.

(** While a transaction is open, the committed store stays as it is. *)
Definition txn_private (w w' : World) : Prop :=
  txn w <> None -> txn w' <> None /\ durable w' = durable w.

(** Started inside a transaction, [m] leaves the transaction open, leaves
    an aborted transaction aborted, and raises only with the transaction
    aborted.  [pw] is the world of a state. *)
Definition fails_aborted {St A} (pw : St -> World) (m : M St A) : Prop :=
  forall s,
    txn (pw s) <> None ->
    txn (pw (snd (m s))) <> None
    /\ (aborted (pw s) = true -> aborted (pw (snd (m s))) = true)
    /\ (forall e, fst (m s) = Throw e -> aborted (pw (snd (m s))) = true).

(** Every book row of [w] is still a row of [w'], under the same id and
    title. *)
Definition books_persist (w w' : World) : Prop :=
  forall r, In r (Store.books (current w)) ->
    exists r', In r' (Store.books (current w'))
               /\ Store.book_id r' = Store.book_id r
               /\ Store.b_title r' = Store.b_title r.

(** The [books] table is the same in [w'] as in [w]. *)
Definition books_same (w w' : World) : Prop :=
  Store.books (current w') = Store.books (current w).

(** A relation on worlds, on states that carry locals which stay put. *)
Definition on_world {L} (R : World -> World -> Prop)
  : World * L -> World * L -> Prop :=
  fun s s' => R (fst s) (fst s') /\ snd s' = snd s.

(** A relation on worlds, on states whose locals may move. *)
Definition in_world {L} (R : World -> World -> Prop)
  : World * L -> World * L -> Prop :=
  fun s s' => R (fst s) (fst s').

(** The statements of the per-book [try]: STEP 1 to STEP 4. *)
Definition is_book_stmt (q : Store.Stmt) : bool :=
  match q with
  | Store.SelectBookByIsbn _ | Store.SelectBookByTitleYear _ _
  | Store.SelectBookByTitle _
  | Store.UpdateBook _ _ _ _ _ _ _
  | Store.InsertBook _ _ _ _ _ _ _ _ _ _ _ _ _
  | Store.DeleteBookAuthors _ | Store.SelectAuthorByName _
  | Store.InsertAuthor _ | Store.UpsertBookAuthor _ _ _
  | Store.SelectCategoryByName _ | Store.InsertCategory _
  | Store.InsertBookCategory _ _ => true
  | _ => false
  end.

(** The statements of STEP 3 and STEP 4. *)
Definition is_link_stmt (q : Store.Stmt) : bool :=
  match q with
  | Store.DeleteBookAuthors _ | Store.SelectAuthorByName _
  | Store.InsertAuthor _ | Store.UpsertBookAuthor _ _ _
  | Store.SelectCategoryByName _ | Store.InsertCategory _
  | Store.InsertBookCategory _ _ => true
  | _ => false
  end.

(** The store accepts the statements around the loop of [saveBooks]: the
    connection, [BEGIN], [COMMIT] and the update of the source. *)
Definition control_accepted (env : Env) (sourceId : nat) : Prop :=
  forall d,
    rejects env Store.Connect d = None
    /\ rejects env Store.Begin d = None
    /\ rejects env Store.Commit d = None
    /\ rejects env (Store.TouchSource sourceId) d = None.

(** The world after the loop has been committed and the source touched. *)
Definition committed (env : Env) (sourceId : nat) (w : World) : World :=
  snd (clientQuery env (Store.TouchSource sourceId)
         (snd (clientQuery env Store.Commit w))).

(* ====================================================================== *)
(** * Fixtures *)
(* ====================================================================== *)

(** A network that is down. *)
Definition offline {A} : string -> Res A := fun _ => Throw "ECONNREFUSED".

(** An environment with a given store oracle and no network. *)
Definition env_with (rej : Store.Stmt -> Store.DB -> option string) : Env :=
  mkEnv rej offline offline offline (fun _ _ => None) (fun s => s) None.

(** A store that refuses nothing. *)
Definition no_refusal : Store.Stmt -> Store.DB -> option string :=
  fun _ _ => None.

Definition quiet_env : Env := env_with no_refusal.

(** A store whose [authors.author_name] holds at most 30 characters. *)
Definition short_names : Store.Stmt -> Store.DB -> option string :=
  fun q _ =>
    match q with
    | Store.InsertAuthor n =>
        if 30 <? String.length n
        then Some "value too long for type character varying(30)"
        else None
    | _ => None
    end.

Definition short_names_env : Env := env_with short_names.

(** A store that has lost the [scraping_logs] table for writing. *)
Definition no_log_updates : Store.Stmt -> Store.DB -> option string :=
  fun q _ =>
    match q with
    | Store.UpdateLog _ _ => Some "could not update scraping_logs"
    | _ => None
    end.

Definition no_log_updates_env : Env := env_with no_log_updates.

Definition fresh_world : World := mkWorld Store.empty_db None 0 [] false.

Definition candidate (t : string) (i : option string) (auths : list string)
  : ScrapedBook :=
  mkScrapedBook t None i None None None None None None None auths [] None
    None.

Definition dune : ScrapedBook :=
  candidate "Dune" (Some "9780441013593") ["Frank Herbert"].

Definition dune_again : ScrapedBook := candidate "Dune" None [].

Definition long_author : ScrapedBook :=
  candidate "Names" None ["Hubert Blaine Wolfeschlegelsteinhausenbergerdorff"].

(** ** Vocabulary of the orchestrator *)

(** The store accepts every update of a log row. *)
Definition log_updates_accepted (env : Env) : Prop :=
  forall updates id d, rejects env (Store.UpdateLog updates id) d = None.

Definition is_log_stmt (q : Store.Stmt) : bool :=
  match q with
  | Store.InsertLog _ | Store.UpdateLog _ _ => true
  | _ => false
  end.

(** Inside an open transaction the log table is the committed one. *)
Definition logs_sync (w : World) : Prop :=
  match txn w with
  | Some d => Store.scraping_logs d = Store.scraping_logs (durable w)
  | None => True
  end.

(** The committed log table is the same in [w'] as in [w]. *)
Definition logs_kept (w w' : World) : Prop :=
  logs_sync w ->
  logs_sync w'
  /\ Store.scraping_logs (durable w') = Store.scraping_logs (durable w).

(** A log row closed as failed at time [t] with message [msg]. *)
Definition closed_failed (t : nat) (msg : string) (row : Store.LogRow)
  : Prop :=
  Store.l_errors row = 1
  /\ Store.l_status row = failed
  /\ Store.l_completed_at row = Some t
  /\ (Text.nonempty msg = true -> Store.l_error_details row = Some msg).

(** ** Vocabulary of the batch driver *)

(** The run of one entry of the batch. *)
Definition runSpec (env : Env) (source : SourceSpec) : M World ScrapingResult :=
  scrapeAndSave env (sp_type source) (sp_query source) (sp_sourceName source)
    (sp_baseUrl source) (sp_customSelectors source).

(** One turn of the loop at index [i] of [len]: a run that returns pushes
    its result and, unless it is the last one, waits two seconds; a run that
    raises pushes a failed entry and does not wait. *)
Definition loop_step (env : Env) (i len : nat) (source : SourceSpec)
    (s : World * list ScrapingResult) : World * list ScrapingResult :=
  match runSpec env source (fst s) with
  | (Ok result, w1) =>
      (if i <? len - 1 then record (EvDelay 2000) w1 else w1,
       snd s ++ [result])
  | (Throw message, w1) => (w1, snd s ++ [failedEntry message])
  end.

Fixpoint scrape_end (env : Env) (i len : nat) (rest : list SourceSpec)
    (s : World * list ScrapingResult) : World * list ScrapingResult :=
  match rest with
  | [] => s
  | source :: rest' =>
      scrape_end env (S i) len rest' (loop_step env i len source s)
  end.

(** The result that a run of [source] gives in some world, or the failed
    entry that stands for its exception. *)
Definition entry_of (env : Env) (source : SourceSpec) (r : ScrapingResult)
  : Prop :=
  exists w0,
    fst (runSpec env source w0) = Ok r
    \/ exists message,
         fst (runSpec env source w0) = Throw message
         /\ r = failedEntry message.

(** The waits among a list of events, in milliseconds. *)
Definition delays_of (evs : list Event) : list nat :=
  flat_map (fun e => match e with EvDelay ms => [ms] | _ => [] end) evs.

(** From [w] to [w'] there were [k] waits, of two seconds each. *)
Definition delayed (k : nat) (w w' : World) : Prop :=
  exists evs, trace w' = trace w ++ evs /\ delays_of evs = repeat 2000 k.

Definition gutenberg_spec : SourceSpec :=
  mkSourceSpec gutenberg "science" "Project Gutenberg"
    "https://www.gutenberg.org" None.

(** A catalog with one book, published by Acme. *)
Definition acme_world : World :=
  mkWorld
    (Store.mkDB
       [Store.mkBookRow 1 "Dune" None None None (Some "Acme") None "English"
          None None 1 None None None 0 0]
       [] [] [] [] [] [] 1 0 0 0 0)
    None 5 [] false.

(** A work of the subject API that is really called "Unknown Title". *)
Definition unknown_work : Work :=
  mkWork (Some "Unknown Title") (Some 1999%Z) DescAbsent None None None None
    None.

(* ====================================================================== *)
(** * Further vocabulary: text *)
(* ====================================================================== *)

(** A list of code units in which white space occurs only as single
    blanks between other code units; [prev] says that the code unit before
    the list is white space (or that the list starts the text). *)
Fixpoint single_blanks (prev : bool) (l : list ascii) : bool :=
  match l with
  | [] => negb prev
  | c :: r =>
      if Text.is_space c
      then negb prev && Ascii.eqb c " " && single_blanks true r
      else single_blanks false r
  end.

(** A cleaned text: empty, or without white space at either end and with
    single blanks as its only white space. *)
Definition is_clean (s : string) : bool :=
  match s with
  | EmptyString => true
  | _ => single_blanks true (list_ascii_of_string s)
  end.

Definition all_space (s : string) : bool :=
  forallb Text.is_space (list_ascii_of_string s).

(* ====================================================================== *)
(** * Further vocabulary: adapters *)
(* ====================================================================== *)

(** Every author name of a candidate passes [name && name.trim()]. *)
Definition authors_nonblank (book : ScrapedBook) : Prop :=
  Forall (fun n => nonblank n = true) (authors book).

(* ====================================================================== *)
(** * Further vocabulary: the store *)
(* ====================================================================== *)

(** The id that [SELECT source_id ... WHERE source_name = n] puts in
    [rows[0]]. *)
Definition lookup_source (n : string) (t : list Store.SourceRow)
  : option nat :=
  hd_error (map Store.s_id (filter (fun r => String.eqb (Store.s_name r) n) t)).

(** What [getOrCreateSource] does to the database in view, and the id it
    returns. *)
Definition goc_source (n url : string) (d : Store.DB) : Store.DB * nat :=
  match lookup_source n (Store.sources d) with
  | Some id => (d, id)
  | None =>
      let id := S (Store.seq_source d) in
      (Store.set_sources d
         (Store.sources d ++ [Store.mkSourceRow id n url true None]) id, id)
  end.

(** Row [r'] is row [r] after [updateScrapingLog lid data]: untouched when
    its id is another one; otherwise every column for which [data] has
    nothing keeps its value (an empty [error_details] counts as nothing). *)
Definition log_updated (lid : nat) (data : LogData) (r r' : Store.LogRow)
  : Prop :=
  Store.l_id r' = Store.l_id r
  /\ Store.l_source_id r' = Store.l_source_id r
  /\ Store.l_started_at r' = Store.l_started_at r
  /\ (Store.l_id r <> lid -> r' = r)
  /\ (Store.l_id r = lid ->
      Store.l_completed_at r'
      = Store.coalesce (d_completed_at data) (Store.l_completed_at r)
      /\ Store.l_books_added r'
         = match d_books_added data with
           | Some n => n | None => Store.l_books_added r end
      /\ Store.l_books_updated r'
         = match d_books_updated data with
           | Some n => n | None => Store.l_books_updated r end
      /\ Store.l_errors r'
         = match d_errors data with
           | Some n => n | None => Store.l_errors r end
      /\ Store.l_status r'
         = match d_status data with
           | Some s => s | None => Store.l_status r end
      /\ Store.l_error_details r'
         = if Text.truthy (d_error_details data)
           then d_error_details data else Store.l_error_details r).

(** Data with nothing to write: the message is there, but empty. *)
Definition no_data : LogData := mkLogData None None None None None (Some "").

(** A stored row that the lookup of [saveBooks] can find for a candidate:
    by the candidate's ISBN, or by its title. *)
Definition findable (book : ScrapedBook) (r : Store.BookRow) : Prop :=
  (Text.truthy (isbn book) = true /\ Store.b_isbn r = isbn book)
  \/ (Text.nonempty (title book) = true /\ Store.b_title r = title book).

(** ** The transaction of [saveBooks] *)

(** Database [d'] has lost nothing of [d] but author links: every book is
    there under its id, title and year, and so is every author, every
    category and every link of a book to a category. *)
Definition db_keeps (d d' : Store.DB) : Prop :=
  (forall r, In r (Store.books d) ->
     exists r', In r' (Store.books d')
                /\ Store.book_id r' = Store.book_id r
                /\ Store.b_title r' = Store.b_title r
                /\ Store.b_publication_year r' = Store.b_publication_year r)
  /\ (forall r, In r (Store.authors_tbl d) -> In r (Store.authors_tbl d'))
  /\ (forall r, In r (Store.categories_tbl d) ->
        In r (Store.categories_tbl d'))
  /\ (forall r, In r (Store.book_categories d) ->
        In r (Store.book_categories d')).

(** The open transaction, if there is one, has lost nothing of the
    committed store. *)
Definition txn_keeps (w : World) : Prop :=
  match txn w with
  | Some d => db_keeps (durable w) d
  | None => True
  end.

Definition catalog_kept (w w' : World) : Prop :=
  txn_keeps w -> txn_keeps w' /\ db_keeps (durable w) (durable w').

(** A store that refuses every [COMMIT]. *)
Definition no_commit : Store.Stmt -> Store.DB -> option string :=
  fun q _ =>
    match q with
    | Store.Commit => Some "could not serialize access"
    | _ => None
    end.

(** A store that refuses every update of a source. *)
Definition no_touch : Store.Stmt -> Store.DB -> option string :=
  fun q _ =>
    match q with
    | Store.TouchSource _ => Some "permission denied for table sources"
    | _ => None
    end.

(** The author links are the same in [w'] as in [w]. *)
Definition links_same (w w' : World) : Prop :=
  Store.book_authors (current w') = Store.book_authors (current w).

(** A statement of STEP 4. *)
Definition is_category_stmt (q : Store.Stmt) : bool :=
  match q with
  | Store.SelectCategoryByName _ | Store.InsertCategory _
  | Store.InsertBookCategory _ _ => true
  | _ => false
  end.

(** ** Results *)

(** A result as [scrapeAndSave] builds it: completed without an error, or
    failed with nothing counted, one error and its message. *)
Definition result_shape (r : ScrapingResult) : Prop :=
  (status r = completed /\ errors r = 0 /\ error_details r = None)
  \/ (status r = failed /\ books_added r = 0 /\ books_updated r = 0
      /\ errors r = 1 /\ error_details r <> None).

(** The data with which a run that went through closes its log row. *)
Definition completedData (t : nat) (c : Counts) : LogData :=
  mkLogData (Some t) (Some (added c)) (Some (updated c)) None
    (Some completed) None.

(* ====================================================================== *)
(** * The controller *)
(* ====================================================================== *)

(** A value of a parsed JSON body.  A number is the double that
    [JSON.parse] gives; an object lists its properties as the text has
    them. *)
#[warnings="-register-all"]
Inductive Json :=
| JNull
| JBool (b : bool)
| JNumber (x : spec_float)
| JString (s : string)
| JArray (items : list Json)
| JObject (props : list (string * Json)).

(** [!!v] for a JSON value or [undefined] ([None]). *)
Definition truthyJs (v : option Json) : bool :=
  match v with
  | None | Some JNull => false
  | Some (JBool b) => b
  | Some (JNumber (S754_zero _)) | Some (JNumber S754_nan) => false
  | Some (JNumber _) => true
  | Some (JString s) => Text.nonempty s
  | Some (JArray _) | Some (JObject _) => true
  end.

(** [v.name] for a value [v] that is neither [null] nor [undefined] and a
    name that no prototype defines (such are all the names read here): the
    property of an object, the last one of that name as [JSON.parse] keeps
    it, and [undefined] on any other value. *)
Definition member (name : string) (v : Json) : option Json :=
  match v with
  | JObject props =>
      option_map snd
        (find (fun p => String.eqb (fst p) name) (rev props))
  | _ => None
  end.

(** The [TypeError] of a destructuring of [req.body]. *)
Definition cannotDestructure (name what : string) : string :=
  "Cannot destructure property '" ++ name ++ "' of 'req.body' as it is "
  ++ what ++ ".".

(** [const { name, ... } = req.body]. *)
Definition destructure {S} (name : string) (body : option Json) : M S Json :=
  match body with
  | None => throw (cannotDestructure name "undefined")
  | Some JNull => throw (cannotDestructure name "null")
  | Some b => ret b
  end.

(** [v === s]. *)
Definition strictEq (v : option Json) (s : string) : bool :=
  match v with
  | Some (JString t) => String.eqb t s
  | _ => false
  end.

(** [Array.isArray(v)] and, for an array, its entries. *)
Definition isArray (v : option Json) : bool :=
  match v with Some (JArray _) => true | _ => false end.

Definition itemsOf (v : option Json) : list Json :=
  match v with Some (JArray items) => items | _ => [] end.

(** ** Values of the types the service declares *)

Definition opt_bind {A B} (o : option A) (k : A -> option B) : option B :=
  match o with Some a => k a | None => None end.

(** A value of type [string]. *)
Definition asString (v : option Json) : option string :=
  match v with Some (JString s) => Some s | _ => None end.

(** A property [name?: string]: a string, or not there. *)
Definition asOptString (v : option Json) : option (option string) :=
  match v with
  | None => Some None
  | Some (JString s) => Some (Some s)
  | Some _ => None
  end.

(** An object of [interface CustomSelectors]. *)
Definition asSelectors (v : Json) : option CustomSelectors :=
  opt_bind (asString (member "container" v)) (fun container =>
  opt_bind (asString (member "title" v)) (fun title =>
  opt_bind (asOptString (member "subtitle" v)) (fun subtitle =>
  opt_bind (asOptString (member "authors" v)) (fun authors =>
  opt_bind (asOptString (member "description" v)) (fun description =>
  opt_bind (asOptString (member "coverImage" v)) (fun coverImage =>
  opt_bind (asOptString (member "link" v)) (fun link =>
  opt_bind (asOptString (member "publisher" v)) (fun publisher =>
  opt_bind (asOptString (member "year" v)) (fun year =>
  opt_bind (asOptString (member "isbn" v)) (fun isbn =>
  opt_bind (asOptString (member "categories" v)) (fun categories =>
  opt_bind (asOptString (member "pages" v)) (fun pages =>
  Some (mkCustomSelectors container title subtitle authors description
          coverImage link publisher year isbn categories pages))))))))))))).

(** A parameter [customSelectors?: CustomSelectors]. *)
Definition asOptSelectors (v : option Json) : option (option CustomSelectors) :=
  match v with
  | None => Some None
  | Some j => option_map Some (asSelectors j)
  end.

(** The [type] string, as the [switch] of [scrapeAndSave] reads it. *)
Definition typeOf (s : string) : ScrapeType :=
  if String.eqb s "openlibrary" then openlibrary
  else if String.eqb s "googlebooks" then googlebooks
  else if String.eqb s "gutenberg" then gutenberg
  else if String.eqb s "custom" then custom
  else unknownType s.

(** The five arguments of a call of [scrapeAndSave], when each is of the
    type that the signature declares (the type any string). *)
Definition asSpec (type query sourceName baseUrl customSelectors : option Json)
  : option SourceSpec :=
  opt_bind (asString type) (fun ty =>
  opt_bind (asString query) (fun q =>
  opt_bind (asString sourceName) (fun n =>
  opt_bind (asString baseUrl) (fun u =>
  opt_bind (asOptSelectors customSelectors) (fun sels =>
  Some (mkSourceSpec (typeOf ty) q n u sels)))))).

(** An entry of [sources], and all of them. *)
Definition asEntry (v : Json) : option SourceSpec :=
  asSpec (member "type" v) (member "query" v) (member "sourceName" v)
    (member "baseUrl" v) (member "customSelectors" v).

Fixpoint asSpecs (items : list Json) : option (list SourceSpec) :=
  match items with
  | [] => Some []
  | v :: rest =>
      opt_bind (asEntry v) (fun s =>
      opt_bind (asSpecs rest) (fun l => Some (s :: l)))
  end.

(** What the service does when it is called with values that are not of
    the types it declares.  Nothing is said about it: every property of the
    handlers holds whatever these two are. *)
Record Beyond := mkBeyond {
  scrapeAndSave_beyond :
    option Json -> option Json -> option Json -> option Json ->
    option Json -> M World ScrapingResult;
  scrapeMultipleSources_beyond : list Json -> M World (list ScrapingResult)
}.

(** The JSON that a handler sends next to [success]. *)
Inductive Payload :=
| Data (result : ScrapingResult)
| DataList (results : list ScrapingResult)
| ErrorText (message : string).

(** [res.status(s).json({ success, ... })]; [res.json] alone sends 200. *)
Record Response := mkResponse {
  rs_status : nat;
  rs_success : bool;
  rs_payload : Payload
}.

Module ScraperController.

Definition validTypes : list string :=
  ["openlibrary"; "googlebooks"; "gutenberg"; "custom"].

(** [validTypes.includes(type)]: only a string is equal to a string. *)
Definition includes (l : list string) (v : option Json) : bool :=
  existsb (strictEq v) l.

Definition badRequest (message : string) : Response :=
  mkResponse 400 false (ErrorText message).

Definition serverError (message : string) : Response :=
  mkResponse 500 false (ErrorText message).

(** [POST /api/scraper/scrape]. *)
Definition scrapeBooks (env : Env) (beyond : Beyond) (body : option Json)
  : M World Response :=
  try_catch
    (b <- destructure "type" body ;;
     let type := member "type" b in
     let query := member "query" b in
     let sourceName := member "sourceName" b in
     let baseUrl := member "baseUrl" b in
     let customSelectors := member "customSelectors" b in
     if negb (truthyJs type) || negb (truthyJs query)
        || negb (truthyJs sourceName) || negb (truthyJs baseUrl)
     then ret (badRequest
                 "Missing required fields: type, query, sourceName, baseUrl")
     else if negb (includes validTypes type)
     then ret (badRequest
                 ("Invalid type. Must be one of: "
                  ++ String.concat ", " validTypes))
     else if strictEq type "custom" && negb (truthyJs customSelectors)
     then ret (badRequest "customSelectors required for custom scraping")
     else
       result <- match asSpec type query sourceName baseUrl
                         customSelectors with
                 | Some s =>
                     scrapeAndSave env (sp_type s) (sp_query s)
                       (sp_sourceName s) (sp_baseUrl s)
                       (sp_customSelectors s)
                 | None =>
                     scrapeAndSave_beyond beyond type query sourceName
                       baseUrl customSelectors
                 end ;;
       ret (mkResponse 200 true (Data result)))
    (fun message => ret (serverError message)).

(** [POST /api/scraper/scrape-multiple]. *)
Definition scrapeMultipleSources (env : Env) (beyond : Beyond)
    (body : option Json) : M World Response :=
  try_catch
    (b <- destructure "sources" body ;;
     let sources := member "sources" b in
     if negb (truthyJs sources) || negb (isArray sources)
        || (length (itemsOf sources) =? 0)
     then ret (badRequest "sources array is required and must not be empty")
     else
       results <- match asSpecs (itemsOf sources) with
                  | Some l => scrapeMultipleSources env l
                  | None =>
                      scrapeMultipleSources_beyond beyond (itemsOf sources)
                  end ;;
       ret (mkResponse 200 true (DataList results)))
    (fun message => ret (serverError message)).

End ScraperController.

(** A body has properties to read. *)
Definition has_properties (body : option Json) : Prop :=
  exists b, body = Some b /\ b <> JNull.

(** A body passes the three tests of [scrapeBooks]: the type is one of the
    four that the service knows, the other three fields are truthy, and a
    custom type comes with selectors. *)
Definition passes (b : Json) : Prop :=
  exists ty,
    member "type" b = Some (JString ty)
    /\ In ty ScraperController.validTypes
    /\ truthyJs (member "query" b) = true
    /\ truthyJs (member "sourceName" b) = true
    /\ truthyJs (member "baseUrl" b) = true
    /\ (ty = "custom" -> truthyJs (member "customSelectors" b) = true).

(** The call of [scrapeAndSave] that a body leads to, when its fields are
    of the declared types. *)
Definition spec_of (b : Json) : option SourceSpec :=
  asSpec (member "type" b) (member "query" b) (member "sourceName" b)
    (member "baseUrl" b) (member "customSelectors" b).

(** The type of a call is one of the four that the service knows, and a
    custom one comes with its selectors. *)
Definition well_typed (s : SourceSpec) : Prop :=
  sp_type s = openlibrary \/ sp_type s = googlebooks
  \/ sp_type s = gutenberg
  \/ (sp_type s = custom /\ sp_customSelectors s <> None).

(** The run of a call. *)
Definition run_of (env : Env) (s : SourceSpec) : M World ScrapingResult :=
  scrapeAndSave env (sp_type s) (sp_query s) (sp_sourceName s)
    (sp_baseUrl s) (sp_customSelectors s).

(** The body has a non-empty array of sources. *)
Definition has_sources (b : Json) : Prop :=
  exists first rest, member "sources" b = Some (JArray (first :: rest)).

(** ** More fixtures *)

(** A work of the subject API. *)
Definition emma_work : Work :=
  mkWork (Some "Emma") (Some 1815%Z) DescAbsent None
    (Some "/works/OL66513W") (Some [Some "Jane Austen"; Some " "]) None None.

(** A volume of the search API with three identifiers. *)
Definition emma_volume : VolumeInfo :=
  mkVolumeInfo (Some "Emma") None
    (Some [mkIdentifier "OTHER" (Some "OCLC:1");
           mkIdentifier "ISBN_10" (Some "0141439580");
           mkIdentifier "ISBN_13" (Some "9780141439587")])
    (Some "1815") None None None None None None None None
    (Some ["Jane Austen"]) None.

Definition emma_item : Item := mkItem (Some emma_volume).

(** An entry of a listing page. *)
Definition booklink (t byline : string) : Element :=
  mkElement
    (fun sel => if String.eqb sel ".title" then t
                else if String.eqb sel ".subtitle" then byline else "")
    (fun _ _ => None) (fun _ => []).

Definition listing : Page :=
  fun sel => if String.eqb sel ".booklink"
             then [booklink "Emma" "by Jane Austen"; booklink "" ""]
             else [].

(** An environment with a given store oracle, whose sources answer. *)
Definition online (rej : Store.Stmt -> Store.DB -> option string) : Env :=
  mkEnv rej (fun _ => Ok (Some [emma_work])) (fun _ => Ok (Some [emma_item]))
    (fun _ => Ok listing) (fun _ _ => None) (fun s => s) None.

Definition shelf_env : Env := online no_refusal.

(** A store that cannot be reached. *)
Definition no_connection : Store.Stmt -> Store.DB -> option string :=
  fun q _ =>
    match q with
    | Store.Connect => Some "connect ECONNREFUSED"
    | _ => None
    end.

Definition emma : ScrapedBook := candidate "Emma" None ["Jane Austen"].

(** A request for one subject of the subject API. *)
Definition emma_request : Json :=
  JObject [("type", JString "openlibrary"); ("query", JString "romance");
           ("sourceName", JString "Open Library");
           ("baseUrl", JString "https://openlibrary.org")].

(** A service that raises when it is called outside its signature. *)
Definition refusing : Beyond :=
  mkBeyond (fun _ _ _ _ _ => throw "outside the signature")
           (fun _ => throw "outside the signature").

(** A world with one running log row, of source 1. *)
Definition logged_world : World :=
  snd (createScrapingLog quiet_env 1 fresh_world).

(** A candidate with neither an ISBN nor a title. *)
Definition untitled : ScrapedBook := candidate "" None ["Anonymous"].
(* ====================================================================== *)
(** * Properties: the text utilities *)
(* ====================================================================== *)

Section TextFacts.

Import Text.

Lemma match_d4_spec (l : list ascii) :
  match match_d4 l with
  | Some m =>
      exists i, window4_at l i
                /\ (forall j, j < i -> ~ window4_at l j)
                /\ m = firstn 4 (skipn i l)
  | None => forall i, ~ window4_at l i
  end.
Proof.
  induction l as [|a t IH].
  - simpl. intros i (x & b & c & d & rest & H & _).
    destruct i; discriminate H.
  - cbn [match_d4].
    destruct t as [|b [|c [|d rest]]].
    + intros i (x & y & z & u & r & H & _).
      destruct i as [|[|i]]; discriminate H.
    + intros i (x & y & z & u & r & H & _).
      destruct i as [|[|[|i]]]; discriminate H.
    + intros i (x & y & z & u & r & H & _).
      destruct i as [|[|[|[|i]]]]; discriminate H.
    + destruct (four_digits a b c d) eqn:E.
      * exists 0. split; [|split].
        -- exists a, b, c, d, rest. split; [reflexivity|exact E].
        -- intros j Hj. lia.
        -- reflexivity.
      * destruct (match_d4 (b :: c :: d :: rest)) as [m|] eqn:Em.
        -- destruct IH as (i & Hw & Hmin & Hm).
           exists (S i). split; [|split].
           ++ exact Hw.
           ++ intros [|j] Hj (x & y & z & u & r & H & Hd).
              ** simpl in H. injection H as -> -> -> -> _. congruence.
              ** apply (Hmin j); [lia|]. exists x, y, z, u, r. split; assumption.
           ++ exact Hm.
        -- intros [|i] (x & y & z & u & r & H & Hd).
           ++ simpl in H. injection H as -> -> -> -> _. congruence.
           ++ apply (IH i). exists x, y, z, u, r. split; assumption.
Qed.

End TextFacts.

(** C9 (counterexample).  On ["12345"] the service returns 1234, the leading
    four digits of a five-digit run, whereas the string has no run of
    exactly four digits, so the rule of the specification gives nothing. *)
Lemma extractYear_five_digit_run :
  Text.extractYear (Some "12345") = Some 1234%Z
  /\ Text.spec_extractYear (Some "12345") = None
  /\ Text.extractYear (Some "12345") <> Text.spec_extractYear (Some "12345").
Proof.
  split; [reflexivity|]. split; [reflexivity|]. discriminate.
Qed.

(** C9 (amended).  [extractYear] returns nothing for a missing input; for a
    string it returns the decimal value of the leftmost four consecutive
    digits, wherever they stand (also at the head of a longer run of
    digits), and nothing when the string has no four consecutive digits. *)
Theorem extractYear_first_window (s : string) :
  Text.extractYear None = None
  /\ match Text.extractYear (Some s) with
     | Some y =>
         exists i,
           Text.window4_at (list_ascii_of_string s) i
           /\ (forall j, j < i -> ~ Text.window4_at (list_ascii_of_string s) j)
           /\ y = Text.window4_val (list_ascii_of_string s) i
     | None => forall i, ~ Text.window4_at (list_ascii_of_string s) i
     end.
Proof.
  split; [reflexivity|].
  unfold Text.extractYear.
  destruct s as [|c s'].
  - simpl. intros i (x & b & c & d & rest & H & _). destruct i; discriminate H.
  - cbn [Text.nonempty].
    pose proof (match_d4_spec (list_ascii_of_string (String c s'))) as H.
    destruct (Text.match_d4 (list_ascii_of_string (String c s'))) as [m|].
    + destruct H as (i & Hw & Hmin & Hm). exists i.
      split; [exact Hw|]. split; [exact Hmin|].
      unfold Text.window4_val. now rewrite Hm.
    + exact H.
Qed.

(* ====================================================================== *)
(** * Properties: the adapters *)
(* ====================================================================== *)

Section AdapterFacts.

Variable env : Env.

Lemma titleOrUnknown_discarded (t : option string) :
  discarded t = true -> titleOrUnknown t = UNKNOWN_TITLE.
Proof.
  unfold discarded, titleOrUnknown, Text.orElse.
  destruct t as [s|]; simpl; [|reflexivity].
  destruct (Text.nonempty s) eqn:E; simpl; [|reflexivity].
  intros H. now apply String.eqb_eq in H.
Qed.

Lemma keep_sentinel (book : ScrapedBook) :
  title book = UNKNOWN_TITLE -> keep book = false.
Proof. unfold keep. intros ->. reflexivity. Qed.

Lemma yield_sentinel (book : ScrapedBook) :
  title book = UNKNOWN_TITLE -> yield (Ok book) = [].
Proof. intros H. unfold yield. now rewrite (keep_sentinel _ H). Qed.

Lemma keep_title (book : ScrapedBook) :
  keep book = true -> title book <> UNKNOWN_TITLE /\ title book <> "".
Proof.
  unfold keep. intros H. apply andb_true_iff in H as [H1 H2].
  split.
  - intros E. rewrite E in H2. discriminate H2.
  - intros E. rewrite E in H1. discriminate H1.
Qed.

Lemma yield_kept (r : Res ScrapedBook) :
  Forall (fun b => keep b = true) (yield r).
Proof.
  destruct r as [b|m]; simpl; [|constructor].
  destruct (keep b) eqn:E; repeat constructor. exact E.
Qed.

Lemma flat_map_yield_kept {A} (f : A -> Res ScrapedBook) (l : list A) :
  Forall (fun b => keep b = true) (flat_map (fun x => yield (f x)) l).
Proof.
  induction l as [|x l IH]; simpl; [constructor|].
  apply Forall_app. split; [apply yield_kept|exact IH].
Qed.

Lemma Forall_firstn {A} (P : A -> Prop) (n : nat) (l : list A) :
  Forall P l -> Forall P (firstn n l).
Proof.
  intros H. revert n. induction H as [|x l Hx Hl IH]; intros [|n]; simpl;
    constructor; auto.
Qed.

Lemma kept_titles (l : list ScrapedBook) :
  Forall (fun b => keep b = true) l ->
  Forall (fun b => title b <> UNKNOWN_TITLE /\ title b <> "") l.
Proof.
  intros H. eapply Forall_impl; [|exact H]. intros b. apply keep_title.
Qed.

End AdapterFacts.

(** C10.  In each of the four adapters an item whose cleaned title is
    missing, empty or equal to ["Unknown Title"] gets the sentinel as its
    title and is not pushed; the sentinel itself is such a title, so an item
    that is really called "Unknown Title" is dropped as well; and no adapter
    ever returns a candidate whose title is the sentinel or empty. *)
Theorem adapters_discard_unknown_title (env : Env) :
  discarded (Text.cleanText (Some UNKNOWN_TITLE)) = true
  /\ (forall subject work,
        discarded (Text.cleanText (w_title work)) = true ->
        yield (parseWork subject work) = [])
  /\ (forall item vi,
        volumeInfo item = Some vi ->
        discarded (Text.cleanText (v_title vi)) = true ->
        yield (parseItem item) = [])
  /\ (forall searchTerm el,
        discarded (Text.cleanText (Some (findText el ".title"))) = true ->
        yield (parseBooklink searchTerm el) = [])
  /\ (forall url selectors el,
        discarded (Text.cleanText
                     (Some (findText el (sel_title selectors)))) = true ->
        yield (parseCustomItem env url selectors el) = [])
  /\ (forall subject limit books,
        scrapeOpenLibrary env subject limit = Ok books ->
        Forall (fun b => title b <> UNKNOWN_TITLE /\ title b <> "") books)
  /\ (forall query maxResults books,
        scrapeGoogleBooks env query maxResults = Ok books ->
        Forall (fun b => title b <> UNKNOWN_TITLE /\ title b <> "") books)
  /\ (forall searchTerm books,
        scrapeProjectGutenberg env searchTerm = Ok books ->
        Forall (fun b => title b <> UNKNOWN_TITLE /\ title b <> "") books)
  /\ (forall url selectors books,
        scrapeCustomWebsite env url selectors = Ok books ->
        Forall (fun b => title b <> UNKNOWN_TITLE /\ title b <> "") books).
Proof.
  split; [reflexivity|].
  split.
  { intros subject work H. apply yield_sentinel. simpl.
    now apply titleOrUnknown_discarded. }
  split.
  { intros item vi Hvi H. unfold parseItem. rewrite Hvi.
    apply yield_sentinel. simpl. now apply titleOrUnknown_discarded. }
  split.
  { intros searchTerm el H. apply yield_sentinel. simpl.
    now apply titleOrUnknown_discarded. }
  split.
  { intros url selectors el H. unfold parseCustomItem.
    destruct (absoluteUrl env url el (sel_coverImage selectors) "src");
      [|reflexivity].
    destruct (absoluteUrl env url el (sel_link selectors) "href");
      [|reflexivity].
    apply yield_sentinel. simpl. now apply titleOrUnknown_discarded. }
  split.
  { intros subject limit books H. unfold scrapeOpenLibrary in H.
    destruct (getWorks env _) as [data|]; [|discriminate H].
    replace books
      with (flat_map (fun work => yield (parseWork subject work))
              (match data with Some ws => ws | None => [] end))
      by congruence.
    apply kept_titles, flat_map_yield_kept. }
  split.
  { intros query maxResults books H. unfold scrapeGoogleBooks in H.
    destruct (getItems env _) as [data|]; [|discriminate H].
    replace books
      with (flat_map (fun item => yield (parseItem item))
              (match data with Some its => its | None => [] end))
      by congruence.
    apply kept_titles, flat_map_yield_kept. }
  split.
  { intros searchTerm books H. unfold scrapeProjectGutenberg in H.
    destruct (getPage env _) as [page|]; [|discriminate H].
    replace books
      with (firstn 20
              (flat_map (fun el => yield (parseBooklink searchTerm el))
                 (page ".booklink")))
      by congruence.
    apply kept_titles, Forall_firstn, flat_map_yield_kept. }
  { intros url selectors books H. unfold scrapeCustomWebsite in H.
    destruct (getPage env _) as [page|]; [|discriminate H].
    replace books
      with (flat_map (fun el => yield (parseCustomItem env url selectors el))
              (page (sel_container selectors)))
      by congruence.
    apply kept_titles, flat_map_yield_kept. }
Qed.

(* ====================================================================== *)
(** * Properties: state, exceptions and the store *)
(* ====================================================================== *)

Section MonadFacts.

Context {St : Type}.

Lemma bind_ok {A B} (m : M St A) (k : A -> M St B) s b s' :
  bind m k s = (Ok b, s') ->
  exists a s1, m s = (Ok a, s1) /\ k a s1 = (Ok b, s').
Proof.
  unfold bind. destruct (m s) as [[a|e] s1]; intros H.
  - exists a, s1. split; [reflexivity|exact H].
  - discriminate H.
Qed.

Lemma bind_step {A B} (m : M St A) (k : A -> M St B) s a s1 :
  m s = (Ok a, s1) -> bind m k s = k a s1.
Proof. unfold bind. now intros ->. Qed.

Lemma bind_fail {A B} (m : M St A) (k : A -> M St B) s e s1 :
  m s = (Throw e, s1) -> bind m k s = (Throw e, s1).
Proof. unfold bind. now intros ->. Qed.

Lemma rethrow_eq {A} (m : M St A) s : rethrow m s = m s.
Proof.
  unfold rethrow, try_catch, throw.
  destruct (m s) as [[a|e] s1]; reflexivity.
Qed.

(** ** Relations that hold whatever the outcome *)

Variable R : St -> St -> Prop.
Hypothesis R_refl : forall s, R s s.
Hypothesis R_trans : forall s1 s2 s3, R s1 s2 -> R s2 s3 -> R s1 s3.

Lemma always_ret {A} (a : A) : always R (ret a).
Proof. intros s. apply R_refl. Qed.

Lemma always_throw {A} (e : string) : always R (@throw St A e).
Proof. intros s. apply R_refl. Qed.

Lemma always_bind {A B} (m : M St A) (k : A -> M St B) :
  always R m -> (forall a, always R (k a)) -> always R (bind m k).
Proof.
  intros Hm Hk s. unfold bind. specialize (Hm s).
  destruct (m s) as [[a|e] s1]; simpl in *.
  - eapply R_trans; [exact Hm|apply Hk].
  - exact Hm.
Qed.

Lemma always_try_catch {A} (m : M St A) (h : string -> M St A) :
  always R m -> (forall e, always R (h e)) -> always R (try_catch m h).
Proof.
  intros Hm Hh s. unfold try_catch. specialize (Hm s).
  destruct (m s) as [[a|e] s1]; simpl in *.
  - exact Hm.
  - eapply R_trans; [exact Hm|apply Hh].
Qed.

Lemma always_rethrow {A} (m : M St A) : always R m -> always R (rethrow m).
Proof. intros Hm s. rewrite rethrow_eq. apply Hm. Qed.

Lemma always_firstRow (rows : list nat) : always R (firstRow (S:=St) rows).
Proof. destruct rows; [apply always_throw|apply always_ret]. Qed.

End MonadFacts.

Section TotalFacts.

Context {St : Type}.

Lemma total_ret {A} (a : A) : total (@ret St A a).
Proof. intros s. now exists a. Qed.

Lemma total_bind {A B} (m : M St A) (k : A -> M St B) :
  total m -> (forall a, total (k a)) -> total (bind m k).
Proof.
  intros Hm Hk s. unfold bind. destruct (Hm s) as [a Ha].
  destruct (m s) as [[a'|e] s1]; simpl in Ha; [|discriminate Ha].
  apply Hk.
Qed.

Lemma total_catch {A} (m : M St A) (h : string -> M St A) :
  (forall e, total (h e)) -> total (try_catch m h).
Proof.
  intros Hh s. unfold try_catch.
  destruct (m s) as [[a|e] s1]; [now exists a|apply Hh].
Qed.

Lemma total_rethrow {A} (m : M St A) : total m -> total (rethrow m).
Proof. intros Hm s. rewrite rethrow_eq. apply Hm. Qed.

End TotalFacts.

Section StoreFacts.

Variable env : Env.

Lemma current_set_current (d : Store.DB) (w : World) :
  current (set_current d w) = d.
Proof. unfold current, set_current. destruct (txn w); reflexivity. Qed.

Lemma current_record (e : Event) (w : World) :
  current (record e w) = current w.
Proof. reflexivity. Qed.

Lemma after_stmt_data (q : Store.Stmt) (w : World) :
  is_data q = true ->
  after_stmt q w = set_current (fst (Store.exec (clock w) q (current w))) w.
Proof. destruct q; simpl; intros H; try reflexivity; discriminate H. Qed.

Lemma control_not_blocked (q : Store.Stmt) (w : World) :
  is_control q = true -> blocked q w = false.
Proof. unfold blocked. intros ->. apply andb_false_r. Qed.

Lemma live_not_blocked (q : Store.Stmt) (w : World) :
  aborted w = false -> blocked q w = false.
Proof. unfold blocked. now intros ->. Qed.

Lemma aborted_record (e : Event) (w : World) :
  aborted (record e w) = aborted w.
Proof. reflexivity. Qed.

Lemma aborted_set_current (d : Store.DB) (w : World) :
  aborted (set_current d w) = aborted w.
Proof. unfold aborted, set_current. destruct (txn w); reflexivity. Qed.

Lemma durable_fail_stmt (w : World) : durable (fail_stmt w) = durable w.
Proof. unfold fail_stmt. destruct (txn w); reflexivity. Qed.

Lemma txn_fail_stmt (w : World) : txn (fail_stmt w) = txn w.
Proof. unfold fail_stmt. destruct (txn w) eqn:E; simpl; auto. Qed.

Lemma current_fail_stmt (w : World) : current (fail_stmt w) = current w.
Proof.
  unfold current. now rewrite txn_fail_stmt, durable_fail_stmt.
Qed.

Lemma trace_fail_stmt (w : World) : trace (fail_stmt w) = trace w.
Proof. unfold fail_stmt. destruct (txn w); reflexivity. Qed.

Lemma clock_fail_stmt (w : World) : clock (fail_stmt w) = clock w.
Proof. unfold fail_stmt. destruct (txn w); reflexivity. Qed.

Lemma clientQuery_ok (q : Store.Stmt) (w w' : World) (rows : list nat) :
  clientQuery env q w = (Ok rows, w') ->
  rejects env q (current w) = None
  /\ rows = snd (Store.exec (clock w) q (current w))
  /\ w' = record (EvSql q true) (after_stmt q w).
Proof.
  unfold clientQuery. destruct (blocked q w); [discriminate|].
  destruct (rejects env q (current w)); intros H.
  - discriminate H.
  - injection H as <- <-. auto.
Qed.

Lemma clientQuery_ok_live (q : Store.Stmt) (w w' : World)
    (rows : list nat) :
  clientQuery env q w = (Ok rows, w') -> blocked q w = false.
Proof.
  unfold clientQuery. destruct (blocked q w); [discriminate|reflexivity].
Qed.

Lemma clientQuery_data_ok (q : Store.Stmt) (w w' : World) (rows : list nat) :
  is_data q = true ->
  clientQuery env q w = (Ok rows, w') ->
  rows = snd (Store.exec (clock w) q (current w))
  /\ current w' = fst (Store.exec (clock w) q (current w)).
Proof.
  intros Hd H. apply clientQuery_ok in H as (_ & Hr & ->).
  split; [exact Hr|].
  rewrite current_record, after_stmt_data by exact Hd.
  apply current_set_current.
Qed.

Lemma clientQuery_accepted (q : Store.Stmt) (w : World) :
  blocked q w = false ->
  rejects env q (current w) = None ->
  clientQuery env q w
  = (Ok (snd (Store.exec (clock w) q (current w))),
     record (EvSql q true) (after_stmt q w)).
Proof. unfold clientQuery. now intros -> ->. Qed.

Lemma clientQuery_refused (q : Store.Stmt) (w : World) (m : string) :
  blocked q w = false ->
  rejects env q (current w) = Some m ->
  clientQuery env q w = (Throw m, record (EvSql q false) (fail_stmt w)).
Proof. unfold clientQuery. now intros -> ->. Qed.

Lemma clientQuery_blocked (q : Store.Stmt) (w : World) :
  blocked q w = true ->
  clientQuery env q w
  = (Throw IN_FAILED_TRANSACTION, record (EvSql q false) w).
Proof. unfold clientQuery. now intros ->. Qed.

Lemma clientQuery_always (R : World -> World -> Prop) (q : Store.Stmt) :
  (forall w, R w (record (EvSql q false) w)) ->
  (forall w, R w (record (EvSql q false) (fail_stmt w))) ->
  (forall w, R w (record (EvSql q true) (after_stmt q w))) ->
  always R (clientQuery env q).
Proof.
  intros Hblk Hrej Hacc w. unfold clientQuery.
  destruct (blocked q w); simpl; [apply Hblk|].
  destruct (rejects env q (current w)); simpl; [apply Hrej|apply Hacc].
Qed.

End StoreFacts.

(* ====================================================================== *)
(** * Properties: updating a matched book *)
(* ====================================================================== *)

Lemma update_row_merged (t : nat) (book : ScrapedBook) (r : Store.BookRow) :
  merged t book r
    (Store.update_row t (subtitle book) (publisher book) (pages book)
       (description book) (cover_image_url book) (isbn book) r).
Proof.
  unfold merged, kept_or_set, Store.update_row, Store.coalesce; simpl.
  repeat split;
    [destruct (subtitle book)|destruct (publisher book)|destruct (pages book)
    |destruct (description book)|destruct (cover_image_url book)
    |destruct (isbn book)]; reflexivity.
Qed.

Lemma merged_never_erased (t : nat) (book : ScrapedBook)
    (r r' : Store.BookRow) :
  merged t book r r' -> never_erased r r'.
Proof.
  unfold merged, never_erased, kept_or_set.
  intros (H1 & H2 & H3 & H4 & H5 & H6 & _).
  repeat split;
    [destruct (subtitle book)|destruct (publisher book)|destruct (pages book)
    |destruct (description book)|destruct (cover_image_url book)
    |destruct (isbn book)]; congruence.
Qed.

(** C4.  When the update of step 2A goes through, the [books] table keeps
    its rows in place; a row with another id is untouched; in the row with
    the matched id each of subtitle, publisher, pages, description,
    cover_image_url and isbn takes the candidate's value if the candidate
    has one and keeps the stored value otherwise (so no stored value is
    replaced by null), [last_updated] becomes the current timestamp, and
    title, publication_year, language, source_id, source_url, pdf_url,
    download_url, scraped_at and the id stay as they were. *)
Theorem updateBook_merges (env : Env) (id : nat) (book : ScrapedBook)
    (w w' : World) :
  updateBook env id book w = (Ok tt, w') ->
  Forall2
    (fun r r' =>
       if Store.book_id r =? id
       then merged (clock w) book r r' /\ never_erased r r'
       else r' = r)
    (Store.books (current w)) (Store.books (current w')).
Proof.
  unfold updateBook. intros H.
  apply bind_ok in H as (rows & w1 & Hq & Hret).
  injection Hret as <-.
  apply clientQuery_data_ok in Hq as [_ Hcur]; [|reflexivity].
  rewrite Hcur. simpl.
  induction (Store.books (current w)) as [|r l IH]; simpl; constructor.
  - destruct (Store.book_id r =? id).
    + split; [apply update_row_merged|].
      eapply merged_never_erased, update_row_merged.
    + reflexivity.
  - exact IH.
Qed.

(* ====================================================================== *)
(** * Properties: the lookup of an existing book *)
(* ====================================================================== *)

Section LookupFacts.

Variable env : Env.

Lemma hd_map_filter {A B} (f : A -> B) (p : A -> bool) (l : list A) :
  hd_error (map f (filter p l)) = option_map f (find p l).
Proof.
  induction l as [|x l IH]; simpl; [reflexivity|].
  destruct (p x); simpl; [reflexivity|exact IH].
Qed.

Lemma findExisting_ok (book : ScrapedBook) (w w' : World)
    (r : option nat) :
  findExisting env book w = (Ok r, w') ->
  r = spec_findBookId book (Store.books (current w))
  /\ current w' = current w.
Proof.
  unfold findExisting. intros H.
  apply bind_ok in H as (e1 & w1 & H1 & H).
  apply bind_ok in H as (e2 & w2 & H2 & H3).
  assert (S1 : e1 = spec_by_isbn book (Store.books (current w))
               /\ current w1 = current w).
  { unfold spec_by_isbn. destruct (isbn book) as [i|]; simpl in H1.
    - destruct (Text.nonempty i).
      + apply bind_ok in H1 as (rows & w0 & Hq & Hr).
        injection Hr as <- <-.
        apply clientQuery_data_ok in Hq as [-> ->]; [|reflexivity].
        simpl. split; [apply hd_map_filter|reflexivity].
      + injection H1 as <- <-. auto.
    - injection H1 as <- <-. auto. }
  destruct S1 as [-> C1].
  assert (S2 : e2 = first_some (spec_by_isbn book (Store.books (current w)))
                      (spec_by_title_year book (Store.books (current w)))
               /\ current w2 = current w).
  { unfold spec_by_title_year.
    destruct (spec_by_isbn book (Store.books (current w))) as [x|]; simpl.
    - injection H2 as <- <-. auto.
    - destruct (publication_year book) as [y|].
      + simpl in H2.
        destruct (Text.nonempty (title book) && negb (y =? 0)%Z).
        * apply bind_ok in H2 as (rows & w0 & Hq & Hr).
          injection Hr as <- <-.
          apply clientQuery_data_ok in Hq as [-> ->]; [|reflexivity].
          simpl. rewrite C1. split; [apply hd_map_filter|reflexivity].
        * injection H2 as <- <-. auto.
      + injection H2 as <- <-. auto. }
  destruct S2 as [-> C2].
  unfold spec_findBookId.
  destruct (spec_by_isbn book (Store.books (current w))) as [x|]; simpl in *.
  { injection H3 as <- <-. auto. }
  destruct (spec_by_title_year book (Store.books (current w))) as [x|];
    simpl in *.
  { injection H3 as <- <-. auto. }
  unfold spec_by_title.
  destruct (Text.nonempty (title book)).
  - apply bind_ok in H3 as (rows & w0 & Hq & Hr).
    injection Hr as <- <-.
    apply clientQuery_data_ok in Hq as [-> ->]; [|reflexivity].
    simpl. rewrite C2. split; [apply hd_map_filter|reflexivity].
  - injection H3 as <- <-. auto.
Qed.

End LookupFacts.

(* ====================================================================== *)
(** * Properties: the linking loops as functions of the database *)
(* ====================================================================== *)

Section LinkReflection.

Variable env : Env.

Lemma getOrCreateAuthor_ok (n : string) (w w' : World) (a : nat) :
  getOrCreateAuthor env n w = (Ok a, w') ->
  (current w', a) = goc_author n (current w).
Proof.
  unfold getOrCreateAuthor. rewrite rethrow_eq. intros H.
  apply bind_ok in H as (rows & w1 & Hq & H).
  apply clientQuery_data_ok in Hq as [Hrows Hc1]; [|reflexivity].
  simpl in Hrows, Hc1. unfold goc_author, lookup_name. rewrite <- Hrows.
  destruct rows as [|id rows]; simpl.
  - apply bind_ok in H as (rows2 & w2 & Hq2 & H).
    apply clientQuery_data_ok in Hq2 as [Hrows2 Hc2]; [|reflexivity].
    simpl in Hrows2, Hc2. rewrite Hc1 in Hc2. subst rows2.
    injection H as <- <-. now rewrite Hc2, Hc1.
  - injection H as <- <-. now rewrite Hc1.
Qed.

Lemma getOrCreateCategory_ok (n : string) (w w' : World) (c : nat) :
  getOrCreateCategory env n w = (Ok c, w') ->
  (current w', c) = goc_category n (current w).
Proof.
  unfold getOrCreateCategory. rewrite rethrow_eq. intros H.
  apply bind_ok in H as (rows & w1 & Hq & H).
  apply clientQuery_data_ok in Hq as [Hrows Hc1]; [|reflexivity].
  simpl in Hrows, Hc1. unfold goc_category, lookup_name. rewrite <- Hrows.
  destruct rows as [|id rows]; simpl.
  - apply bind_ok in H as (rows2 & w2 & Hq2 & H).
    apply clientQuery_data_ok in Hq2 as [Hrows2 Hc2]; [|reflexivity].
    simpl in Hrows2, Hc2. rewrite Hc1 in Hc2. subst rows2.
    injection H as <- <-. now rewrite Hc2, Hc1.
  - injection H as <- <-. now rewrite Hc1.
Qed.

Lemma linkAuthorsFrom_ok (bookId : nat) (names : list string) :
  forall (i : nat) (w w' : World),
    linkAuthorsFrom env bookId i names w = (Ok tt, w') ->
    current w' = link_authors_db bookId i names (current w).
Proof.
  induction names as [|n rest IH]; intros i w w' H; simpl in H.
  - injection H as <-. reflexivity.
  - apply bind_ok in H as ([] & w1 & H1 & H2).
    apply IH in H2. rewrite H2. simpl. f_equal.
    destruct (nonblank n).
    + apply bind_ok in H1 as (a & w2 & Ha & H1).
      apply bind_ok in H1 as (rows & w3 & Hq & H1).
      injection H1 as <-.
      apply getOrCreateAuthor_ok in Ha.
      apply clientQuery_data_ok in Hq as [_ Hc]; [|reflexivity].
      rewrite Hc. simpl. rewrite <- Ha. reflexivity.
    + injection H1 as <-. reflexivity.
Qed.

Lemma relinkAuthors_ok (bookId : nat) (names : list string) (w w' : World) :
  relinkAuthors env bookId names w = (Ok tt, w') ->
  current w' = relink_authors_db bookId names (current w).
Proof.
  unfold relinkAuthors, relink_authors_db. intros H.
  apply bind_ok in H as (rows & w1 & Hq & H).
  apply clientQuery_data_ok in Hq as [_ Hc]; [|reflexivity].
  apply linkAuthorsFrom_ok in H. rewrite H, Hc. reflexivity.
Qed.

Lemma relinkCategories_ok (bookId : nat) (names : list string) :
  forall (w w' : World),
    relinkCategories env bookId names w = (Ok tt, w') ->
    current w' = link_categories_db bookId names (current w).
Proof.
  induction names as [|n rest IH]; intros w w' H; simpl in H.
  - injection H as <-. reflexivity.
  - apply bind_ok in H as ([] & w1 & H1 & H2).
    apply IH in H2. rewrite H2. simpl. f_equal.
    destruct (nonblank n).
    + apply bind_ok in H1 as (c & w2 & Hc & H1).
      apply bind_ok in H1 as (rows & w3 & Hq & H1).
      injection H1 as <-.
      apply getOrCreateCategory_ok in Hc.
      apply clientQuery_data_ok in Hq as [_ Hcur]; [|reflexivity].
      rewrite Hcur. simpl. rewrite <- Hc. reflexivity.
    + injection H1 as <-. reflexivity.
Qed.

End LinkReflection.

(* ====================================================================== *)
(** * Properties: names and ids *)
(* ====================================================================== *)

Section NameFacts.

Lemma hd_error_app_some {A} (l1 l2 : list A) (a : A) :
  hd_error l1 = Some a -> hd_error (l1 ++ l2) = Some a.
Proof. destruct l1; simpl; [discriminate|auto]. Qed.

Lemma lookup_name_app (n : string) (t x : list Store.NamedRow) (a : nat) :
  lookup_name n t = Some a -> lookup_name n (t ++ x) = Some a.
Proof.
  unfold lookup_name. rewrite filter_app, map_app.
  apply hd_error_app_some.
Qed.

Lemma lookup_name_none (n : string) (t : list Store.NamedRow) :
  lookup_name n t = None ->
  filter (fun r => String.eqb (Store.row_name r) n) t = [].
Proof.
  unfold lookup_name.
  destruct (filter _ t); simpl; [reflexivity|discriminate].
Qed.

Lemma lookup_name_fresh (n : string) (t : list Store.NamedRow) (id : nat) :
  lookup_name n t = None ->
  lookup_name n (t ++ [Store.mkNamedRow id n]) = Some id.
Proof.
  intros H. unfold lookup_name. rewrite filter_app.
  rewrite (lookup_name_none _ _ H). simpl.
  now rewrite String.eqb_refl.
Qed.

Lemma goc_author_spec (n : string) (d : Store.DB) :
  lookup_name n (Store.authors_tbl (fst (goc_author n d)))
  = Some (snd (goc_author n d))
  /\ (exists extra,
        Store.authors_tbl (fst (goc_author n d))
        = Store.authors_tbl d ++ extra)
  /\ Store.book_authors (fst (goc_author n d)) = Store.book_authors d.
Proof.
  unfold goc_author.
  destruct (lookup_name n (Store.authors_tbl d)) as [id|] eqn:E; simpl.
  - split; [exact E|]. split; [|reflexivity].
    exists []. now rewrite app_nil_r.
  - split; [now apply lookup_name_fresh|]. split; [|reflexivity].
    eexists. reflexivity.
Qed.

Lemma goc_author_found (n : string) (d : Store.DB) (a : nat) :
  lookup_name n (Store.authors_tbl d) = Some a -> goc_author n d = (d, a).
Proof. unfold goc_author. now intros ->. Qed.

Lemma goc_category_spec (n : string) (d : Store.DB) :
  lookup_name n (Store.categories_tbl (fst (goc_category n d)))
  = Some (snd (goc_category n d))
  /\ (exists extra,
        Store.categories_tbl (fst (goc_category n d))
        = Store.categories_tbl d ++ extra)
  /\ Store.book_categories (fst (goc_category n d)) = Store.book_categories d.
Proof.
  unfold goc_category.
  destruct (lookup_name n (Store.categories_tbl d)) as [id|] eqn:E; simpl.
  - split; [exact E|]. split; [|reflexivity].
    exists []. now rewrite app_nil_r.
  - split; [now apply lookup_name_fresh|]. split; [|reflexivity].
    eexists. reflexivity.
Qed.

Lemma goc_category_found (n : string) (d : Store.DB) (c : nat) :
  lookup_name n (Store.categories_tbl d) = Some c ->
  goc_category n d = (d, c).
Proof. unfold goc_category. now intros ->. Qed.

Lemma set_book_authors_same (d : Store.DB) :
  Store.set_book_authors d (Store.book_authors d) = d.
Proof. destruct d; reflexivity. Qed.

Lemma set_book_authors_twice (d : Store.DB) (x y : list Store.BookAuthorRow) :
  Store.set_book_authors (Store.set_book_authors d x) y
  = Store.set_book_authors d y.
Proof. reflexivity. Qed.

Lemma set_book_categories_same (d : Store.DB) :
  Store.set_book_categories d (Store.book_categories d) = d.
Proof. destruct d; reflexivity. Qed.

Lemma link_authors_extends (bookId : nat) (names : list string) :
  forall i d, exists extra,
    Store.authors_tbl (link_authors_db bookId i names d)
    = Store.authors_tbl d ++ extra.
Proof.
  induction names as [|n rest IH]; intros i d; simpl.
  - exists []. now rewrite app_nil_r.
  - destruct (nonblank n).
    + destruct (IH (S i)
                  (Store.set_book_authors (fst (goc_author (Text.trim n) d))
                     (Store.upsert_book_author bookId
                        (snd (goc_author (Text.trim n) d)) (i + 1)
                        (Store.book_authors
                           (fst (goc_author (Text.trim n) d))))))
        as [x Hx].
      destruct (goc_author_spec (Text.trim n) d) as (_ & [y Hy] & _).
      exists (y ++ x). rewrite Hx. simpl. rewrite Hy.
      now rewrite app_assoc.
    + apply IH.
Qed.

Lemma named_positions_ext (d1 d2 : Store.DB) (names : list string) :
  Store.authors_tbl d1 = Store.authors_tbl d2 ->
  forall i, named_positions d1 i names = named_positions d2 i names.
Proof.
  intros E. induction names as [|n rest IH]; intros i; simpl;
    [reflexivity|].
  unfold author_of. now rewrite E, IH.
Qed.

(** The loop upserts the named positions, read off the final authors. *)
Lemma link_authors_upserts (bookId : nat) (names : list string) :
  forall i d,
    Store.book_authors (link_authors_db bookId i names d)
    = upsert_all bookId
        (named_positions (link_authors_db bookId i names d) i names)
        (Store.book_authors d).
Proof.
  induction names as [|n rest IH]; intros i d; [reflexivity|].
  cbn [link_authors_db named_positions].
  destruct (nonblank n) eqn:Hn.
  - set (r := goc_author (Text.trim n) d).
    set (d2 := Store.set_book_authors (fst r)
                 (Store.upsert_book_author bookId (snd r) (i + 1)
                    (Store.book_authors (fst r)))).
    destruct (goc_author_spec (Text.trim n) d) as (Hl & _ & Hba).
    fold r in Hl, Hba.
    destruct (link_authors_extends bookId rest (S i) d2) as [x Hx].
    assert (Ha : author_of (link_authors_db bookId (S i) rest d2) n
                 = Some (snd r)).
    { unfold author_of. rewrite Hx. apply lookup_name_app. exact Hl. }
    rewrite Ha. rewrite IH. unfold upsert_all. simpl.
    now rewrite Hba.
  - simpl. apply IH.
Qed.

(** Every non-blank name denotes an author once the loop is over. *)
Lemma link_authors_resolves (bookId : nat) (names : list string) :
  forall i d n,
    In n names -> nonblank n = true ->
    author_of (link_authors_db bookId i names d) n <> None.
Proof.
  induction names as [|m rest IH]; intros i d n Hin Hn; [destruct Hin|].
  cbn [link_authors_db]. destruct Hin as [->|Hin].
  - rewrite Hn.
    set (r := goc_author (Text.trim n) d).
    set (d2 := Store.set_book_authors (fst r)
                 (Store.upsert_book_author bookId (snd r) (i + 1)
                    (Store.book_authors (fst r)))).
    destruct (goc_author_spec (Text.trim n) d) as (Hl & _ & _).
    fold r in Hl.
    destruct (link_authors_extends bookId rest (S i) d2) as [x Hx].
    unfold author_of. rewrite Hx.
    erewrite lookup_name_app; [discriminate|exact Hl].
  - apply IH; assumption.
Qed.

(** When every non-blank name already denotes an author, the loop leaves
    the authors alone. *)
Lemma link_authors_known (bookId : nat) (names : list string) :
  forall i d,
    (forall n, In n names -> nonblank n = true -> author_of d n <> None) ->
    link_authors_db bookId i names d
    = Store.set_book_authors d
        (upsert_all bookId (named_positions d i names)
           (Store.book_authors d)).
Proof.
  induction names as [|n rest IH]; intros i d H.
  - simpl. symmetry. apply set_book_authors_same.
  - cbn [link_authors_db named_positions].
    destruct (nonblank n) eqn:Hn.
    + destruct (author_of d n) as [a|] eqn:Ha.
      2:{ exfalso. apply (H n); [now left|exact Hn|exact Ha]. }
      rewrite (goc_author_found _ _ Ha). cbn [fst snd].
      rewrite IH.
      * rewrite set_book_authors_twice.
        rewrite (named_positions_ext
                   (Store.set_book_authors d
                      (Store.upsert_book_author bookId a (i + 1)
                         (Store.book_authors d))) d rest eq_refl).
        reflexivity.
      * intros m Hm Hb. apply (H m); [now right|exact Hb].
    + simpl. apply IH. intros m Hm Hb. apply (H m); [now right|exact Hb].
Qed.

End NameFacts.

(* ====================================================================== *)
(** * Properties: upserts into [book_authors] *)
(* ====================================================================== *)

Section UpsertFacts.

Variable b : nat.

Lemma key_of_other (a : nat) (r : Store.BookAuthorRow) :
  Store.ba_book r <> b -> Store.ba_key b a r = false.
Proof.
  intros H. unfold Store.ba_key.
  destruct (Store.ba_book r =? b) eqn:E; [|reflexivity].
  apply Nat.eqb_eq in E. contradiction.
Qed.

Lemma key_in_book (a : nat) (r : Store.BookAuthorRow) :
  Store.ba_book r = b -> Store.ba_key b a r = (Store.ba_author r =? a).
Proof. intros H. unfold Store.ba_key. now rewrite H, Nat.eqb_refl. Qed.

Lemma existsb_others (a : nat) (T0 : list Store.BookAuthorRow) :
  Forall (fun r => Store.ba_book r <> b) T0 ->
  existsb (Store.ba_key b a) T0 = false.
Proof.
  induction 1 as [|r l Hr _ IH]; simpl; [reflexivity|].
  now rewrite (key_of_other a r Hr), IH.
Qed.

Lemma map_others (a : nat) (x : Store.BookAuthorRow)
    (T0 : list Store.BookAuthorRow) :
  Forall (fun r => Store.ba_book r <> b) T0 ->
  map (fun r => if Store.ba_key b a r then x else r) T0 = T0.
Proof.
  induction 1 as [|r l Hr _ IH]; simpl; [reflexivity|].
  now rewrite (key_of_other a r Hr), IH.
Qed.

Lemma upsert_app (a pos : nat) (T0 F : list Store.BookAuthorRow) :
  Forall (fun r => Store.ba_book r <> b) T0 ->
  Store.upsert_book_author b a pos (T0 ++ F) = T0 ++ Store.upsert_book_author b a pos F.
Proof.
  intros H. unfold Store.upsert_book_author.
  rewrite existsb_app, (existsb_others a H). simpl.
  destruct (existsb (Store.ba_key b a) F).
  - now rewrite map_app, (map_others a _ H).
  - now rewrite app_assoc.
Qed.

Lemma author_listed (a : nat) (F : list Store.BookAuthorRow) :
  Forall (fun r => Store.ba_book r = b) F ->
  existsb (Store.ba_key b a) F = true <-> In a (map Store.ba_author F).
Proof.
  intros H. rewrite existsb_exists, in_map_iff. rewrite Forall_forall in H.
  split; intros (r & H1 & H2).
  - exists r. rewrite (key_in_book a r (H r H1)) in H2.
    apply Nat.eqb_eq in H2. auto.
  - exists r. split; [exact H2|].
    rewrite (key_in_book a r (H r H2)). now apply Nat.eqb_eq.
Qed.

Lemma upsert_step (a pos : nat) (F : list Store.BookAuthorRow) :
  one_per_author b F ->
  one_per_author b (Store.upsert_book_author b a pos F)
  /\ forall a' pos',
       In (Store.mkBookAuthorRow b a' pos') (Store.upsert_book_author b a pos F)
       <-> (a' = a /\ pos' = pos) \/ (a' <> a /\ In (Store.mkBookAuthorRow b a' pos') F).
Proof.
  intros [HB HN]. pose proof (author_listed a HB) as HL.
  unfold Store.upsert_book_author.
  destruct (existsb (Store.ba_key b a) F) eqn:E.
  - assert (HA : map Store.ba_author
                   (map (fun r => if Store.ba_key b a r
                                  then Store.mkBookAuthorRow b a pos else r) F)
                 = map Store.ba_author F).
    { rewrite map_map. apply map_ext_in. intros r Hr.
      rewrite Forall_forall in HB.
      rewrite (key_in_book a r (HB r Hr)).
      destruct (Store.ba_author r =? a) eqn:Er; [|reflexivity].
      apply Nat.eqb_eq in Er. now rewrite Er. }
    split; [split|].
    + rewrite Forall_forall in *. intros r' Hr'.
      apply in_map_iff in Hr' as (r & <- & Hr).
      destruct (Store.ba_key b a r); [reflexivity|now apply HB].
    + now rewrite HA.
    + intros a' pos'. rewrite in_map_iff. rewrite Forall_forall in HB.
      split.
      * intros (r & Hg & Hr).
        rewrite (key_in_book a r (HB r Hr)) in Hg.
        destruct (Store.ba_author r =? a) eqn:Er.
        -- left. injection Hg as <- <-. auto.
        -- right. subst r. simpl in Er. apply Nat.eqb_neq in Er. auto.
      * intros [[-> ->]|[Hne Hin]].
        -- apply existsb_exists in E as (r & Hr & Hk).
           exists r. now rewrite Hk.
        -- exists (Store.mkBookAuthorRow b a' pos'). split; [|exact Hin].
           rewrite (key_in_book a _ (HB _ Hin)). simpl.
           apply Nat.eqb_neq in Hne. now rewrite Hne.
  - assert (Hnot : ~ In a (map Store.ba_author F)).
    { intros Hin. apply HL in Hin. discriminate Hin. }
    split; [split|].
    + apply Forall_app. split; [exact HB|]. repeat constructor.
    + rewrite map_app. simpl. apply NoDup_app.
      * exact HN.
      * repeat constructor. intros [].
      * intros x Hx [<-|[]]. contradiction.
    + intros a' pos'. rewrite in_app_iff. simpl. split.
      * intros [Hin|[Heq|[]]].
        -- right. split; [|exact Hin]. intros ->. apply Hnot.
           apply in_map_iff. exists (Store.mkBookAuthorRow b a pos'). auto.
        -- left. injection Heq as <- <-. auto.
      * intros [[-> ->]|[_ Hin]]; auto.
Qed.

Lemma upsert_all_spec (ps : list (nat * nat)) :
  forall T0 F,
    Forall (fun r => Store.ba_book r <> b) T0 ->
    one_per_author b F ->
    exists F',
      upsert_all b ps (T0 ++ F) = T0 ++ F'
      /\ one_per_author b F'
      /\ forall a pos,
           In (Store.mkBookAuthorRow b a pos) F'
           <-> last_position ps a = Some pos
               \/ (last_position ps a = None /\ In (Store.mkBookAuthorRow b a pos) F).
Proof.
  induction ps as [|[k v] rest IH]; intros T0 F HT HF.
  - exists F. split; [reflexivity|]. split; [exact HF|].
    intros a pos. simpl. split; [auto|].
    intros [H|[_ H]]; [discriminate H|exact H].
  - unfold upsert_all. simpl. rewrite (upsert_app k v F HT).
    destruct (upsert_step k v HF) as [HF1 Hin1].
    destruct (IH T0 (Store.upsert_book_author b k v F) HT HF1) as (F' & E & HF' & Hin).
    exists F'. split; [exact E|]. split; [exact HF'|].
    intros a pos. rewrite Hin, Hin1. cbn [last_position].
    destruct (last_position rest a) as [p|]; [intuition discriminate|].
    destruct (k =? a) eqn:Ek.
    + apply Nat.eqb_eq in Ek. subst k. split.
      * intros [H|[_ [[_ ->]|[Hne _]]]];
          [discriminate H|now left|contradiction].
      * intros [H|[H _]]; [|discriminate H].
        injection H as <-. right. split; [reflexivity|]. now left.
    + apply Nat.eqb_neq in Ek. split.
      * intros [H|[_ [[-> _]|[_ H]]]];
          [discriminate H|contradiction|auto].
      * intros [H|[_ H]]; [discriminate H|].
        right. split; [reflexivity|]. right. split; [congruence|exact H].
Qed.

(** When no author comes twice, every pair is appended as a row of its
    own. *)
Lemma upsert_all_distinct (ps : list (nat * nat)) :
  forall T0 F,
    Forall (fun r => Store.ba_book r <> b) T0 ->
    Forall (fun r => Store.ba_book r = b) F ->
    NoDup (map fst ps) ->
    (forall p, In p ps -> ~ In (fst p) (map Store.ba_author F)) ->
    upsert_all b ps (T0 ++ F)
    = T0 ++ F ++ map (fun p => Store.mkBookAuthorRow b (fst p) (snd p)) ps.
Proof.
  induction ps as [|[k v] rest IH]; intros T0 F HT HF HN Hfresh.
  - simpl. now rewrite app_nil_r.
  - unfold upsert_all. simpl. rewrite (upsert_app k v F HT).
    assert (E : Store.upsert_book_author b k v F = F ++ [Store.mkBookAuthorRow b k v]).
    { unfold Store.upsert_book_author.
      destruct (existsb (Store.ba_key b k) F) eqn:Ex; [|reflexivity].
      apply (author_listed k HF) in Ex.
      exfalso. apply (Hfresh (k, v)); [now left|exact Ex]. }
    rewrite E. simpl in HN. apply NoDup_cons_iff in HN as [Hk HN].
    fold (upsert_all b rest (T0 ++ F ++ [Store.mkBookAuthorRow b k v])).
    rewrite IH.
    + now rewrite <- app_assoc.
    + exact HT.
    + apply Forall_app. split; [exact HF|]. repeat constructor.
    + exact HN.
    + intros p Hp. rewrite map_app, in_app_iff. simpl.
      intros [H|[H|[]]].
      * apply (Hfresh p); [now right|exact H].
      * apply Hk. rewrite H. now apply in_map.
Qed.

End UpsertFacts.

(* ====================================================================== *)
(** * Properties: relinking the authors of a book *)
(* ====================================================================== *)

Section RelinkAuthorsFacts.

Lemma others_are_others (b : nat) (d : Store.DB) :
  Forall (fun r => Store.ba_book r <> b) (links_of_others b d).
Proof.
  apply Forall_forall. intros r Hr. unfold links_of_others in Hr.
  apply filter_In in Hr as [_ Hr]. apply negb_true_iff in Hr.
  now apply Nat.eqb_neq.
Qed.

Lemma filter_keep_others (b : nat) (T0 : list Store.BookAuthorRow) :
  Forall (fun r => Store.ba_book r <> b) T0 ->
  filter (fun r => negb (Store.ba_book r =? b)) T0 = T0.
Proof.
  induction 1 as [|r l Hr _ IH]; simpl; [reflexivity|].
  apply Nat.eqb_neq in Hr. now rewrite Hr, IH.
Qed.

Lemma filter_drop_own (b : nat) (F : list Store.BookAuthorRow) :
  Forall (fun r => Store.ba_book r = b) F ->
  filter (fun r => negb (Store.ba_book r =? b)) F = [].
Proof.
  induction 1 as [|r l Hr _ IH]; simpl; [reflexivity|].
  apply Nat.eqb_eq in Hr. now rewrite Hr.
Qed.

Lemma named_positions_In (d : Store.DB) (names : list string) :
  forall k a pos,
    In (a, pos) (named_positions d k names)
    <-> exists i n,
          nth_error names i = Some n /\ nonblank n = true
          /\ author_of d n = Some a /\ pos = k + i + 1.
Proof.
  induction names as [|m rest IH]; intros k a pos; simpl.
  - split; [intros []|]. intros ([|i] & n & H & _); discriminate H.
  - rewrite in_app_iff, IH. split.
    + intros [H|(i & n & H1 & H2 & H3 & H4)].
      * destruct (nonblank m) eqn:Hm; [|destruct H].
        destruct (author_of d m) as [a0|] eqn:Ha; [|destruct H].
        destruct H as [H|[]]. injection H as <- <-.
        exists 0, m. repeat split; auto; lia.
      * exists (S i), n. repeat split; auto; lia.
    + intros ([|i] & n & H1 & H2 & H3 & H4); simpl in H1.
      * injection H1 as ->. left. rewrite H2, H3. left. f_equal. lia.
      * right. exists i, n. repeat split; auto; lia.
Qed.

Lemma last_position_some (ps : list (nat * nat)) (a p : nat) :
  In (a, p) ps -> exists pos, last_position ps a = Some pos.
Proof.
  induction ps as [|[k v] rest IH]; intros H; [destruct H|].
  cbn [last_position].
  destruct (last_position rest a) as [q|] eqn:E; [now exists q|].
  destruct H as [H|H].
  - injection H as -> ->. rewrite Nat.eqb_refl. now exists p.
  - destruct (IH H) as [pos Hp]. discriminate Hp.
Qed.

Lemma relink_authors_shape (b : nat) (names : list string) (d : Store.DB) :
  Store.book_authors (relink_authors_db b names d)
  = upsert_all b (named_positions (relink_authors_db b names d) 0 names)
      (links_of_others b d ++ []).
Proof.
  unfold relink_authors_db. rewrite link_authors_upserts.
  simpl. now rewrite app_nil_r.
Qed.

Lemma relink_authors_twice (b : nat) (names : list string) (d : Store.DB) :
  relink_authors_db b names (relink_authors_db b names d)
  = relink_authors_db b names d.
Proof.
  set (d' := relink_authors_db b names d).
  pose proof (relink_authors_shape b names d) as A. fold d' in A.
  destruct (upsert_all_spec (named_positions d' 0 names)
              (others_are_others b d)
              (conj (Forall_nil _) (NoDup_nil _))) as (F' & E & [HB _] & _).
  assert (HO : filter (fun r => negb (Store.ba_book r =? b))
                 (Store.book_authors d') = links_of_others b d).
  { rewrite A, E, filter_app.
    rewrite (filter_keep_others (others_are_others b d)).
    rewrite (filter_drop_own HB). apply app_nil_r. }
  unfold relink_authors_db at 1. rewrite HO.
  rewrite link_authors_known.
  - rewrite set_book_authors_twice.
    rewrite (named_positions_ext
               (Store.set_book_authors d' (links_of_others b d)) d' names
               eq_refl).
    simpl. rewrite app_nil_r in A. rewrite <- A.
    apply set_book_authors_same.
  - intros n Hn Hb. unfold d', relink_authors_db.
    apply (link_authors_resolves b names 0 _ n Hn Hb).
Qed.

End RelinkAuthorsFacts.

Section LiveFacts.

Variable env : Env.
Hypothesis HA : accepts_all env.

Lemma runs_live_ret {St A} (pw : St -> World) (a : A) :
  runs_live pw (ret a).
Proof. intros s H. split; [now exists a|exact H]. Qed.

Lemma runs_live_bind {St A B} (pw : St -> World) (m : M St A)
    (k : A -> M St B) :
  runs_live pw m -> (forall a, runs_live pw (k a)) ->
  runs_live pw (bind m k).
Proof.
  intros Hm Hk s H. unfold bind.
  destruct (Hm s H) as ([a Ha] & L1).
  destruct (m s) as [[a'|e] s1]; cbn [fst snd] in *; [|discriminate Ha].
  apply (Hk a' s1 L1).
Qed.

Lemma runs_live_rethrow {St A} (pw : St -> World) (m : M St A) :
  runs_live pw m -> runs_live pw (rethrow m).
Proof. intros Hm s. rewrite rethrow_eq. apply Hm. Qed.

Lemma runs_live_query {A} (q : Store.Stmt) (k : list nat -> M World A) :
  is_data q = true ->
  (forall t d, runs_live (fun w => w) (k (snd (Store.exec t q d)))) ->
  runs_live (fun w => w) (bind (clientQuery env q) k).
Proof.
  intros Hq Hk w H.
  rewrite (bind_step _ _ _
             (clientQuery_accepted env q w (live_not_blocked q w H)
                (HA q _))).
  apply Hk. rewrite aborted_record.
  rewrite after_stmt_data by exact Hq. now rewrite aborted_set_current.
Qed.

Lemma runs_live_client (q : Store.Stmt) :
  is_data q = true -> runs_live (fun w => w) (clientQuery env q).
Proof.
  intros Hq w H.
  rewrite (clientQuery_accepted env q w (live_not_blocked q w H) (HA q _)).
  cbn [fst snd]. split; [eexists; reflexivity|].
  rewrite aborted_record.
  rewrite after_stmt_data by exact Hq. now rewrite aborted_set_current.
Qed.

Lemma findExisting_live (book : ScrapedBook) :
  runs_live (fun w => w) (findExisting env book).
Proof.
  unfold findExisting.
  apply runs_live_bind; [|intros e1; apply runs_live_bind].
  - destruct (Text.truthy (isbn book)); [|apply runs_live_ret].
    apply runs_live_query; [reflexivity|]. intros; apply runs_live_ret.
  - destruct e1; [apply runs_live_ret|].
    destruct (publication_year book) as [y|]; [|apply runs_live_ret].
    destruct (Text.nonempty (title book) && Text.truthyZ (Some y));
      [|apply runs_live_ret].
    apply runs_live_query; [reflexivity|]. intros; apply runs_live_ret.
  - intros [id|]; [apply runs_live_ret|].
    destruct (Text.nonempty (title book)); [|apply runs_live_ret].
    apply runs_live_query; [reflexivity|]. intros; apply runs_live_ret.
Qed.

Lemma updateBook_live (id : nat) (book : ScrapedBook) :
  runs_live (fun w => w) (updateBook env id book).
Proof.
  unfold updateBook. apply runs_live_query; [reflexivity|].
  intros; apply runs_live_ret.
Qed.

Lemma insertBook_live (book : ScrapedBook) (sid : nat) :
  runs_live (fun w => w) (insertBook env book sid).
Proof.
  unfold insertBook. apply runs_live_query; [reflexivity|].
  intros t d. simpl. apply runs_live_ret.
Qed.

Lemma getOrCreateAuthor_live (n : string) :
  runs_live (fun w => w) (getOrCreateAuthor env n).
Proof.
  unfold getOrCreateAuthor. apply runs_live_rethrow.
  apply runs_live_query; [reflexivity|]. intros t d.
  destruct (snd (Store.exec t (Store.SelectAuthorByName n) d));
    [|apply runs_live_ret].
  apply runs_live_query; [reflexivity|].
  intros t' d'. simpl. apply runs_live_ret.
Qed.

Lemma getOrCreateCategory_live (n : string) :
  runs_live (fun w => w) (getOrCreateCategory env n).
Proof.
  unfold getOrCreateCategory. apply runs_live_rethrow.
  apply runs_live_query; [reflexivity|]. intros t d.
  destruct (snd (Store.exec t (Store.SelectCategoryByName n) d));
    [|apply runs_live_ret].
  apply runs_live_query; [reflexivity|].
  intros t' d'. simpl. apply runs_live_ret.
Qed.

Lemma linkAuthorsFrom_live (b : nat) (names : list string) :
  forall i, runs_live (fun w => w) (linkAuthorsFrom env b i names).
Proof.
  induction names as [|n rest IH]; intros i; simpl;
    [apply runs_live_ret|].
  apply runs_live_bind; [|intros _; apply IH].
  destruct (nonblank n); [|apply runs_live_ret].
  apply runs_live_bind; [apply getOrCreateAuthor_live|].
  intros a. apply runs_live_query; [reflexivity|].
  intros; apply runs_live_ret.
Qed.

Lemma relinkAuthors_live (b : nat) (names : list string) :
  runs_live (fun w => w) (relinkAuthors env b names).
Proof.
  unfold relinkAuthors. apply runs_live_query; [reflexivity|].
  intros _ _. apply linkAuthorsFrom_live.
Qed.

Lemma relinkCategories_live (b : nat) (names : list string) :
  runs_live (fun w => w) (relinkCategories env b names).
Proof.
  induction names as [|n rest IH]; simpl; [apply runs_live_ret|].
  apply runs_live_bind; [|intros _; exact IH].
  destruct (nonblank n); [|apply runs_live_ret].
  apply runs_live_bind; [apply getOrCreateCategory_live|].
  intros c. apply runs_live_query; [reflexivity|].
  intros; apply runs_live_ret.
Qed.

End LiveFacts.

(** C5.  When relinking the authors of a book goes through: every earlier
    row of the book in [book_authors] is gone and the rows of other books
    are untouched; the book has new rows [fresh] instead, each for an
    author a non-blank name of the list denotes, with the 1-based index of
    that name.  There is one row per author, not one per name: an author
    who is named twice has a single row, at the index of the later name (in
    general author [a] has a row at [pos] exactly when [pos] is the last
    1-based index whose name denotes [a], and no author has two rows); only
    when no author is named twice are the rows one per non-blank name, in
    the order of the list.  Relinking a second time with the same list
    leaves the database exactly as the first relinking left it, so the
    associations and their positions are unchanged.  With a store that
    refuses nothing and no aborted transaction the relinking does go
    through. *)
Theorem relinkAuthors_replaces (env : Env) (bookId : nat)
    (names : list string) (w : World) :
  (forall w',
     relinkAuthors env bookId names w = (Ok tt, w') ->
     (exists fresh,
         Store.book_authors (current w')
         = links_of_others bookId (current w) ++ fresh
         /\ one_per_author bookId fresh
         /\ (forall n, In n names -> nonblank n = true ->
               exists a pos,
                 author_of (current w') n = Some a
                 /\ In (Store.mkBookAuthorRow bookId a pos) fresh)
         /\ (forall a pos,
               In (Store.mkBookAuthorRow bookId a pos) fresh
               <-> last_position (named_positions (current w') 0 names) a
                   = Some pos)
         /\ (NoDup (map fst (named_positions (current w') 0 names)) ->
             fresh
             = map (fun p => Store.mkBookAuthorRow bookId (fst p) (snd p))
                   (named_positions (current w') 0 names)))
     /\ (forall a pos,
           In (a, pos) (named_positions (current w') 0 names)
           <-> exists i n,
                 nth_error names i = Some n /\ nonblank n = true
                 /\ author_of (current w') n = Some a /\ pos = i + 1)
     /\ (forall w'',
           relinkAuthors env bookId names w' = (Ok tt, w'') ->
           current w'' = current w'))
  /\ (accepts_all env -> aborted w = false ->
      fst (relinkAuthors env bookId names w) = Ok tt).
Proof.
  split.
  2:{ intros HA L.
      destruct (relinkAuthors_live HA bookId names w L) as [[[] E] _].
      exact E. }
  intros w'.
  intros H. apply relinkAuthors_ok in H.
  set (d := current w) in *. rewrite H.
  set (d' := relink_authors_db bookId names d).
  pose proof (relink_authors_shape bookId names d) as A. fold d' in A.
  split; [|split].
  - destruct (upsert_all_spec (named_positions d' 0 names)
                (others_are_others bookId d)
                (conj (Forall_nil _) (NoDup_nil _)))
      as (F' & E & HF' & Hin).
    assert (Hin' : forall a pos,
               In (Store.mkBookAuthorRow bookId a pos) F'
               <-> last_position (named_positions d' 0 names) a = Some pos).
    { intros a pos. rewrite Hin. simpl. intuition. }
    exists F'. split; [now rewrite A, E|]. split; [exact HF'|].
    split; [|split; [exact Hin'|]].
    + intros n Hn Hb.
      destruct (author_of d' n) as [a|] eqn:Ea.
      2:{ exfalso. unfold d', relink_authors_db in Ea.
          exact (link_authors_resolves bookId names 0 _ n Hn Hb Ea). }
      destruct (In_nth_error _ _ Hn) as [i Hi].
      assert (Hp : In (a, 0 + i + 1) (named_positions d' 0 names)).
      { apply named_positions_In. exists i, n. auto. }
      destruct (last_position_some _ _ _ Hp) as [pos Hpos].
      exists a, pos. split; [reflexivity|]. now apply Hin'.
    + intros HN.
      pose proof (upsert_all_distinct (named_positions d' 0 names)
                    (others_are_others bookId d) (Forall_nil _) HN
                    (fun p _ (F : In (fst p) []) => F)) as D.
      rewrite E in D. simpl in D. now apply app_inv_head in D.
  - intros a pos. apply (named_positions_In d' names 0 a pos).
  - intros w'' H2. apply relinkAuthors_ok in H2. rewrite H2, H.
    apply relink_authors_twice.
Qed.

(* ====================================================================== *)
(** * Properties: linking the categories of a book *)
(* ====================================================================== *)

Section CategoryFacts.

Variable env : Env.
Variable b : nat.

Lemma categories_grown_refl (w : World) : categories_grown b w w.
Proof. exists []. split; [now rewrite app_nil_r|constructor]. Qed.

Lemma categories_grown_record (e : Event) (w : World) :
  categories_grown b w (record e w).
Proof.
  exists []. rewrite current_record.
  split; [now rewrite app_nil_r|constructor].
Qed.

Lemma categories_grown_fail (e : Event) (w : World) :
  categories_grown b w (record e (fail_stmt w)).
Proof.
  exists []. rewrite current_record, current_fail_stmt.
  split; [now rewrite app_nil_r|constructor].
Qed.

Lemma categories_grown_trans (w1 w2 w3 : World) :
  categories_grown b w1 w2 -> categories_grown b w2 w3 ->
  categories_grown b w1 w3.
Proof.
  intros (x & E1 & F1) (y & E2 & F2). exists (x ++ y).
  split; [now rewrite E2, E1, app_assoc|].
  apply Forall_app. auto.
Qed.

Lemma current_after_data (q : Store.Stmt) (acc : bool) (w : World) :
  is_data q = true ->
  current (record (EvSql q acc) (after_stmt q w))
  = fst (Store.exec (clock w) q (current w)).
Proof.
  intros H. rewrite current_record, after_stmt_data by exact H.
  apply current_set_current.
Qed.

Lemma getOrCreateCategory_grown (n : string) :
  always (categories_grown b) (getOrCreateCategory env n).
Proof.
  unfold getOrCreateCategory.
  apply always_rethrow.
  apply always_bind;
    [apply categories_grown_trans| |].
  - apply clientQuery_always; intros w;
    [apply categories_grown_record|apply categories_grown_fail|].
    exists []. rewrite current_after_data by reflexivity. simpl.
    split; [now rewrite app_nil_r|constructor].
  - intros [|id rows].
    + apply always_bind;
        [apply categories_grown_trans| |].
      * apply clientQuery_always; intros w;
    [apply categories_grown_record|apply categories_grown_fail|].
        exists []. rewrite current_after_data by reflexivity. simpl.
        split; [now rewrite app_nil_r|constructor].
      * intros rows. apply always_firstRow. apply categories_grown_refl.
    + apply always_ret. apply categories_grown_refl.
Qed.

Lemma insertBookCategory_grown (c : nat) :
  always (categories_grown b)
         (clientQuery env (Store.InsertBookCategory b c)).
Proof.
  apply clientQuery_always; intros w;
    [apply categories_grown_record|apply categories_grown_fail|].
  unfold categories_grown.
  rewrite current_after_data by reflexivity. simpl.
  unfold Store.insert_book_category.
  destruct (existsb (Store.bc_key b c) (Store.book_categories (current w))).
  - exists []. split; [now rewrite app_nil_r|constructor].
  - eexists. split; [reflexivity|]. repeat constructor.
Qed.

Lemma relinkCategories_grown (names : list string) :
  always (categories_grown b) (relinkCategories env b names).
Proof.
  induction names as [|n rest IH]; simpl.
  - apply always_ret. apply categories_grown_refl.
  - apply always_bind;
      [apply categories_grown_trans| |].
    + destruct (nonblank n).
      * apply always_bind;
          [apply categories_grown_trans| |].
        -- apply getOrCreateCategory_grown.
        -- intros c. apply always_bind;
             [apply categories_grown_trans| |].
           ++ apply insertBookCategory_grown.
           ++ intros _. apply always_ret. apply categories_grown_refl.
      * apply always_ret. apply categories_grown_refl.
    + intros _. exact IH.
Qed.

(** ** The loop as a function of the database *)

Lemma key_of_pair (c : nat) (t : list Store.BookCategoryRow) :
  existsb (Store.bc_key b c) t = true
  <-> In (Store.mkBookCategoryRow b c) t.
Proof.
  rewrite existsb_exists. split.
  - intros ([b' c'] & Hin & Hk). unfold Store.bc_key in Hk. simpl in Hk.
    apply andb_true_iff in Hk as [H1 H2].
    apply Nat.eqb_eq in H1, H2. now subst.
  - intros Hin. exists (Store.mkBookCategoryRow b c). split; [exact Hin|].
    unfold Store.bc_key. simpl. now rewrite !Nat.eqb_refl.
Qed.

Lemma insert_pair_in (c : nat) (t : list Store.BookCategoryRow) :
  In (Store.mkBookCategoryRow b c) (Store.insert_book_category b c t).
Proof.
  unfold Store.insert_book_category.
  destruct (existsb (Store.bc_key b c) t) eqn:E.
  - now apply key_of_pair.
  - apply in_or_app. right. now left.
Qed.

Lemma insert_pair_present (c : nat) (t : list Store.BookCategoryRow) :
  In (Store.mkBookCategoryRow b c) t ->
  Store.insert_book_category b c t = t.
Proof.
  intros H. unfold Store.insert_book_category.
  apply key_of_pair in H. now rewrite H.
Qed.

Lemma insert_pair_grows (c : nat) (t : list Store.BookCategoryRow) :
  exists extra, Store.insert_book_category b c t = t ++ extra.
Proof.
  unfold Store.insert_book_category.
  destruct (existsb (Store.bc_key b c) t).
  - exists []. now rewrite app_nil_r.
  - eexists. reflexivity.
Qed.

Lemma insert_pair_nodup (c : nat) (t : list Store.BookCategoryRow) :
  NoDup t -> NoDup (Store.insert_book_category b c t).
Proof.
  intros H. unfold Store.insert_book_category.
  destruct (existsb (Store.bc_key b c) t) eqn:E; [exact H|].
  apply NoDup_app; [exact H|repeat constructor; intros []|].
  intros x Hx [<-|[]]. apply key_of_pair in Hx. congruence.
Qed.

Lemma link_categories_extends (names : list string) :
  forall d,
    (exists x, Store.categories_tbl (link_categories_db b names d)
               = Store.categories_tbl d ++ x)
    /\ (exists y, Store.book_categories (link_categories_db b names d)
                  = Store.book_categories d ++ y).
Proof.
  induction names as [|n rest IH]; intros d; simpl.
  - split; exists []; now rewrite app_nil_r.
  - destruct (nonblank n); [|apply IH].
    set (r := goc_category (Text.trim n) d).
    destruct (goc_category_spec (Text.trim n) d) as (_ & [x Hx] & Hb).
    fold r in Hx, Hb.
    destruct (insert_pair_grows (snd r) (Store.book_categories (fst r)))
      as [y Hy].
    destruct (IH (Store.set_book_categories (fst r)
                    (Store.insert_book_category b (snd r)
                       (Store.book_categories (fst r)))))
      as [[x' Hx'] [y' Hy']].
    split.
    + exists (x ++ x'). rewrite Hx'. simpl. now rewrite Hx, app_assoc.
    + exists (y ++ y'). rewrite Hy'. simpl.
      now rewrite Hy, Hb, app_assoc.
Qed.

Lemma link_categories_linked (names : list string) :
  forall d n,
    In n names -> nonblank n = true ->
    exists c,
      category_of (link_categories_db b names d) n = Some c
      /\ In (Store.mkBookCategoryRow b c)
            (Store.book_categories (link_categories_db b names d)).
Proof.
  induction names as [|m rest IH]; intros d n Hin Hn; [destruct Hin|].
  cbn [link_categories_db]. destruct Hin as [->|Hin].
  - rewrite Hn. set (r := goc_category (Text.trim n) d).
    set (d2 := Store.set_book_categories (fst r)
                 (Store.insert_book_category b (snd r)
                    (Store.book_categories (fst r)))).
    destruct (goc_category_spec (Text.trim n) d) as (Hl & _ & _).
    fold r in Hl.
    destruct (link_categories_extends rest d2) as [[x Hx] [y Hy]].
    exists (snd r). split.
    + unfold category_of. rewrite Hx. apply lookup_name_app. exact Hl.
    + rewrite Hy. apply in_or_app. left. apply insert_pair_in.
  - apply IH; assumption.
Qed.

Lemma link_categories_nodup (names : list string) :
  forall d,
    NoDup (Store.book_categories d) ->
    NoDup (Store.book_categories (link_categories_db b names d)).
Proof.
  induction names as [|n rest IH]; intros d H; simpl; [exact H|].
  apply IH. destruct (nonblank n); [|exact H].
  simpl. apply insert_pair_nodup.
  destruct (goc_category_spec (Text.trim n) d) as (_ & _ & ->). exact H.
Qed.

Lemma link_categories_known (names : list string) (d : Store.DB) :
  (forall n, In n names -> nonblank n = true ->
     exists c, category_of d n = Some c
               /\ In (Store.mkBookCategoryRow b c) (Store.book_categories d)) ->
  link_categories_db b names d = d.
Proof.
  induction names as [|n rest IH]; intros H; simpl; [reflexivity|].
  destruct (nonblank n) eqn:Hn.
  - destruct (H n (or_introl eq_refl) Hn) as (c & Hc & Hin).
    rewrite (goc_category_found _ _ Hc). simpl.
    rewrite (insert_pair_present _ _ Hin), set_book_categories_same.
    apply IH. intros m Hm. apply H. now right.
  - apply IH. intros m Hm. apply H. now right.
Qed.

End CategoryFacts.

(** C6.  Linking the categories of a book is additive.  Whatever the
    outcome, [book_categories] keeps every row it had, in place, and gains
    only rows of this book.  When the linking goes through, every non-blank
    name denotes a category that is linked to the book; a pair that was
    there is not inserted again (a table without repeated pairs stays
    so); and linking the same names once more changes nothing at all.
    With a store that refuses nothing and no aborted transaction the
    linking does go through, and linking further names [more] after
    [names] goes through as well and leaves every non-blank name of both
    lists linked: what the first linking put there is not removed. *)
Theorem relinkCategories_additive (env : Env) (bookId : nat)
    (names : list string) (w : World) :
  categories_grown bookId w (snd (relinkCategories env bookId names w))
  /\ (forall w',
        relinkCategories env bookId names w = (Ok tt, w') ->
        (forall n, In n names -> nonblank n = true ->
           exists c,
             category_of (current w') n = Some c
             /\ In (Store.mkBookCategoryRow bookId c)
                   (Store.book_categories (current w')))
        /\ (NoDup (Store.book_categories (current w)) ->
            NoDup (Store.book_categories (current w')))
        /\ (forall w'',
              relinkCategories env bookId names w' = (Ok tt, w'') ->
              current w'' = current w'))
  /\ (accepts_all env -> aborted w = false ->
      fst (relinkCategories env bookId names w) = Ok tt
      /\ forall more,
           fst (relinkCategories env bookId more
                  (snd (relinkCategories env bookId names w))) = Ok tt
           /\ forall n,
                In n (names ++ more) -> nonblank n = true ->
                exists c,
                  category_of
                    (current
                       (snd (relinkCategories env bookId more
                               (snd (relinkCategories env bookId names w)))))
                    n = Some c
                  /\ In (Store.mkBookCategoryRow bookId c)
                        (Store.book_categories
                           (current
                              (snd (relinkCategories env bookId more
                                      (snd (relinkCategories env bookId
                                              names w))))))).
Proof.
  split; [apply relinkCategories_grown|]. split.
  - intros w' H. apply relinkCategories_ok in H. rewrite H.
    split; [|split].
    + intros n Hn Hb. now apply link_categories_linked.
    + apply link_categories_nodup.
    + intros w'' H2. apply relinkCategories_ok in H2. rewrite H2, H.
      apply link_categories_known.
      intros n Hn Hb. now apply link_categories_linked.
  - intros HA L.
    destruct (relinkCategories_live HA bookId names w L) as [[[] E1] L1].
    split; [exact E1|]. intros more.
    destruct (relinkCategories_live HA bookId more _ L1) as [[[] E2] _].
    split; [exact E2|].
    destruct (relinkCategories env bookId names w) as [r1 w1] eqn:R1.
    cbn [fst snd] in *. subst r1.
    destruct (relinkCategories env bookId more w1) as [r2 w2] eqn:R2.
    cbn [fst snd] in *. subst r2.
    apply relinkCategories_ok in R1. apply relinkCategories_ok in R2.
    intros n Hn Hb. rewrite R2.
    apply in_app_or in Hn as [Hn|Hn].
    + destruct (link_categories_linked bookId names (current w) n Hn Hb)
        as (c & Hc & Hin).
      rewrite <- R1 in Hc, Hin.
      destruct (link_categories_extends bookId more (current w1))
        as [[x Hx] [y Hy]].
      exists c. split.
      * unfold category_of in *. rewrite Hx. now apply lookup_name_app.
      * rewrite Hy. apply in_or_app. now left.
    + now apply link_categories_linked.
Qed.

(* ====================================================================== *)
(** * Properties: one candidate, and the loop over the batch *)
(* ====================================================================== *)

Section LocalsFacts.

Context {L : Type}.

Lemma liftW_run {A} (m : M World A) (w : World) (l : L) :
  liftW m (w, l) = (fst (m w), (snd (m w), l)).
Proof. unfold liftW. simpl. destruct (m w); reflexivity. Qed.

Variable R : World -> World -> Prop.
Hypothesis R_refl : forall w, R w w.
Hypothesis R_trans : forall w1 w2 w3, R w1 w2 -> R w2 w3 -> R w1 w3.

Lemma on_world_refl (s : World * L) : on_world R s s.
Proof. split; [apply R_refl|reflexivity]. Qed.

Lemma on_world_trans (s1 s2 s3 : World * L) :
  on_world R s1 s2 -> on_world R s2 s3 -> on_world R s1 s3.
Proof.
  intros [H1 E1] [H2 E2]. split; [eapply R_trans; eassumption|congruence].
Qed.

Lemma in_world_refl (s : World * L) : in_world R s s.
Proof. apply R_refl. Qed.

Lemma in_world_trans (s1 s2 s3 : World * L) :
  in_world R s1 s2 -> in_world R s2 s3 -> in_world R s1 s3.
Proof. unfold in_world. apply R_trans. Qed.

Lemma always_liftW {A} (m : M World A) :
  always R m -> always (on_world (L:=L) R) (liftW m).
Proof.
  intros H [w l]. rewrite liftW_run. split; simpl; [apply H|reflexivity].
Qed.

Lemma on_world_in_world {A} (m : M (World * L) A) :
  always (on_world R) m -> always (in_world R) m.
Proof. intros H s. apply H. Qed.

Lemma always_setLocal (f : L -> L) : always (in_world R) (setLocal f).
Proof. intros [w l]. apply R_refl. Qed.

End LocalsFacts.

Lemma catch_all {St} (m : M St unit) (s : St) :
  try_catch m (fun _ => ret tt) s = (Ok tt, snd (m s)).
Proof.
  unfold try_catch, ret. destruct (m s) as [[[]|e] s']; reflexivity.
Qed.

Lemma link_is_data (q : Store.Stmt) :
  is_link_stmt q = true -> is_data q = true.
Proof. destruct q; simpl; auto. Qed.

Lemma book_is_data (q : Store.Stmt) :
  is_book_stmt q = true -> is_data q = true.
Proof. destruct q; simpl; auto. Qed.

Section StatementsOnly.

Variable env : Env.
Variable R : World -> World -> Prop.
Hypothesis R_refl : forall w, R w w.
Hypothesis R_trans : forall w1 w2 w3, R w1 w2 -> R w2 w3 -> R w1 w3.

Ltac seq := apply always_bind; [exact R_trans| |].
Ltac done_ret := apply always_ret; exact R_refl.

Section Linking.

Hypothesis R_link :
  forall q, is_link_stmt q = true -> always R (clientQuery env q).

Lemma getOrCreateAuthor_always (n : string) :
  always R (getOrCreateAuthor env n).
Proof.
  unfold getOrCreateAuthor. apply always_rethrow. seq.
  - now apply R_link.
  - intros [|id rows]; [|done_ret]. seq.
    + now apply R_link.
    + intros rows. apply always_firstRow. exact R_refl.
Qed.

Lemma getOrCreateCategory_always (n : string) :
  always R (getOrCreateCategory env n).
Proof.
  unfold getOrCreateCategory. apply always_rethrow. seq.
  - now apply R_link.
  - intros [|id rows]; [|done_ret]. seq.
    + now apply R_link.
    + intros rows. apply always_firstRow. exact R_refl.
Qed.

Lemma linkAuthorsFrom_always (b : nat) (names : list string) :
  forall i, always R (linkAuthorsFrom env b i names).
Proof.
  induction names as [|n rest IH]; intros i; simpl; [done_ret|]. seq.
  - destruct (nonblank n); [|done_ret]. seq.
    + apply getOrCreateAuthor_always.
    + intros a. seq; [now apply R_link|]. intros _. done_ret.
  - intros _. apply IH.
Qed.

Lemma relinkAuthors_always (b : nat) (names : list string) :
  always R (relinkAuthors env b names).
Proof.
  unfold relinkAuthors. seq; [now apply R_link|].
  intros _. apply linkAuthorsFrom_always.
Qed.

Lemma relinkCategories_always (b : nat) (names : list string) :
  always R (relinkCategories env b names).
Proof.
  induction names as [|n rest IH]; simpl; [done_ret|]. seq.
  - destruct (nonblank n); [|done_ret]. seq.
    + apply getOrCreateCategory_always.
    + intros c. seq; [now apply R_link|]. intros _. done_ret.
  - intros _. exact IH.
Qed.

Lemma linkSteps_always (b : nat) (book : ScrapedBook) :
  always (on_world R) (linkSteps env b book).
Proof.
  unfold linkSteps. apply always_bind; [apply on_world_trans; exact R_trans| |].
  - destruct (authors book).
    + apply always_ret. apply on_world_refl; exact R_refl.
    + apply always_liftW. apply relinkAuthors_always.
  - intros _. destruct (categories book).
    + apply always_ret. apply on_world_refl; exact R_refl.
    + apply always_liftW. apply relinkCategories_always.
Qed.

End Linking.

Hypothesis R_data :
  forall q, is_book_stmt q = true -> always R (clientQuery env q).

Lemma link_is_book (q : Store.Stmt) :
  is_link_stmt q = true -> is_book_stmt q = true.
Proof. destruct q; simpl; auto. Qed.

Lemma findExisting_always (book : ScrapedBook) :
  always R (findExisting env book).
Proof.
  unfold findExisting. seq; [|intros e1; seq].
  - destruct (Text.truthy (isbn book)); [|done_ret].
    seq; [now apply R_data|]. intros rows. done_ret.
  - destruct e1; [done_ret|].
    destruct (publication_year book) as [y|]; [|done_ret].
    destruct (Text.nonempty (title book) && Text.truthyZ (Some y));
      [|done_ret].
    seq; [now apply R_data|]. intros rows. done_ret.
  - intros [id|]; [done_ret|].
    destruct (Text.nonempty (title book)); [|done_ret].
    seq; [now apply R_data|]. intros rows. done_ret.
Qed.

Lemma updateBook_always (id : nat) (book : ScrapedBook) :
  always R (updateBook env id book).
Proof.
  unfold updateBook. seq; [now apply R_data|]. intros _. done_ret.
Qed.

Lemma insertBook_always (book : ScrapedBook) (sid : nat) :
  always R (insertBook env book sid).
Proof.
  unfold insertBook. seq; [now apply R_data|].
  intros rows. apply always_firstRow. exact R_refl.
Qed.

Lemma saveBook_always (book : ScrapedBook) (sid : nat) :
  always (in_world R) (saveBook env book sid).
Proof.
  unfold saveBook.
  apply always_bind; [apply in_world_trans; exact R_trans| |].
  - apply on_world_in_world, always_liftW, findExisting_always.
  - intros existing.
    apply always_bind; [apply in_world_trans; exact R_trans| |].
    + destruct existing as [id|].
      * apply always_bind; [apply in_world_trans; exact R_trans| |].
        -- apply on_world_in_world, always_liftW, updateBook_always.
        -- intros _. apply always_bind; [apply in_world_trans; exact R_trans| |].
           ++ apply always_setLocal. exact R_refl.
           ++ intros _. apply always_ret. apply in_world_refl; exact R_refl.
      * apply always_bind; [apply in_world_trans; exact R_trans| |].
        -- apply on_world_in_world, always_liftW, insertBook_always.
        -- intros id. apply always_bind; [apply in_world_trans; exact R_trans| |].
           ++ apply always_setLocal. exact R_refl.
           ++ intros _. apply always_ret. apply in_world_refl; exact R_refl.
    + intros id. apply on_world_in_world, linkSteps_always.
      intros q Hq. apply R_data. now apply link_is_book.
Qed.

Lemma loop_end_always (books : list ScrapedBook) (sid : nat) :
  forall s, in_world R s (loop_end env books sid s).
Proof.
  induction books as [|b rest IH]; intros s; simpl.
  - apply R_refl.
  - eapply in_world_trans; [exact R_trans|apply saveBook_always|apply IH].
Qed.

End StatementsOnly.

Section TraceFacts.

Variable env : Env.

Lemma no_rollback_refl (w : World) : no_rollback w w.
Proof. exists []. split; [now rewrite app_nil_r|reflexivity]. Qed.

Lemma no_rollback_trans (w1 w2 w3 : World) :
  no_rollback w1 w2 -> no_rollback w2 w3 -> no_rollback w1 w3.
Proof.
  intros (x & E1 & F1) (y & E2 & F2). exists (x ++ y).
  split; [now rewrite E2, E1, app_assoc|].
  rewrite forallb_app, F1, F2. reflexivity.
Qed.

Lemma trace_after_stmt (q : Store.Stmt) (w : World) :
  trace (after_stmt q w) = trace w.
Proof.
  destruct q; simpl; try reflexivity;
    unfold set_current; destruct (txn w); reflexivity.
Qed.

Lemma no_rollback_step (q : Store.Stmt) (acc : bool) (w1 w2 : World) :
  is_rollback (EvSql q acc) = false ->
  trace w2 = trace w1 ->
  no_rollback w1 (record (EvSql q acc) w2).
Proof.
  intros Hq E. exists [EvSql q acc].
  split; [simpl; now rewrite E|].
  cbn [forallb]. now rewrite Hq.
Qed.

Lemma data_not_rollback (q : Store.Stmt) (acc : bool) :
  is_data q = true -> is_rollback (EvSql q acc) = false.
Proof. destruct q; simpl; auto; discriminate. Qed.

Lemma no_rollback_data (q : Store.Stmt) :
  is_data q = true -> always no_rollback (clientQuery env q).
Proof.
  intros Hq. apply clientQuery_always; intros w.
  - apply no_rollback_step; [now apply data_not_rollback|reflexivity].
  - apply no_rollback_step; [now apply data_not_rollback|].
    simpl. now rewrite trace_fail_stmt.
  - apply no_rollback_step; [now apply data_not_rollback|].
    apply trace_after_stmt.
Qed.

End TraceFacts.

Section BooksFacts.

Variable env : Env.

Lemma books_persist_refl (w : World) : books_persist w w.
Proof. intros r Hr. exists r. auto. Qed.

Lemma books_persist_trans (w1 w2 w3 : World) :
  books_persist w1 w2 -> books_persist w2 w3 -> books_persist w1 w3.
Proof.
  intros H1 H2 r Hr.
  destruct (H1 r Hr) as (r1 & Hr1 & I1 & T1).
  destruct (H2 r1 Hr1) as (r2 & Hr2 & I2 & T2).
  exists r2. repeat split; congruence.
Qed.

Lemma exec_books_persist (t : nat) (q : Store.Stmt) (d : Store.DB) :
  forall r, In r (Store.books d) ->
    exists r', In r' (Store.books (fst (Store.exec t q d)))
               /\ Store.book_id r' = Store.book_id r
               /\ Store.b_title r' = Store.b_title r.
Proof.
  intros r Hr.
  destruct q; simpl; try (exists r; auto; fail).
  - exists (if Store.book_id r =? id
            then Store.update_row t sub pub pg desc cover isb r else r).
    split.
    + apply in_map_iff. exists r. auto.
    + destruct (Store.book_id r =? id); auto.
  - exists r. split; [apply in_or_app; now left|auto].
Qed.

Lemma books_persist_data (q : Store.Stmt) :
  is_data q = true -> always books_persist (clientQuery env q).
Proof.
  intros Hq. apply clientQuery_always; intros w.
  - intros r Hr. exists r. auto.
  - intros r Hr. exists r. rewrite current_record, current_fail_stmt. auto.
  - intros r Hr. rewrite current_after_data by exact Hq.
    now apply exec_books_persist.
Qed.

Lemma books_same_refl (w : World) : books_same w w.
Proof. reflexivity. Qed.

Lemma books_same_trans (w1 w2 w3 : World) :
  books_same w1 w2 -> books_same w2 w3 -> books_same w1 w3.
Proof. unfold books_same. congruence. Qed.

Lemma books_same_link (q : Store.Stmt) :
  is_link_stmt q = true -> always books_same (clientQuery env q).
Proof.
  intros Hq. apply clientQuery_always; intros w.
  - reflexivity.
  - unfold books_same. now rewrite current_record, current_fail_stmt.
  - unfold books_same.
    rewrite current_after_data by (now apply link_is_data).
    destruct q; simpl in *; try reflexivity; discriminate Hq.
Qed.

End BooksFacts.

Section SaveBookFacts.

Variable env : Env.

Lemma saveLoop_run (books : list ScrapedBook) (sid : nat) :
  forall s, saveLoop env books sid s = (Ok tt, loop_end env books sid s).
Proof.
  induction books as [|b rest IH]; intros s; simpl; [reflexivity|].
  unfold bind. rewrite catch_all. apply IH.
Qed.

Lemma loop_end_app (pre post : list ScrapedBook) (sid : nat) (s : SaveSt) :
  loop_end env (pre ++ post) sid s
  = loop_end env post sid (loop_end env pre sid s).
Proof. unfold loop_end. apply fold_left_app. Qed.

Lemma saveBook_run (book : ScrapedBook) (sid : nat) (w : World)
    (c : Counts) :
  saveBook env book sid (w, c)
  = match findExisting env book w with
    | (Throw e, w1) => (Throw e, (w1, c))
    | (Ok (Some id), w1) =>
        match updateBook env id book w1 with
        | (Throw e, w2) => (Throw e, (w2, c))
        | (Ok _, w2) =>
            linkSteps env id book (w2, mkCounts (added c) (S (updated c)))
        end
    | (Ok None, w1) =>
        match insertBook env book sid w1 with
        | (Throw e, w2) => (Throw e, (w2, c))
        | (Ok id, w2) =>
            linkSteps env id book (w2, mkCounts (S (added c)) (updated c))
        end
    end.
Proof.
  unfold saveBook, bind. rewrite liftW_run.
  destruct (findExisting env book w) as [[[id|]|e] w1]; simpl;
    try reflexivity; rewrite liftW_run.
  - destruct (updateBook env id book w1) as [[[]|e] w2]; reflexivity.
  - destruct (insertBook env book sid w1) as [[id|e] w2]; reflexivity.
Qed.

Lemma linkSteps_counts (id : nat) (book : ScrapedBook) (s : SaveSt) :
  snd (snd (linkSteps env id book s)) = snd s.
Proof.
  refine (proj2 (linkSteps_always (R:=fun _ _ => True) _ _ _ id book s));
    auto.
  intros q _ w. exact I.
Qed.

Lemma saveBook_counts (book : ScrapedBook) (sid : nat) (w : World)
    (c : Counts) :
  snd (snd (saveBook env book sid (w, c)))
  = bump (write_outcome env book sid w) c.
Proof.
  rewrite saveBook_run. unfold write_outcome.
  destruct (findExisting env book w) as [[[id|]|e] w1]; simpl;
    try reflexivity.
  - destruct (updateBook env id book w1) as [[[]|e] w2]; simpl;
      [apply linkSteps_counts|reflexivity].
  - destruct (insertBook env book sid w1) as [[id|e] w2]; simpl;
      [apply linkSteps_counts|reflexivity].
Qed.

Lemma saveBook_uncounted (book : ScrapedBook) (sid : nat) (w : World)
    (c : Counts) :
  write_outcome env book sid w = None ->
  exists e, fst (saveBook env book sid (w, c)) = Throw e.
Proof.
  rewrite saveBook_run. unfold write_outcome.
  destruct (findExisting env book w) as [[[id|]|e] w1]; simpl.
  - destruct (updateBook env id book w1) as [[[]|e] w2]; simpl;
      [discriminate|eauto].
  - destruct (insertBook env book sid w1) as [[id|e] w2]; simpl;
      [discriminate|eauto].
  - eauto.
Qed.

Lemma bump_bound (o : option bool) (c : Counts) :
  added (bump o c) + updated (bump o c) <= S (added c + updated c).
Proof. destruct o as [[|]|]; simpl; lia. Qed.

Lemma loop_end_bound (books : list ScrapedBook) (sid : nat) :
  forall s,
    added (snd (loop_end env books sid s))
    + updated (snd (loop_end env books sid s))
    <= added (snd s) + updated (snd s) + length books.
Proof.
  induction books as [|b rest IH]; intros [w c]; simpl; [lia|].
  fold (loop_end env rest sid (snd (saveBook env b sid (w, c)))).
  etransitivity; [apply IH|].
  rewrite saveBook_counts.
  pose proof (bump_bound (write_outcome env b sid w) c). lia.
Qed.

Lemma poolQuery_accepted (q : Store.Stmt) (w : World) :
  rejects env q (durable w) = None ->
  poolQuery env q w
  = (Ok (snd (Store.exec (clock w) q (durable w))),
     record (EvSql q true)
       (mkWorld (fst (Store.exec (clock w) q (durable w))) (txn w)
          (clock w) (trace w) (txn_failed w))).
Proof. unfold poolQuery. now intros ->. Qed.

Lemma saveBooks_run (books : list ScrapedBook) (sid : nat) (w : World) :
  control_accepted env sid ->
  saveBooks env books sid w
  = (Ok (snd (loop_end env books sid (begun env w, mkCounts 0 0))),
     committed env sid
       (fst (loop_end env books sid (begun env w, mkCounts 0 0)))).
Proof.
  intros HC. unfold saveBooks, begun, committed.
  destruct (HC (durable w)) as (Hc & _).
  rewrite (bind_step _ _ _ (poolQuery_accepted _ _ Hc)).
  rewrite (poolQuery_accepted _ _ Hc). cbn [snd].
  set (w0 := record (EvSql Store.Connect true) _).
  unfold withLocals, try_catch.
  destruct (HC (current w0)) as (_ & Hb & _).
  unfold bind at 1. rewrite liftW_run.
  rewrite (clientQuery_accepted _ _ _
             (control_not_blocked Store.Begin _ eq_refl) Hb).
  cbn [fst snd].
  set (wB := record (EvSql Store.Begin true) _).
  unfold bind at 1. rewrite saveLoop_run.
  set (sL := loop_end env books sid (wB, mkCounts 0 0)).
  destruct sL as [wL cL] eqn:EL. cbn [fst snd].
  unfold bind at 1. rewrite liftW_run.
  destruct (HC (current wL)) as (_ & _ & Hm & _).
  rewrite (clientQuery_accepted _ _ _
             (control_not_blocked Store.Commit _ eq_refl) Hm).
  cbn [fst snd].
  set (wC := record (EvSql Store.Commit true) _).
  unfold bind. rewrite liftW_run.
  destruct (HC (current wC)) as (_ & _ & _ & Ht).
  rewrite (clientQuery_accepted _ _ _
             (live_not_blocked (Store.TouchSource sid) wC eq_refl) Ht).
  cbn [fst snd].
  reflexivity.
Qed.

End SaveBookFacts.

Section CommitFacts.

Variable env : Env.
Variable sid : nat.
Hypothesis HC : control_accepted env sid.

Lemma committed_shape (w : World) :
  committed env sid w
  = mkWorld
      (fst (Store.exec (S (clock w)) (Store.TouchSource sid)
              (if aborted w then durable w else current w)))
      None (S (S (clock w)))
      ((trace w ++ [EvSql Store.Commit true])
         ++ [EvSql (Store.TouchSource sid) true])
      false.
Proof.
  unfold committed.
  destruct (HC (current w)) as (_ & _ & Hm & Ht).
  rewrite (clientQuery_accepted env _ _
             (control_not_blocked Store.Commit _ eq_refl) Hm).
  cbn [snd].
  rewrite clientQuery_accepted; [reflexivity|reflexivity|].
  apply HC.
Qed.

Lemma begun_shape (w : World) :
  begun env w
  = mkWorld (durable w) (Some (durable w)) (S (S (clock w)))
      ((trace w ++ [EvSql Store.Connect true])
         ++ [EvSql Store.Begin true])
      false.
Proof.
  unfold begun.
  destruct (HC (durable w)) as (Hc & Hb & _).
  rewrite (poolQuery_accepted env _ _ Hc). cbn [snd].
  rewrite clientQuery_accepted;
    [reflexivity|now apply control_not_blocked|].
  apply HC.
Qed.

End CommitFacts.

(* ====================================================================== *)
(** * A failed statement and the transaction *)
(* ====================================================================== *)

Section AbortFacts.

Variable env : Env.

Lemma txn_private_refl (w : World) : txn_private w w.
Proof. intros H. auto. Qed.

Lemma txn_private_trans (w1 w2 w3 : World) :
  txn_private w1 w2 -> txn_private w2 w3 -> txn_private w1 w3.
Proof.
  intros H1 H2 H. destruct (H1 H) as [H' E1].
  destruct (H2 H') as [H'' E2]. split; [exact H''|congruence].
Qed.

Lemma txn_private_book (q : Store.Stmt) :
  is_book_stmt q = true -> always txn_private (clientQuery env q).
Proof.
  intros Hq. apply clientQuery_always; intros w Ht.
  - simpl. auto.
  - simpl. rewrite txn_fail_stmt, durable_fail_stmt. auto.
  - destruct q; try discriminate Hq; unfold after_stmt, set_current;
      destruct (txn w); simpl;
      try (split; [discriminate|reflexivity]); now contradiction Ht.
Qed.

Lemma loop_end_private (books : list ScrapedBook) (sid : nat) (w : World)
    (c : Counts) :
  txn w <> None ->
  txn (fst (loop_end env books sid (w, c))) <> None
  /\ durable (fst (loop_end env books sid (w, c))) = durable w.
Proof.
  exact (loop_end_always txn_private_refl txn_private_trans txn_private_book
           books sid (w, c)).
Qed.

Lemma fails_aborted_ret {St A} (pw : St -> World) (a : A) :
  fails_aborted pw (ret a).
Proof. intros s H. repeat split; auto. discriminate. Qed.

Lemma fails_aborted_bind {St A B} (pw : St -> World) (m : M St A)
    (k : A -> M St B) :
  fails_aborted pw m -> (forall a, fails_aborted pw (k a)) ->
  fails_aborted pw (bind m k).
Proof.
  intros Hm Hk s H. unfold bind.
  destruct (Hm s H) as (T1 & A1 & E1).
  destruct (m s) as [[a|e] s1]; cbn [fst snd] in *.
  - destruct (Hk a s1 T1) as (T2 & A2 & E2).
    split; [exact T2|]. split; [auto|exact E2].
  - split; [exact T1|]. split; [exact A1|]. intros e' _. now apply (E1 e).
Qed.

Lemma fails_aborted_rethrow {St A} (pw : St -> World) (m : M St A) :
  fails_aborted pw m -> fails_aborted pw (rethrow m).
Proof. intros Hm s. rewrite rethrow_eq. apply Hm. Qed.

Lemma fails_aborted_liftW {L A} (m : M World A) :
  fails_aborted (fun w => w) m ->
  fails_aborted (fun s : World * L => fst s) (liftW m).
Proof. intros Hm [w l] H. rewrite liftW_run. apply (Hm w H). Qed.

Lemma fails_aborted_setLocal {L} (f : L -> L) :
  fails_aborted (fun s : World * L => fst s) (setLocal f).
Proof. intros [w l] H. repeat split; auto. discriminate. Qed.

Lemma aborted_open (w : World) : aborted w = true -> txn w <> None.
Proof. unfold aborted. destruct (txn w); [discriminate|discriminate]. Qed.

Lemma aborted_fail_stmt (w : World) :
  txn w <> None -> aborted (fail_stmt w) = true.
Proof.
  unfold aborted, fail_stmt. destruct (txn w); [reflexivity|contradiction].
Qed.

Lemma aborted_after_data (q : Store.Stmt) (w : World) :
  is_data q = true -> aborted (after_stmt q w) = aborted w.
Proof.
  intros H. rewrite after_stmt_data by exact H. apply aborted_set_current.
Qed.

Lemma txn_after_data (q : Store.Stmt) (w : World) :
  is_data q = true -> txn w <> None -> txn (after_stmt q w) <> None.
Proof.
  intros H T. rewrite after_stmt_data by exact H.
  unfold set_current. destruct (txn w); [discriminate|contradiction].
Qed.

(** A statement of the loop and what follows it: the rows it returns are
    those of [exec]. *)
Lemma fails_aborted_query {A} (q : Store.Stmt)
    (k : list nat -> M World A) :
  is_data q = true ->
  (forall t d, fails_aborted (fun w => w) (k (snd (Store.exec t q d)))) ->
  fails_aborted (fun w => w) (bind (clientQuery env q) k).
Proof.
  intros Hq Hk w T. unfold bind, clientQuery.
  destruct (blocked q w) eqn:B.
  - cbn [fst snd]. split; [exact T|]. split; [auto|].
    intros _ _. unfold blocked in B. now apply andb_prop in B.
  - destruct (rejects env q (current w)) as [m|].
    + cbn [fst snd]. rewrite aborted_record.
      split; [simpl; now rewrite txn_fail_stmt|].
      split; intros; now apply aborted_fail_stmt.
    + assert (T1 : txn (record (EvSql q true) (after_stmt q w)) <> None)
        by (simpl; now apply txn_after_data).
      destruct (Hk (clock w) (current w) _ T1) as (T2 & A2 & E2).
      split; [exact T2|]. split; [|exact E2].
      intros Ha. apply A2. rewrite aborted_record.
      now rewrite aborted_after_data.
Qed.

Lemma fails_aborted_client (q : Store.Stmt) :
  is_data q = true -> fails_aborted (fun w => w) (clientQuery env q).
Proof.
  intros Hq w T.
  pose proof (@fails_aborted_query (list nat) q (fun rows => ret rows) Hq
                (fun t d => fails_aborted_ret _ _) w T) as H.
  unfold bind in H. unfold ret in H.
  destruct (clientQuery env q w) as [[rows|e] w1]; exact H.
Qed.

Lemma findExisting_fails_aborted (book : ScrapedBook) :
  fails_aborted (fun w => w) (findExisting env book).
Proof.
  unfold findExisting.
  apply fails_aborted_bind; [|intros e1; apply fails_aborted_bind].
  - destruct (Text.truthy (isbn book)); [|apply fails_aborted_ret].
    apply fails_aborted_query; [reflexivity|].
    intros; apply fails_aborted_ret.
  - destruct e1; [apply fails_aborted_ret|].
    destruct (publication_year book) as [y|]; [|apply fails_aborted_ret].
    destruct (Text.nonempty (title book) && Text.truthyZ (Some y));
      [|apply fails_aborted_ret].
    apply fails_aborted_query; [reflexivity|].
    intros; apply fails_aborted_ret.
  - intros [id|]; [apply fails_aborted_ret|].
    destruct (Text.nonempty (title book)); [|apply fails_aborted_ret].
    apply fails_aborted_query; [reflexivity|].
    intros; apply fails_aborted_ret.
Qed.

Lemma updateBook_fails_aborted (id : nat) (book : ScrapedBook) :
  fails_aborted (fun w => w) (updateBook env id book).
Proof.
  unfold updateBook. apply fails_aborted_query; [reflexivity|].
  intros; apply fails_aborted_ret.
Qed.

Lemma insertBook_fails_aborted (book : ScrapedBook) (sid : nat) :
  fails_aborted (fun w => w) (insertBook env book sid).
Proof.
  unfold insertBook. apply fails_aborted_query; [reflexivity|].
  intros t d. simpl. apply fails_aborted_ret.
Qed.

Lemma getOrCreateAuthor_fails_aborted (n : string) :
  fails_aborted (fun w => w) (getOrCreateAuthor env n).
Proof.
  unfold getOrCreateAuthor. apply fails_aborted_rethrow.
  apply fails_aborted_query; [reflexivity|]. intros t d.
  destruct (snd (Store.exec t (Store.SelectAuthorByName n) d));
    [|apply fails_aborted_ret].
  apply fails_aborted_query; [reflexivity|].
  intros t' d'. simpl. apply fails_aborted_ret.
Qed.

Lemma getOrCreateCategory_fails_aborted (n : string) :
  fails_aborted (fun w => w) (getOrCreateCategory env n).
Proof.
  unfold getOrCreateCategory. apply fails_aborted_rethrow.
  apply fails_aborted_query; [reflexivity|]. intros t d.
  destruct (snd (Store.exec t (Store.SelectCategoryByName n) d));
    [|apply fails_aborted_ret].
  apply fails_aborted_query; [reflexivity|].
  intros t' d'. simpl. apply fails_aborted_ret.
Qed.

Lemma linkAuthorsFrom_fails_aborted (b : nat) (names : list string) :
  forall i, fails_aborted (fun w => w) (linkAuthorsFrom env b i names).
Proof.
  induction names as [|n rest IH]; intros i; simpl;
    [apply fails_aborted_ret|].
  apply fails_aborted_bind; [|intros _; apply IH].
  destruct (nonblank n); [|apply fails_aborted_ret].
  apply fails_aborted_bind; [apply getOrCreateAuthor_fails_aborted|].
  intros a. apply fails_aborted_query; [reflexivity|].
  intros; apply fails_aborted_ret.
Qed.

Lemma relinkAuthors_fails_aborted (b : nat) (names : list string) :
  fails_aborted (fun w => w) (relinkAuthors env b names).
Proof.
  unfold relinkAuthors. apply fails_aborted_query; [reflexivity|].
  intros _ _. apply linkAuthorsFrom_fails_aborted.
Qed.

Lemma relinkCategories_fails_aborted (b : nat) (names : list string) :
  fails_aborted (fun w => w) (relinkCategories env b names).
Proof.
  induction names as [|n rest IH]; simpl; [apply fails_aborted_ret|].
  apply fails_aborted_bind; [|intros _; exact IH].
  destruct (nonblank n); [|apply fails_aborted_ret].
  apply fails_aborted_bind; [apply getOrCreateCategory_fails_aborted|].
  intros c. apply fails_aborted_query; [reflexivity|].
  intros; apply fails_aborted_ret.
Qed.

Lemma linkSteps_fails_aborted (b : nat) (book : ScrapedBook) :
  fails_aborted (fun s : SaveSt => fst s) (linkSteps env b book).
Proof.
  unfold linkSteps. apply fails_aborted_bind; [|intros _].
  - destruct (authors book); [apply fails_aborted_ret|].
    apply fails_aborted_liftW, relinkAuthors_fails_aborted.
  - destruct (categories book); [apply fails_aborted_ret|].
    apply fails_aborted_liftW, relinkCategories_fails_aborted.
Qed.

Lemma saveBook_fails_aborted (book : ScrapedBook) (sid : nat) :
  fails_aborted (fun s : SaveSt => fst s) (saveBook env book sid).
Proof.
  unfold saveBook.
  apply fails_aborted_bind;
    [apply fails_aborted_liftW, findExisting_fails_aborted|].
  intros existing. apply fails_aborted_bind;
    [|intros id; apply linkSteps_fails_aborted].
  destruct existing as [id|].
  - apply fails_aborted_bind;
      [apply fails_aborted_liftW, updateBook_fails_aborted|].
    intros _. apply fails_aborted_bind; [apply fails_aborted_setLocal|].
    intros _. apply fails_aborted_ret.
  - apply fails_aborted_bind;
      [apply fails_aborted_liftW, insertBook_fails_aborted|].
    intros id. apply fails_aborted_bind; [apply fails_aborted_setLocal|].
    intros _. apply fails_aborted_ret.
Qed.

(** Once aborted, the transaction stays so to the end of the loop. *)
Lemma loop_end_aborted (books : list ScrapedBook) (sid : nat) :
  forall s,
    aborted (fst s) = true ->
    aborted (fst (loop_end env books sid s)) = true.
Proof.
  unfold loop_end.
  induction books as [|b rest IH]; intros s H; simpl; [exact H|].
  apply IH.
  now apply (saveBook_fails_aborted b sid s (aborted_open _ H)).
Qed.

(** A candidate that raises leaves the loop with an aborted transaction. *)
Lemma raised_aborts_batch (pre post : list ScrapedBook) (book : ScrapedBook)
    (sid : nat) (s : SaveSt) (e : string) :
  txn (fst s) <> None ->
  fst (saveBook env book sid (loop_end env pre sid s)) = Throw e ->
  aborted (fst (loop_end env (pre ++ book :: post) sid s)) = true.
Proof.
  intros T H. rewrite loop_end_app.
  change (loop_end env (book :: post) sid (loop_end env pre sid s))
    with (loop_end env post sid
            (snd (saveBook env book sid (loop_end env pre sid s)))).
  apply loop_end_aborted.
  destruct (loop_end env pre sid s) as [w1 c1] eqn:E.
  assert (T1 : txn w1 <> None).
  { pose proof (loop_end_private pre sid (fst s) (snd s) T) as [T1 _].
    rewrite <- surjective_pairing, E in T1. exact T1. }
  exact (proj2 (proj2 (saveBook_fails_aborted book sid (w1, c1) T1)) e H).
Qed.

(** A store that accepts the statements of the loop never aborts it. *)
Lemma loop_end_live (books : list ScrapedBook) (sid : nat) (s : SaveSt) :
  (forall q d, is_book_stmt q = true -> rejects env q d = None) ->
  aborted (fst s) = false ->
  aborted (fst (loop_end env books sid s)) = false.
Proof.
  intros HA.
  apply (loop_end_always (R:=fun w w' => aborted w = false ->
                                         aborted w' = false)).
  - auto.
  - auto.
  - intros q Hq w Hw. unfold clientQuery.
    rewrite (live_not_blocked q w Hw), (HA q _ Hq). cbn [snd].
    rewrite aborted_record, aborted_after_data; [exact Hw|].
    now apply book_is_data.
Qed.

End AbortFacts.

(** C1.  What [saveBooks] does with a candidate that raises.  Provided the
    store accepts the connection, [BEGIN], [COMMIT] and the update of the
    source, and whatever else it refuses: the loop never raises,
    [saveBooks] returns the counters, no [ROLLBACK] is issued and [COMMIT]
    is.  But a candidate that raises has aborted the transaction, so that
    the [COMMIT] stores nothing of the batch: the committed database is the
    one from before the call with the source touched, and the writes of
    the candidates that went through are lost with the others.  Only when
    no statement failed is the committed database the one the loop ended
    with. *)
Theorem saveBooks_failure_loses_batch (env : Env)
    (books : list ScrapedBook) (sid : nat) (w : World) :
  control_accepted env sid ->
  exists c w',
    saveBooks env books sid w = (Ok c, w')
    /\ c = snd (loop_end env books sid (begun env w, mkCounts 0 0))
    /\ txn w' = None
    /\ (exists evs,
          trace w' = trace w ++ evs
          /\ forallb (fun e => negb (is_rollback e)) evs = true
          /\ In (EvSql Store.Commit true) evs)
    /\ (forall pre book post e,
          books = pre ++ book :: post ->
          fst (saveBook env book sid
                 (loop_end env pre sid (begun env w, mkCounts 0 0)))
          = Throw e ->
          exists t,
            durable w'
            = fst (Store.exec t (Store.TouchSource sid) (durable w)))
    /\ (aborted (fst (loop_end env books sid (begun env w, mkCounts 0 0)))
        = false ->
        exists t,
          durable w'
          = fst (Store.exec t (Store.TouchSource sid)
                   (current (fst (loop_end env books sid
                                    (begun env w, mkCounts 0 0)))))).
Proof.
  intros HC.
  eexists. eexists. split; [apply saveBooks_run; exact HC|].
  split; [reflexivity|].
  set (s0 := (begun env w, mkCounts 0 0)).
  rewrite (committed_shape HC). cbn [txn durable trace].
  assert (T0 : txn (fst s0) <> None)
    by (unfold s0; cbn [fst]; rewrite (begun_shape HC); discriminate).
  split; [reflexivity|]. split; [|split].
  - destruct (loop_end_always no_rollback_refl no_rollback_trans
                (fun q Hq => no_rollback_data env q (book_is_data q Hq))
                books sid s0) as (evs & E & F).
    unfold s0 in E at 2. cbn [fst] in E. rewrite (begun_shape HC) in E.
    cbn [trace] in E.
    exists ([EvSql Store.Connect true; EvSql Store.Begin true] ++ evs
            ++ [EvSql Store.Commit true;
                EvSql (Store.TouchSource sid) true]).
    split; [|split].
    + rewrite E. rewrite <- !app_assoc. reflexivity.
    + rewrite !forallb_app, F. reflexivity.
    + apply in_or_app. right. apply in_or_app. right. now left.
  - intros pre book post e -> He.
    rewrite (raised_aborts_batch env pre post book sid s0 T0 He).
    destruct (@loop_end_private env (pre ++ book :: post) sid (fst s0)
                (snd s0) T0) as [_ Hd].
    change (fst s0, snd s0) with s0 in Hd.
    assert (Hb : durable (fst s0) = durable w)
      by (unfold s0; cbn [fst]; now rewrite (begun_shape HC)).
    eexists. rewrite Hd, Hb. reflexivity.
  - intros Hl. rewrite Hl. eexists. reflexivity.
Qed.

(* ====================================================================== *)
(** * The counters of [saveBooks] *)
(* ====================================================================== *)

(** C2 (counterexample).  With a store that refuses a long author name,
    the candidate [long_author] is inserted, counted, and then raises while
    its author is linked: the batch returns one added book although its
    only candidate failed. *)
Lemma saveBooks_counts_failed_candidate :
  fst (saveBook short_names_env long_author 1
         (begun short_names_env fresh_world, mkCounts 0 0))
  = Throw "value too long for type character varying(30)"
  /\ fst (saveBooks short_names_env [long_author] 1 fresh_world)
     = Ok (mkCounts 1 0).
Proof. split; vm_compute; reflexivity. Qed.

(** C2 (amended).  A candidate moves the counters by what its first two
    steps wrote: one more added book when the lookup found nothing and the
    insert went through, one more updated book when the lookup found a book
    and the update went through, nothing when the lookup or the write
    raised.  A candidate that is not counted has raised; a candidate that
    went through is counted once.  What happens while authors and
    categories are linked does not move the counters.  [saveBooks] returns
    the counters the loop ends with, at most one count per candidate. *)
Theorem saveBooks_counts_writes (env : Env) (books : list ScrapedBook)
    (sid : nat) (w : World) :
  (forall book w0 c,
      snd (snd (saveBook env book sid (w0, c)))
      = bump (write_outcome env book sid w0) c)
  /\ (forall book w0 c,
        write_outcome env book sid w0 = None ->
        exists e, fst (saveBook env book sid (w0, c)) = Throw e)
  /\ (forall book w0 c,
        fst (saveBook env book sid (w0, c)) = Ok tt ->
        write_outcome env book sid w0 <> None)
  /\ (forall id book s, snd (snd (linkSteps env id book s)) = snd s)
  /\ (control_accepted env sid ->
      fst (saveBooks env books sid w)
      = Ok (snd (loop_end env books sid (begun env w, mkCounts 0 0)))
      /\ added (snd (loop_end env books sid (begun env w, mkCounts 0 0)))
         + updated (snd (loop_end env books sid (begun env w, mkCounts 0 0)))
         <= length books).
Proof.
  split; [intros; apply saveBook_counts|].
  split; [intros; now apply saveBook_uncounted|].
  split.
  { intros book w0 c H E.
    destruct (saveBook_uncounted env book sid w0 c E) as [e He].
    congruence. }
  split; [intros; apply linkSteps_counts|].
  intros HC. split.
  - now rewrite (saveBooks_run books w HC).
  - apply (loop_end_bound env books sid (begun env w, mkCounts 0 0)).
Qed.

(* ====================================================================== *)
(** * The cascade at work *)
(* ====================================================================== *)

Section Accepting.

Variable env : Env.
Hypothesis HA : accepts_all env.

Lemma runs_live_liftW {L A} (m : M World A) :
  runs_live (fun w => w) m ->
  runs_live (fun s : World * L => fst s) (liftW m).
Proof. intros Hm [w l] H. rewrite liftW_run. apply (Hm w H). Qed.

Lemma findExisting_total (book : ScrapedBook) (w : World) :
  aborted w = false -> exists r, fst (findExisting env book w) = Ok r.
Proof. intros H. apply (findExisting_live HA book w H). Qed.

Lemma updateBook_total (id : nat) (book : ScrapedBook) (w : World) :
  aborted w = false -> exists r, fst (updateBook env id book w) = Ok r.
Proof. intros H. apply (updateBook_live HA id book w H). Qed.

Lemma insertBook_total (book : ScrapedBook) (sid : nat) (w : World) :
  aborted w = false -> exists r, fst (insertBook env book sid w) = Ok r.
Proof. intros H. apply (insertBook_live HA book sid w H). Qed.

Lemma accepts_control (sid : nat) : control_accepted env sid.
Proof. intros d. repeat split; apply HA. Qed.

Lemma accepts_book_stmts :
  forall q d, is_book_stmt q = true -> rejects env q d = None.
Proof. intros q d _. apply HA. Qed.

Lemma begun_live (w : World) : aborted (begun env w) = false.
Proof. now rewrite (begun_shape (accepts_control 0)). Qed.

Lemma write_outcome_accepting (book : ScrapedBook) (sid : nat) (w : World) :
  aborted w = false ->
  write_outcome env book sid w
  = Some (match spec_findBookId book (Store.books (current w)) with
          | Some _ => false
          | None => true
          end).
Proof.
  intros L. unfold write_outcome.
  destruct (findExisting_live HA book w L) as [[r Hr] L1].
  destruct (findExisting env book w) as [[r'|e] w1] eqn:E; simpl in Hr;
    [|discriminate Hr].
  cbn [snd] in L1.
  apply findExisting_ok in E as [-> _].
  destruct (spec_findBookId book (Store.books (current w))) as [id|].
  - destruct (updateBook_total id book w1 L1) as [[] Hu].
    destruct (updateBook env id book w1) as [[[]|e] w2]; simpl in Hu;
      [reflexivity|discriminate Hu].
  - destruct (insertBook_total book sid w1 L1) as [id Hi].
    destruct (insertBook env book sid w1) as [[id'|e] w2]; simpl in Hi;
      [reflexivity|discriminate Hi].
Qed.

(** Under a store that refuses nothing a candidate leaves no aborted
    transaction behind. *)
Lemma saveBook_live (book : ScrapedBook) (sid : nat) (s : SaveSt) :
  aborted (fst s) = false ->
  aborted (fst (snd (saveBook env book sid s))) = false.
Proof.
  intros H.
  exact (loop_end_live env [book] sid s accepts_book_stmts H).
Qed.

End Accepting.

Section InsertFacts.

Variable env : Env.

Lemma insertBook_ok (book : ScrapedBook) (sid : nat) (w w' : World)
    (id : nat) :
  insertBook env book sid w = (Ok id, w') ->
  exists r,
    Store.books (current w') = Store.books (current w) ++ [r]
    /\ Store.b_title r = title book.
Proof.
  unfold insertBook. intros H.
  apply bind_ok in H as (rows & w1 & Hq & H).
  apply clientQuery_data_ok in Hq as [-> Hc]; [|reflexivity].
  simpl in H. injection H as <- <-.
  rewrite Hc. simpl. eexists. split; [reflexivity|reflexivity].
Qed.

Lemma saveBook_inserted (book : ScrapedBook) (sid : nat) (w : World)
    (c : Counts) :
  write_outcome env book sid w = Some true ->
  exists r,
    In r (Store.books (current (fst (snd (saveBook env book sid (w, c))))))
    /\ Store.b_title r = title book.
Proof.
  rewrite saveBook_run. unfold write_outcome.
  destruct (findExisting env book w) as [[[id|]|e] w1]; simpl.
  - destruct (updateBook env id book w1) as [[[]|e] w2]; discriminate.
  - destruct (insertBook env book sid w1) as [[id|e] w2] eqn:E;
      [|discriminate].
    intros _. apply insertBook_ok in E as (r & Hb & Ht).
    exists r. split; [|exact Ht].
    destruct (linkSteps_always books_same_refl books_same_trans
                (books_same_link env) id book
                (w2, mkCounts (S (added c)) (updated c))) as [Hs _].
    unfold books_same in Hs. cbn [fst] in Hs.
    assert (Hin : In r (Store.books (current w2))).
    { rewrite Hb. apply in_or_app. right. now left. }
    exact (eq_ind_r (fun l => In r l) Hin Hs).
  - discriminate.
Qed.

Lemma title_only_match (book : ScrapedBook) (rows : list Store.BookRow)
    (r : Store.BookRow) :
  isbn book = None -> publication_year book = None ->
  Text.nonempty (title book) = true ->
  In r rows -> Store.b_title r = title book ->
  exists r0,
    find (fun x => String.eqb (Store.b_title x) (title book)) rows = Some r0
    /\ Store.b_title r0 = title book
    /\ spec_findBookId book rows = Some (Store.book_id r0).
Proof.
  intros Hi Hy Ht Hin He.
  unfold spec_findBookId, spec_by_isbn, spec_by_title_year, spec_by_title.
  rewrite Hi, Hy, Ht. simpl.
  destruct (find (fun x => String.eqb (Store.b_title x) (title book)) rows)
    as [r0|] eqn:F.
  - exists r0. apply find_some in F as [_ F]. apply String.eqb_eq in F.
    auto.
  - exfalso. apply (find_none _ _ F) in Hin.
    rewrite He, String.eqb_refl in Hin. discriminate Hin.
Qed.

End InsertFacts.

(** C3.  The lookup of an existing book is the three-rule cascade: when it
    returns, its result is the first match of the ISBN rule, else of the
    (title, publication_year) rule, else of the title rule, each rule
    applying only when the candidate has the key, and the database is as
    before.  A candidate with a title but neither ISBN nor year matches the
    first stored book of that title, whatever the ISBN of that book.  And
    when the store refuses nothing, a batch of two candidates of the same
    title, the first unknown to the catalog and the second without ISBN and
    year, ends with one added and one updated book. *)
Theorem findExisting_cascade (env : Env) :
  (forall book w r w',
      findExisting env book w = (Ok r, w') ->
      r = spec_findBookId book (Store.books (current w))
      /\ current w' = current w)
  /\ (forall book rows r,
        isbn book = None -> publication_year book = None ->
        Text.nonempty (title book) = true ->
        In r rows -> Store.b_title r = title book ->
        exists r0,
          find (fun x => String.eqb (Store.b_title x) (title book)) rows
          = Some r0
          /\ Store.b_title r0 = title book
          /\ spec_findBookId book rows = Some (Store.book_id r0))
  /\ (accepts_all env ->
      forall first second sid w,
        title second = title first ->
        Text.nonempty (title first) = true ->
        isbn second = None -> publication_year second = None ->
        spec_findBookId first (Store.books (durable w)) = None ->
        fst (saveBooks env [first; second] sid w) = Ok (mkCounts 1 1)).
Proof.
  split; [intros book w r w'; apply findExisting_ok|].
  split; [intros book rows r; apply title_only_match|].
  intros HA first second sid w Ht Hn Hi Hy Hnew.
  pose proof (accepts_control HA sid) as HC.
  rewrite (saveBooks_run [first; second] w HC). cbn [fst].
  unfold loop_end. cbn [fold_left].
  set (s0 := (begun env w, mkCounts 0 0)).
  assert (W1 : write_outcome env first sid (begun env w) = Some true).
  { rewrite (write_outcome_accepting HA) by apply (begun_live HA).
    rewrite (begun_shape HC). unfold current. cbn [txn].
    now rewrite Hnew. }
  destruct (saveBook_inserted env first sid (begun env w) (mkCounts 0 0) W1)
    as (r & Hr & Hrt).
  fold s0 in Hr.
  pose proof (saveBook_live HA first sid s0 (begun_live HA w)) as L1.
  destruct (saveBook env first sid s0) as [res [w1 c1]] eqn:E1.
  cbn [fst snd] in *.
  assert (C1 : c1 = mkCounts 1 0).
  { pose proof (saveBook_counts env first sid (begun env w) (mkCounts 0 0))
      as K.
    fold s0 in K. rewrite E1, W1 in K. exact K. }
  subst c1. rewrite saveBook_counts.
  rewrite (write_outcome_accepting HA) by exact L1.
  rewrite <- Ht in Hrt. rewrite <- Ht in Hn.
  destruct (title_only_match second (Store.books (current w1)) r
              Hi Hy Hn Hr Hrt) as (r0 & _ & _ & ->).
  reflexivity.
Qed.

(* ====================================================================== *)
(** * One run *)
(* ====================================================================== *)

Section SaveBooksAlways.

Variable env : Env.
Variable sid : nat.
Variable R : World -> World -> Prop.
Hypothesis R_refl : forall w, R w w.
Hypothesis R_trans : forall w1 w2 w3, R w1 w2 -> R w2 w3 -> R w1 w3.
Hypothesis R_book :
  forall q, is_book_stmt q = true -> always R (clientQuery env q).
Hypothesis R_begin : always R (clientQuery env Store.Begin).
Hypothesis R_commit : always R (clientQuery env Store.Commit).
Hypothesis R_rollback : always R (clientQuery env Store.Rollback).
Hypothesis R_touch : always R (clientQuery env (Store.TouchSource sid)).
Hypothesis R_connect : always R (poolQuery env Store.Connect).

Lemma always_withLocals {L A} (l0 : L) (m : M (World * L) A) :
  always (in_world R) m -> always R (withLocals l0 m).
Proof.
  intros H w. unfold withLocals. specialize (H (w, l0)).
  destruct (m (w, l0)) as [r s]. exact H.
Qed.

Lemma saveBooks_always (books : list ScrapedBook) :
  always R (saveBooks env books sid).
Proof.
  unfold saveBooks. apply always_bind; [exact R_trans|exact R_connect|].
  intros _. apply always_withLocals.
  apply always_try_catch; [apply in_world_trans; exact R_trans| |].
  - apply always_bind; [apply in_world_trans; exact R_trans| |].
    + apply on_world_in_world, always_liftW, R_begin.
    + intros _. apply always_bind; [apply in_world_trans; exact R_trans| |].
      * intros s. rewrite saveLoop_run. cbn [snd].
        now apply loop_end_always.
      * intros _.
        apply always_bind; [apply in_world_trans; exact R_trans| |].
        -- apply on_world_in_world, always_liftW, R_commit.
        -- intros _.
           apply always_bind; [apply in_world_trans; exact R_trans| |].
           ++ apply on_world_in_world, always_liftW, R_touch.
           ++ intros _ s. apply R_refl.
  - intros e. apply always_bind; [apply in_world_trans; exact R_trans| |].
    + apply on_world_in_world, always_liftW, R_rollback.
    + intros _ s. apply R_refl.
Qed.

End SaveBooksAlways.

Section LogFacts.

Variable env : Env.

Lemma logs_kept_refl (w : World) : logs_kept w w.
Proof. intros H. auto. Qed.

Lemma logs_kept_trans (w1 w2 w3 : World) :
  logs_kept w1 w2 -> logs_kept w2 w3 -> logs_kept w1 w3.
Proof.
  intros H1 H2 S1. destruct (H1 S1) as [S2 E2].
  destruct (H2 S2) as [S3 E3]. split; [exact S3|congruence].
Qed.

Lemma exec_keeps_logs (t : nat) (q : Store.Stmt) (d : Store.DB) :
  is_log_stmt q = false ->
  Store.scraping_logs (fst (Store.exec t q d)) = Store.scraping_logs d.
Proof. destruct q; simpl; intros H; try reflexivity; discriminate H. Qed.

Lemma logs_kept_client (q : Store.Stmt) :
  is_log_stmt q = false -> always logs_kept (clientQuery env q).
Proof.
  intros Hq. apply clientQuery_always; intros w Hs.
  - split; [exact Hs|reflexivity].
  - unfold logs_sync in *. simpl.
    rewrite txn_fail_stmt, durable_fail_stmt. split; [exact Hs|reflexivity].
  - unfold logs_sync in *.
    pose proof (exec_keeps_logs (clock w) q (current w) Hq) as K.
    destruct q; try discriminate Hq;
      simpl in *; unfold set_current, current, aborted in *;
      destruct (txn w); destruct (txn_failed w); simpl in *; split; auto;
      congruence.
Qed.

Lemma logs_kept_connect : always logs_kept (poolQuery env Store.Connect).
Proof.
  intros w Hs. unfold poolQuery.
  destruct (rejects env Store.Connect (durable w)); simpl;
    split; auto.
Qed.

Lemma saveBooks_keeps_logs (books : list ScrapedBook) (sid : nat) :
  always logs_kept (saveBooks env books sid).
Proof.
  apply saveBooks_always;
    try (apply logs_kept_client; reflexivity).
  - apply logs_kept_refl.
  - apply logs_kept_trans.
  - intros q Hq. apply logs_kept_client.
    destruct q; try reflexivity; discriminate Hq.
  - apply logs_kept_connect.
Qed.

End LogFacts.

Section RunFacts.

Variable env : Env.

Lemma poolQuery_ok (q : Store.Stmt) (w w' : World) (rows : list nat) :
  poolQuery env q w = (Ok rows, w') ->
  rows = snd (Store.exec (clock w) q (durable w))
  /\ durable w' = fst (Store.exec (clock w) q (durable w))
  /\ txn w' = txn w.
Proof.
  unfold poolQuery. destruct (rejects env q (durable w)); intros H.
  - discriminate H.
  - injection H as <- <-. auto.
Qed.

Lemma clientQuery_txn_none (q : Store.Stmt) (w : World) :
  is_data q = true -> txn w = None ->
  txn (snd (clientQuery env q w)) = None.
Proof.
  intros Hq Hw. unfold clientQuery.
  destruct (blocked q w); simpl; [exact Hw|].
  destruct (rejects env q (current w)); simpl;
    [now rewrite txn_fail_stmt|].
  rewrite after_stmt_data by exact Hq. unfold set_current.
  now rewrite Hw.
Qed.

Lemma getOrCreateSource_txn (name url : string) (w w' : World) (sid : nat) :
  getOrCreateSource env name url w = (Ok sid, w') ->
  txn w = None -> txn w' = None.
Proof.
  unfold getOrCreateSource. intros H Hw.
  apply bind_ok in H as (r0 & w0 & Hc & H).
  apply poolQuery_ok in Hc as (_ & _ & Ht0). rewrite <- Ht0 in Hw.
  rewrite rethrow_eq in H.
  apply bind_ok in H as (rows & w1 & Hq & H).
  assert (T1 : txn w1 = None).
  { replace w1 with (snd (clientQuery env (Store.SelectSourceByName name) w0))
      by now rewrite Hq.
    now apply clientQuery_txn_none. }
  destruct rows as [|id rows].
  - apply bind_ok in H as (rows2 & w2 & Hq2 & H).
    assert (T2 : txn w2 = None).
    { replace w2
        with (snd (clientQuery env (Store.InsertSource name url) w1))
        by now rewrite Hq2.
      now apply clientQuery_txn_none. }
    destruct rows2; simpl in H; [discriminate H|].
    injection H as _ <-. exact T2.
  - injection H as _ <-. exact T1.
Qed.

Lemma createScrapingLog_ok (sid : nat) (w w' : World) (lid : nat) :
  createScrapingLog env sid w = (Ok lid, w') ->
  (exists n, lid = S n)
  /\ (exists row,
        In row (Store.scraping_logs (durable w')) /\ Store.l_id row = lid)
  /\ txn w' = txn w.
Proof.
  unfold createScrapingLog. rewrite rethrow_eq. intros H.
  apply bind_ok in H as (rows & w1 & Hq & H).
  apply poolQuery_ok in Hq as (-> & Hd & Ht).
  simpl in H. injection H as <- <-.
  split; [eexists; reflexivity|]. split; [|exact Ht].
  rewrite Hd. simpl. eexists. split.
  - apply in_or_app. right. now left.
  - reflexivity.
Qed.

Hypothesis HU : log_updates_accepted env.

Lemma updateScrapingLog_total (lid : nat) (data : LogData) :
  total (updateScrapingLog env lid data).
Proof.
  unfold updateScrapingLog. apply total_rethrow.
  destruct (logUpdates data) as [|u us]; [apply total_ret|].
  apply total_bind; [|intros; apply total_ret].
  intros w. unfold poolQuery. rewrite HU. eexists. reflexivity.
Qed.

Lemma closeFailed_total (message : string) :
  total (closeFailed env message).
Proof.
  unfold closeFailed. apply total_bind; [intros s; now eexists|].
  intros l. apply total_bind; [|intros; apply total_ret].
  destruct (logId l) as [[|n]|]; try apply total_ret.
  apply total_bind; [intros [w l0]; rewrite liftW_run; now eexists|].
  intros t [w l0]. rewrite liftW_run.
  destruct (updateScrapingLog_total (S n)
              (mkLogData (Some t) None None (Some 1) (Some failed)
                 (Some message)) w) as [a Ha].
  exists a. exact Ha.
Qed.

Lemma scrapeAndSave_total (type : ScrapeType)
    (query name url : string) (sels : option CustomSelectors) :
  total (scrapeAndSave env type query name url sels).
Proof.
  intros w. unfold scrapeAndSave, withLocals.
  destruct (total_catch (runOnce env type query name url sels)
              (closeFailed env) closeFailed_total
              (w, mkRunLocals None None)) as [r Hr].
  destruct (try_catch _ _ _) as [res s]. exists r. exact Hr.
Qed.

Lemma closeFailed_run (message : string) (w : World) (n sid : nat) :
  exists w',
    closeFailed env message (w, mkRunLocals (Some (S n)) (Some sid))
    = (Ok (mkScrapingResult (S n) sid 0 0 1 failed (Some message)),
       (w', mkRunLocals (Some (S n)) (Some sid)))
    /\ Store.scraping_logs (durable w')
       = map (fun r =>
                if Store.l_id r =? S n
                then Store.apply_assigns
                       (logUpdates
                          (mkLogData (Some (clock w)) None None (Some 1)
                             (Some failed) (Some message))) r
                else r)
             (Store.scraping_logs (durable w)).
Proof.
  unfold closeFailed, bind, getLocal. cbn [fst snd logId].
  rewrite liftW_run. cbn [fst snd now]. rewrite liftW_run.
  unfold updateScrapingLog. rewrite rethrow_eq.
  unfold logUpdates. cbn [d_completed_at d_books_added d_books_updated
                           d_errors d_status d_error_details optList app].
  unfold bind, poolQuery. rewrite HU. cbn [fst snd ret].
  eexists. split; reflexivity.
Qed.

Lemma closed_failed_assigns (t : nat) (msg : string) (r : Store.LogRow) :
  closed_failed t msg
    (Store.apply_assigns
       (logUpdates (mkLogData (Some t) None None (Some 1) (Some failed)
                      (Some msg))) r).
Proof.
  unfold closed_failed, logUpdates, Store.apply_assigns. simpl.
  destruct (Text.nonempty msg); simpl; repeat split; auto; discriminate.
Qed.

Lemma runOnce_failed (type : ScrapeType) (query name url : string)
    (sels : option CustomSelectors) (w w1 w2 w3 : World)
    (sid lid : nat) (msg : string) :
  getOrCreateSource env name url w = (Ok sid, w1) ->
  createScrapingLog env sid w1 = (Ok lid, w2) ->
  (scrapeByType env type query sels = Throw msg /\ w3 = w2)
  \/ (exists books,
        scrapeByType env type query sels = Ok books
        /\ saveBooks env books sid w2 = (Throw msg, w3)) ->
  runOnce env type query name url sels (w, mkRunLocals None None)
  = (Throw msg, (w3, mkRunLocals (Some lid) (Some sid))).
Proof.
  intros Hs Hl Hf. unfold runOnce.
  erewrite bind_step; [|rewrite liftW_run, Hs; reflexivity].
  erewrite bind_step; [|reflexivity].
  cbn [fst snd logId sourceId].
  erewrite bind_step; [|rewrite liftW_run, Hl; reflexivity].
  erewrite bind_step; [|reflexivity].
  cbn [fst snd logId sourceId].
  destruct Hf as [[Ha ->]|(books & Ha & Hsave)]; rewrite Ha.
  - reflexivity.
  - erewrite bind_step; [|reflexivity].
    erewrite bind_fail; [reflexivity|].
    rewrite liftW_run, Hsave. reflexivity.
Qed.

End RunFacts.

(** C7 (counterexample).  The network is down and the store refuses the
    update of the log row: the adapter raises, the [catch] block raises in
    turn while closing the log, and the caller gets that exception. *)
Lemma scrapeAndSave_raises :
  fst (scrapeAndSave no_log_updates_env openlibrary "science" "Open Library"
         "https://openlibrary.org" None fresh_world)
  = Throw "could not update scraping_logs".
Proof. vm_compute. reflexivity. Qed.

(** C7 (amended).  As long as the store accepts the updates of the log
    table, a run returns a result and never raises.  If, after the source
    and the log row are there, the adapter or the batch save raises with
    message [msg], the result reports the ids of the log and the source,
    zero added, zero updated, one error, status failed and [msg]; and the
    log row of the run exists and is closed with one error, status failed,
    a completion time and, when [msg] is not empty, [msg] as details. *)
Theorem scrapeAndSave_reports_failure (env : Env) (type : ScrapeType)
    (query name url : string) (sels : option CustomSelectors) :
  log_updates_accepted env ->
  total (scrapeAndSave env type query name url sels)
  /\ forall w w1 w2 w3 sid lid msg,
       txn w = None ->
       getOrCreateSource env name url w = (Ok sid, w1) ->
       createScrapingLog env sid w1 = (Ok lid, w2) ->
       (scrapeByType env type query sels = Throw msg /\ w3 = w2)
       \/ (exists books,
             scrapeByType env type query sels = Ok books
             /\ saveBooks env books sid w2 = (Throw msg, w3)) ->
       exists w',
         scrapeAndSave env type query name url sels w
         = (Ok (mkScrapingResult lid sid 0 0 1 failed (Some msg)), w')
         /\ (exists row,
               In row (Store.scraping_logs (durable w'))
               /\ Store.l_id row = lid)
         /\ (forall row,
               In row (Store.scraping_logs (durable w')) ->
               Store.l_id row = lid ->
               closed_failed (clock w3) msg row).
Proof.
  intros HU. split; [now apply scrapeAndSave_total|].
  intros w w1 w2 w3 sid lid msg Hw Hs Hl Hf.
  pose proof (runOnce_failed env type query name url sels w Hs Hl Hf) as B.
  pose proof (getOrCreateSource_txn env name url w Hs Hw) as T1.
  destruct (createScrapingLog_ok env sid w1 Hl) as ([n ->] & (row & Hin & Hid) & T2).
  rewrite T1 in T2.
  assert (K : Store.scraping_logs (durable w3)
              = Store.scraping_logs (durable w2)).
  { destruct Hf as [[_ ->]|(books & _ & Hsave)]; [reflexivity|].
    pose proof (saveBooks_keeps_logs env books sid w2) as Hk.
    rewrite Hsave in Hk. cbn [snd] in Hk.
    apply Hk. unfold logs_sync. now rewrite T2. }
  destruct (closeFailed_run HU msg w3 n sid) as (w' & Hc & Hlogs).
  exists w'. split; [|split].
  - unfold scrapeAndSave, withLocals, try_catch. rewrite B, Hc. reflexivity.
  - rewrite Hlogs, K.
    exists (Store.apply_assigns
              (logUpdates (mkLogData (Some (clock w3)) None None (Some 1)
                             (Some failed) (Some msg))) row).
    split.
    + apply in_map_iff. exists row. rewrite Hid, Nat.eqb_refl. auto.
    + unfold logUpdates, Store.apply_assigns. simpl.
      destruct (Text.nonempty msg); simpl; exact Hid.
  - intros r Hr Hrid. rewrite Hlogs in Hr.
    apply in_map_iff in Hr as (r0 & <- & _).
    destruct (Store.l_id r0 =? S n) eqn:E.
    + apply closed_failed_assigns.
    + exfalso. apply Nat.eqb_neq in E. contradiction.
Qed.

(* ====================================================================== *)
(** * The batch driver *)
(* ====================================================================== *)

Section RunAlways.

Variable env : Env.
Variable R : World -> World -> Prop.
Hypothesis R_refl : forall w, R w w.
Hypothesis R_trans : forall w1 w2 w3, R w1 w2 -> R w2 w3 -> R w1 w3.
Hypothesis R_client : forall q, always R (clientQuery env q).
Hypothesis R_pool : forall q, always R (poolQuery env q).

Lemma getOrCreateSource_always (name url : string) :
  always R (getOrCreateSource env name url).
Proof.
  unfold getOrCreateSource.
  apply always_bind; [exact R_trans|apply R_pool|]. intros _.
  apply always_rethrow.
  apply always_bind; [exact R_trans|apply R_client|].
  intros [|id rows]; [|apply always_ret; exact R_refl].
  apply always_bind; [exact R_trans|apply R_client|].
  intros rows. apply always_firstRow. exact R_refl.
Qed.

Lemma createScrapingLog_always (sid : nat) :
  always R (createScrapingLog env sid).
Proof.
  unfold createScrapingLog. apply always_rethrow.
  apply always_bind; [exact R_trans|apply R_pool|].
  intros rows. apply always_firstRow. exact R_refl.
Qed.

Lemma updateScrapingLog_always (lid : nat) (data : LogData) :
  always R (updateScrapingLog env lid data).
Proof.
  unfold updateScrapingLog. apply always_rethrow.
  destruct (logUpdates data); [apply always_ret; exact R_refl|].
  apply always_bind; [exact R_trans|apply R_pool|].
  intros _. apply always_ret. exact R_refl.
Qed.

Lemma now_always : always R now.
Proof. intros w. apply R_refl. Qed.

Lemma liftRes_always {L A} (r : Res A) :
  always (in_world (L:=L) R) (liftRes r).
Proof. intros s. destruct r; apply R_refl. Qed.

Lemma scrapeAndSave_always (type : ScrapeType) (query name url : string)
    (sels : option CustomSelectors) :
  always R (scrapeAndSave env type query name url sels).
Proof.
  unfold scrapeAndSave. apply always_withLocals.
  apply always_try_catch; [apply in_world_trans; exact R_trans| |].
  - unfold runOnce.
    apply always_bind; [apply in_world_trans; exact R_trans| |].
    { apply on_world_in_world, always_liftW, getOrCreateSource_always. }
    intros sid.
    apply always_bind; [apply in_world_trans; exact R_trans| |].
    { apply always_setLocal. exact R_refl. }
    intros _.
    apply always_bind; [apply in_world_trans; exact R_trans| |].
    { apply on_world_in_world, always_liftW, createScrapingLog_always. }
    intros lid.
    apply always_bind; [apply in_world_trans; exact R_trans| |].
    { apply always_setLocal. exact R_refl. }
    intros _.
    apply always_bind; [apply in_world_trans; exact R_trans| |].
    { apply liftRes_always. }
    intros books.
    apply always_bind; [apply in_world_trans; exact R_trans| |].
    { apply on_world_in_world, always_liftW.
      apply saveBooks_always; auto. }
    intros c.
    apply always_bind; [apply in_world_trans; exact R_trans| |].
    { apply on_world_in_world, always_liftW, now_always. }
    intros t.
    apply always_bind; [apply in_world_trans; exact R_trans| |].
    { apply on_world_in_world, always_liftW, updateScrapingLog_always. }
    intros _ s. apply R_refl.
  - intros message. unfold closeFailed.
    apply always_bind; [apply in_world_trans; exact R_trans| |].
    { intros s. apply R_refl. }
    intros l.
    apply always_bind; [apply in_world_trans; exact R_trans| |].
    + destruct (logId l) as [[|n]|]; try (intros s; apply R_refl).
      apply always_bind; [apply in_world_trans; exact R_trans| |].
      { apply on_world_in_world, always_liftW, now_always. }
      intros t.
      apply on_world_in_world, always_liftW, updateScrapingLog_always.
    + intros _ s. apply R_refl.
Qed.

End RunAlways.

Section DriverFacts.

Variable env : Env.

Lemma delays_of_app (x y : list Event) :
  delays_of (x ++ y) = delays_of x ++ delays_of y.
Proof. unfold delays_of. apply flat_map_app. Qed.

Lemma delayed_refl (w : World) : delayed 0 w w.
Proof. exists []. split; [now rewrite app_nil_r|reflexivity]. Qed.

Lemma delayed_trans (j k : nat) (w1 w2 w3 : World) :
  delayed j w1 w2 -> delayed k w2 w3 -> delayed (j + k) w1 w3.
Proof.
  intros (x & E1 & D1) (y & E2 & D2). exists (x ++ y).
  split; [now rewrite E2, E1, app_assoc|].
  now rewrite delays_of_app, D1, D2, repeat_app.
Qed.

Lemma delayed_sql (q : Store.Stmt) (acc : bool) (w1 w2 : World) :
  trace w2 = trace w1 -> delayed 0 w1 (record (EvSql q acc) w2).
Proof.
  intros E. exists [EvSql q acc]. split; [simpl; now rewrite E|reflexivity].
Qed.

Lemma delayed_client (q : Store.Stmt) :
  always (delayed 0) (clientQuery env q).
Proof.
  apply clientQuery_always; intros w; apply delayed_sql;
    [reflexivity|apply trace_fail_stmt|apply trace_after_stmt].
Qed.

Lemma delayed_pool (q : Store.Stmt) : always (delayed 0) (poolQuery env q).
Proof.
  intros w. unfold poolQuery.
  destruct (rejects env q (durable w)); simpl; now apply delayed_sql.
Qed.

Lemma runSpec_quiet (source : SourceSpec) :
  always (delayed 0) (runSpec env source).
Proof.
  unfold runSpec. apply scrapeAndSave_always.
  - apply delayed_refl.
  - intros w1 w2 w3. apply (@delayed_trans 0 0).
  - apply delayed_client.
  - apply delayed_pool.
Qed.

Lemma scrapeLoop_run (rest : list SourceSpec) :
  forall i len s,
    scrapeLoop env i len rest s = (Ok tt, scrape_end env i len rest s).
Proof.
  induction rest as [|source rest IH]; intros i len [w rs];
    [reflexivity|].
  cbn [scrapeLoop scrape_end]. unfold bind at 1.
  assert (E : try_catch
                (result <- liftW (scrapeAndSave env (sp_type source)
                                    (sp_query source) (sp_sourceName source)
                                    (sp_baseUrl source)
                                    (sp_customSelectors source)) ;;
                 setLocal (fun results => results ++ [result]) ;;;
                 (if i <? len - 1 then liftW (delay 2000) else ret tt))
                (fun message =>
                   setLocal (fun results =>
                               results ++ [failedEntry message]))
                (w, rs)
              = (Ok tt, loop_step env i len source (w, rs))).
  { unfold try_catch, bind, loop_step, runSpec. rewrite liftW_run.
    cbn [fst snd].
    destruct (scrapeAndSave env (sp_type source) (sp_query source)
                (sp_sourceName source) (sp_baseUrl source)
                (sp_customSelectors source) w) as [[r|m] w1];
      cbn [fst snd]; [|reflexivity].
    unfold setLocal. cbn [fst snd].
    destruct (i <? len - 1); [|reflexivity].
    rewrite liftW_run. reflexivity. }
  rewrite E. apply IH.
Qed.

Lemma scrape_end_results (rest : list SourceSpec) :
  forall i len w rs,
    exists new,
      snd (scrape_end env i len rest (w, rs)) = rs ++ new
      /\ Forall2 (entry_of env) rest new.
Proof.
  induction rest as [|source rest IH]; intros i len w rs.
  - exists []. split; [simpl; now rewrite app_nil_r|constructor].
  - cbn [scrape_end]. unfold loop_step. cbn [fst snd].
    destruct (runSpec env source w) as [[r|m] w1] eqn:E.
    + destruct (IH (S i) len
                  (if i <? len - 1 then record (EvDelay 2000) w1 else w1)
                  (rs ++ [r])) as (new & Hn & HF).
      exists (r :: new). split; [now rewrite Hn, <- app_assoc|].
      constructor; [|exact HF]. exists w. left. now rewrite E.
    + destruct (IH (S i) len w1 (rs ++ [failedEntry m]))
        as (new & Hn & HF).
      exists (failedEntry m :: new).
      split; [now rewrite Hn, <- app_assoc|].
      constructor; [|exact HF]. exists w. right. exists m.
      now rewrite E.
Qed.

Lemma scrape_end_delays (rest : list SourceSpec) :
  forall i len s,
    i + length rest = len ->
    exists k,
      k <= length rest - 1
      /\ delayed k (fst s) (fst (scrape_end env i len rest s))
      /\ (log_updates_accepted env -> k = length rest - 1).
Proof.
  induction rest as [|source rest IH]; intros i len [w rs] Hlen.
  - exists 0. split; [simpl; lia|]. split; [apply delayed_refl|reflexivity].
  - cbn [scrape_end]. simpl in Hlen.
    destruct (IH (S i) len (loop_step env i len source (w, rs)))
      as (k & Hk & Hd & Hacc); [lia|].
    pose proof (runSpec_quiet source w) as Q.
    assert (Hlast : (i <? len - 1) = negb (length rest =? 0)).
    { destruct (length rest) eqn:El; simpl.
      - apply Nat.ltb_ge. lia.
      - apply Nat.ltb_lt. lia. }
    unfold loop_step in *. cbn [fst snd] in *.
    destruct (runSpec env source w) as [[r|m] w1] eqn:E; cbn [fst snd] in *.
    + rewrite Hlast in *. destruct (length rest) as [|n] eqn:El.
      * exists k. simpl in *. split; [lia|]. split.
        -- apply (@delayed_trans 0 k _ w1); [exact Q|exact Hd].
        -- intros HU. specialize (Hacc HU). lia.
      * exists (S k). simpl in *. split; [lia|]. split.
        -- apply (@delayed_trans 1 k _ (record (EvDelay 2000) w1));
             [|exact Hd].
           apply (@delayed_trans 0 1 _ w1); [exact Q|].
           exists [EvDelay 2000]. split; reflexivity.
        -- intros HU. specialize (Hacc HU). lia.
    + exists k. split; [simpl; lia|]. split.
      * apply (@delayed_trans 0 k _ w1); [exact Q|exact Hd].
      * intros HU. exfalso.
        destruct (scrapeAndSave_total HU (sp_type source) (sp_query source)
                    (sp_sourceName source) (sp_baseUrl source)
                    (sp_customSelectors source) w) as [r Hr].
        unfold runSpec in E. rewrite E in Hr. discriminate Hr.
Qed.

End DriverFacts.

(** C8 (counterexample).  Two entries, the network down and a store that
    refuses the update of the log row: both runs raise, both are turned
    into failed entries, and no wait separates the first run from the
    second; what comes back is the list of the two entries and nothing
    else. *)
Lemma scrapeMultipleSources_no_wait_after_exception :
  fst (scrapeMultipleSources no_log_updates_env
         [gutenberg_spec; gutenberg_spec] fresh_world)
  = Ok [failedEntry "could not update scraping_logs";
        failedEntry "could not update scraping_logs"]
  /\ delays_of
       (trace (snd (scrapeMultipleSources no_log_updates_env
                      [gutenberg_spec; gutenberg_spec] fresh_world)))
     = [].
Proof. split; vm_compute; reflexivity. Qed.

(** C8 (amended).  The driver never raises.  It takes the entries one
    after the other, each from the world its predecessor left
    ([scrape_end]: a run that returns pushes its result and, unless it is
    the last, is followed by a wait of two seconds; a run that raises
    pushes a failed entry).  It returns one result per entry, in the order
    of the entries, each the result of a run of its entry or the failed
    entry of its exception.  There are at most [length sources - 1] waits,
    all of two seconds, and exactly that many when the store accepts the
    log updates.  The totals are put in the printed summary; the value
    returned is the list of results alone. *)
Theorem scrapeMultipleSources_isolates (env : Env)
    (sources : list SourceSpec) (w : World) :
  exists results wL,
    scrapeMultipleSources env sources w
    = (Ok results, record (summary (length sources) results) wL)
    /\ (wL, results) = scrape_end env 0 (length sources) sources (w, [])
    /\ length results = length sources
    /\ Forall2 (entry_of env) sources results
    /\ exists k,
         k <= length sources - 1
         /\ delayed k w wL
         /\ (log_updates_accepted env -> k = length sources - 1).
Proof.
  destruct (scrape_end env 0 (length sources) sources (w, []))
    as [wL results] eqn:E.
  exists results, wL.
  destruct (scrape_end_results env sources 0 (length sources) w [])
    as (new & Hn & HF).
  rewrite E in Hn. simpl in Hn. subst new.
  split; [|split; [reflexivity|split; [|split; [exact HF|]]]].
  - unfold scrapeMultipleSources, withLocals, bind.
    rewrite scrapeLoop_run, E. cbn [getLocal fst snd].
    rewrite liftW_run. reflexivity.
  - symmetry. eapply Forall2_length. exact HF.
  - destruct (@scrape_end_delays env sources 0 (length sources) (w, [])
                eq_refl) as (k & Hk & Hd & Hacc).
    rewrite E in Hd. exists k. auto.
Qed.

(* ====================================================================== *)
(** * The properties at work on concrete catalogs *)
(* ====================================================================== *)

Lemma short_names_control : control_accepted short_names_env 1.
Proof. intros d. repeat split. Qed.

Lemma quiet_accepts_all : accepts_all quiet_env.
Proof. intros q d. reflexivity. Qed.

Lemma quiet_log_updates : log_updates_accepted quiet_env.
Proof. intros u id d. reflexivity. Qed.

(** C1 (at the failing input).  "Dune" goes through; then comes a
    candidate whose author name the store refuses.  The batch returns two
    added books, and the committed catalog is empty: "Dune" is lost. *)
Lemma saveBooks_failure_loses_batch_witness :
  fst (saveBooks short_names_env [dune; long_author] 1 fresh_world)
  = Ok (mkCounts 2 0)
  /\ fst (saveBook short_names_env dune 1
           (begun short_names_env fresh_world, mkCounts 0 0))
     = Ok tt
  /\ Store.books
       (durable (snd (saveBooks short_names_env [dune; long_author] 1
                        fresh_world)))
     = [].
Proof.
  destruct (saveBooks_failure_loses_batch [dune; long_author] fresh_world
              short_names_control)
    as (c & w' & E & Hc & _ & _ & Hlost & _).
  rewrite E. cbn [fst snd].
  split; [rewrite Hc; vm_compute; reflexivity|].
  split; [vm_compute; reflexivity|].
  destruct (Hlost [dune] long_author []
              "value too long for type character varying(30)" eq_refl)
    as [t Ht].
  { vm_compute. reflexivity. }
  rewrite Ht. reflexivity.
Defined.

(** C2 (witness).  The counters of that batch are those of its loop. *)
Lemma saveBooks_counts_writes_witness :
  fst (saveBooks short_names_env [long_author; dune] 1 fresh_world)
  = Ok (snd (loop_end short_names_env [long_author; dune] 1
               (begun short_names_env fresh_world, mkCounts 0 0))).
Proof.
  exact (proj1 (proj2 (proj2 (proj2 (proj2
           (saveBooks_counts_writes short_names_env [long_author; dune] 1
              fresh_world)))) short_names_control)).
Defined.

(** C3 (witness).  "Dune" with its ISBN, then "Dune" with neither ISBN nor
    year, into an empty catalog: one added, one updated. *)
Lemma findExisting_cascade_witness :
  fst (saveBooks quiet_env [dune; dune_again] 1 fresh_world)
  = Ok (mkCounts 1 1).
Proof.
  apply (proj2 (proj2 (findExisting_cascade quiet_env)) quiet_accepts_all);
    vm_compute; reflexivity.
Defined.

(** C4 (witness).  The candidate has no publisher; the stored one stays. *)
Lemma updateBook_merges_witness :
  Forall2
    (fun r r' =>
       if Store.book_id r =? 1
       then merged (clock acme_world) dune_again r r' /\ never_erased r r'
       else r' = r)
    (Store.books (current acme_world))
    (Store.books (current (snd (updateBook quiet_env 1 dune_again
                                  acme_world)))).
Proof.
  apply (updateBook_merges quiet_env 1 dune_again acme_world).
  vm_compute. reflexivity.
Defined.

(** C5 (witness).  Relinking twice with the same list. *)
Lemma relinkAuthors_replaces_witness :
  current
    (snd (relinkAuthors quiet_env 1 ["Frank Herbert"; " "; "Brian Herbert"]
            (snd (relinkAuthors quiet_env 1
                    ["Frank Herbert"; " "; "Brian Herbert"] fresh_world))))
  = current
      (snd (relinkAuthors quiet_env 1
              ["Frank Herbert"; " "; "Brian Herbert"] fresh_world)).
Proof.
  assert (H1 : relinkAuthors quiet_env 1
                 ["Frank Herbert"; " "; "Brian Herbert"] fresh_world
               = (Ok tt,
                  snd (relinkAuthors quiet_env 1
                         ["Frank Herbert"; " "; "Brian Herbert"]
                         fresh_world)))
    by (vm_compute; reflexivity).
  apply (proj2 (proj2 (proj1 (relinkAuthors_replaces _ _ _ _) _ H1))).
  vm_compute. reflexivity.
Defined.

(** C6 (witness).  Science is linked after Fiction; Fiction stays. *)
Lemma relinkCategories_additive_witness :
  exists c,
    category_of
      (current (snd (relinkCategories quiet_env 1 ["Science"]
                       (snd (relinkCategories quiet_env 1 ["Fiction"]
                               fresh_world)))))
      "Fiction" = Some c
    /\ In (Store.mkBookCategoryRow 1 c)
          (Store.book_categories
             (current (snd (relinkCategories quiet_env 1 ["Science"]
                              (snd (relinkCategories quiet_env 1 ["Fiction"]
                                      fresh_world)))))).
Proof.
  refine (proj2 (proj2 (proj2 (proj2
            (relinkCategories_additive quiet_env 1 ["Fiction"] fresh_world))
            quiet_accepts_all eq_refl) ["Science"]) "Fiction" _ _).
  - left. reflexivity.
  - vm_compute. reflexivity.
Defined.

(** C7 (witness).  The network is down, the store accepts everything: the
    run returns a result. *)
Lemma scrapeAndSave_reports_failure_witness :
  exists r,
    fst (scrapeAndSave quiet_env openlibrary "science" "Open Library"
           "https://openlibrary.org" None fresh_world) = Ok r.
Proof.
  exact (proj1 (scrapeAndSave_reports_failure openlibrary
                  "science" "Open Library" "https://openlibrary.org" None
                  quiet_log_updates) fresh_world).
Defined.

(** C8 (witness).  Two entries with the network down and a store that
    accepts everything: two results, one wait. *)
Lemma scrapeMultipleSources_isolates_witness :
  exists results wL,
    scrapeMultipleSources quiet_env [gutenberg_spec; gutenberg_spec]
      fresh_world
    = (Ok results, record (summary 2 results) wL)
    /\ length results = 2
    /\ delayed 1 fresh_world wL.
Proof.
  destruct (scrapeMultipleSources_isolates quiet_env
              [gutenberg_spec; gutenberg_spec] fresh_world)
    as (results & wL & E & _ & L & _ & k & _ & D & K).
  exists results, wL. split; [exact E|]. split; [exact L|].
  rewrite (K quiet_log_updates) in D. exact D.
Defined.

(** C9 (witness).  The year of a date. *)
Lemma extractYear_first_window_witness :
  match Text.extractYear (Some "May 1965") with
  | Some y =>
      exists i,
        Text.window4_at (list_ascii_of_string "May 1965") i
        /\ (forall j,
              j < i -> ~ Text.window4_at (list_ascii_of_string "May 1965") j)
        /\ y = Text.window4_val (list_ascii_of_string "May 1965") i
  | None => forall i, ~ Text.window4_at (list_ascii_of_string "May 1965") i
  end.
Proof. exact (proj2 (extractYear_first_window "May 1965")). Defined.

(** C10 (witness).  A work that is really called "Unknown Title". *)
Lemma adapters_discard_unknown_title_witness :
  yield (parseWork "science" unknown_work) = [].
Proof.
  apply (proj1 (proj2 (adapters_discard_unknown_title quiet_env))).
  vm_compute. reflexivity.
Defined.

(** ** The scenarios of the specification, run *)

Example acme_stays :
  map Store.b_publisher
    (Store.books (current (snd (updateBook quiet_env 1 dune_again
                                  acme_world))))
  = [Some "Acme"].
Proof. vm_compute. reflexivity. Qed.

Example authors_in_order :
  links_of 1
    (current (snd (relinkAuthors quiet_env 1
                     ["Frank Herbert"; " "; "Brian Herbert"] fresh_world)))
  = [Store.mkBookAuthorRow 1 1 1; Store.mkBookAuthorRow 1 2 3].
Proof. vm_compute. reflexivity. Qed.

(** C5 (counterexample).  Two non-blank names, one author: relinking goes
    through and the book has one row, at position 2, not a row per name. *)
Lemma relinkAuthors_repeated_name :
  length (filter nonblank ["Ann"; "Ann"]) = 2
  /\ fst (relinkAuthors quiet_env 1 ["Ann"; "Ann"] fresh_world) = Ok tt
  /\ links_of 1
       (current (snd (relinkAuthors quiet_env 1 ["Ann"; "Ann"] fresh_world)))
     = [Store.mkBookAuthorRow 1 1 2].
Proof.
  split; [vm_compute; reflexivity|].
  split; vm_compute; reflexivity.
Qed.

Example repeated_name_keeps_last_position :
  links_of 1
    (current (snd (relinkAuthors quiet_env 1 ["Ann"; " Ann"] fresh_world)))
  = [Store.mkBookAuthorRow 1 1 2].
Proof. vm_compute. reflexivity. Qed.

Example fiction_and_science :
  Store.book_categories
    (current (snd (relinkCategories quiet_env 1 ["Science"]
                     (snd (relinkCategories quiet_env 1 ["Fiction"]
                             fresh_world)))))
  = [Store.mkBookCategoryRow 1 1; Store.mkBookCategoryRow 1 2].
Proof. vm_compute. reflexivity. Qed.

Example offline_run_is_failed :
  fst (scrapeAndSave quiet_env openlibrary "science" "Open Library"
         "https://openlibrary.org" None fresh_world)
  = Ok (mkScrapingResult 1 1 0 0 1 failed
          (Some "Open Library scraping failed: ECONNREFUSED")).
Proof. vm_compute. reflexivity. Qed.

Example one_wait_between_two_runs :
  delays_of
    (trace (snd (scrapeMultipleSources quiet_env
                   [gutenberg_spec; gutenberg_spec] fresh_world)))
  = [2000].
Proof. vm_compute. reflexivity. Qed.

Example bad_record_loses_batch :
  saveBooks short_names_env [dune; long_author] 1 fresh_world
  = (Ok (mkCounts 2 0),
     snd (saveBooks short_names_env [dune; long_author] 1 fresh_world))
  /\ Store.books
       (durable (snd (saveBooks short_names_env [dune; long_author] 1
                        fresh_world)))
     = []
  /\ Store.authors_tbl
       (durable (snd (saveBooks short_names_env [dune; long_author] 1
                        fresh_world)))
     = [].
Proof.
  split; [vm_compute; reflexivity|]. split; vm_compute; reflexivity.
Qed.

Example bad_record_blocks_the_rest :
  fst (saveBooks short_names_env [long_author; dune] 1 fresh_world)
  = Ok (mkCounts 1 0)
  /\ fst (saveBook short_names_env dune 1
           (loop_end short_names_env [long_author] 1
              (begun short_names_env fresh_world, mkCounts 0 0)))
     = Throw IN_FAILED_TRANSACTION.
Proof. split; vm_compute; reflexivity. Qed.

(* ====================================================================== *)
(** * Further properties: the text utilities *)
(* ====================================================================== *)

Section CleanFacts.

Import Text.

Lemma dropWhile_hd (l : list ascii) (d : ascii) :
  is_space d = false -> is_space (hd d (dropWhile is_space l)) = false.
Proof.
  intros Hd. induction l as [|c r IH]; simpl; [exact Hd|].
  destruct (is_space c) eqn:E; [exact IH|exact E].
Qed.

Lemma dropWhile_id (l : list ascii) (d : ascii) :
  l <> [] -> is_space (hd d l) = false -> dropWhile is_space l = l.
Proof.
  destruct l as [|c r]; [congruence|]. simpl. now intros _ ->.
Qed.

Lemma take_drop {A} (p : A -> bool) (l : list A) :
  l = takeWhile p l ++ dropWhile p l.
Proof.
  induction l as [|x r IH]; simpl; [reflexivity|].
  destruct (p x); simpl; [now f_equal|reflexivity].
Qed.

Lemma takeWhile_all {A} (p : A -> bool) (l : list A) :
  forallb p (takeWhile p l) = true.
Proof.
  induction l as [|x r IH]; simpl; [reflexivity|].
  destruct (p x) eqn:E; simpl; [now rewrite E|reflexivity].
Qed.

Lemma dropWhile_all {A} (p : A -> bool) (l : list A) :
  dropWhile p l = [] <-> forallb p l = true.
Proof.
  induction l as [|x r IH]; simpl; [tauto|].
  destruct (p x); simpl; [exact IH|]. split; discriminate.
Qed.

(** [trimEnd] cuts a suffix of white space. *)
Lemma trimEnd_prefix (l : list ascii) :
  exists t, l = trimEnd l ++ t /\ forallb is_space t = true.
Proof.
  unfold trimEnd. exists (rev (takeWhile is_space (rev l))). split.
  - rewrite <- rev_app_distr, <- take_drop. now rewrite rev_involutive.
  - rewrite forallb_forall. intros x Hx. apply in_rev in Hx.
    pose proof (takeWhile_all is_space (rev l)) as H.
    rewrite forallb_forall in H. now apply H.
Qed.

Lemma last_rev {A} (l : list A) (d : A) : last (rev l) d = hd d l.
Proof.
  destruct l as [|x r]; [reflexivity|]. simpl. apply last_last.
Qed.

Lemma trimEnd_last (l : list ascii) (d : ascii) :
  is_space d = false -> is_space (last (trimEnd l) d) = false.
Proof.
  intros Hd. unfold trimEnd. rewrite last_rev. now apply dropWhile_hd.
Qed.

Lemma trimEnd_hd (l : list ascii) (d : ascii) :
  trimEnd l <> [] -> hd d (trimEnd l) = hd d l.
Proof.
  intros H. destruct (trimEnd_prefix l) as (t & E & _).
  rewrite E at 2. destruct (trimEnd l); [congruence|reflexivity].
Qed.

Lemma last_cons_cons {A} (x y : A) (r : list A) (d : A) :
  last (x :: y :: r) d = last (y :: r) d.
Proof. reflexivity. Qed.

(** Collapsing a text that does not end in white space. *)
Lemma collapse_single (z : list ascii) :
  forall b,
    is_space (last z "x"%char) = false ->
    (z = [] -> b = false) ->
    single_blanks b (collapse_aux b z) = true.
Proof.
  induction z as [|c r IH]; intros b Hl Hb.
  - simpl. now rewrite (Hb eq_refl).
  - cbn [collapse_aux]. destruct (is_space c) eqn:Ec.
    + destruct r as [|c' r'].
      { simpl in Hl. congruence. }
      rewrite last_cons_cons in Hl.
      destruct b.
      * apply IH; [exact Hl|discriminate].
      * cbn [single_blanks]. replace (is_space " ") with true by reflexivity.
        simpl. apply IH; [exact Hl|discriminate].
    + cbn [single_blanks]. rewrite Ec. apply IH.
      * destruct r; [reflexivity|exact Hl].
      * reflexivity.
Qed.

Lemma single_collapse (l : list ascii) :
  forall b, single_blanks b l = true -> collapse_aux b l = l.
Proof.
  induction l as [|c r IH]; intros b H; [reflexivity|].
  cbn [single_blanks collapse_aux] in *.
  destruct (is_space c) eqn:Ec.
  - apply andb_true_iff in H as [H H3]. apply andb_true_iff in H as [H1 H2].
    destruct b; [discriminate H1|].
    apply Ascii.eqb_eq in H2. subst c. f_equal. now apply IH.
  - f_equal. now apply IH.
Qed.

Lemma single_last (l : list ascii) :
  forall b, single_blanks b l = true -> is_space (last l "x"%char) = false.
Proof.
  induction l as [|c r IH]; intros b H; [reflexivity|].
  cbn [single_blanks] in H. destruct (is_space c) eqn:Ec.
  - apply andb_true_iff in H as [_ H3].
    destruct r as [|c' r']; [discriminate H3|].
    rewrite last_cons_cons. now apply (IH true).
  - destruct r as [|c' r']; [exact Ec|].
    rewrite last_cons_cons. now apply (IH false).
Qed.

Lemma single_hd (l : list ascii) :
  single_blanks true l = true -> is_space (hd "x"%char l) = false.
Proof.
  destruct l as [|c r]; [reflexivity|]. simpl.
  destruct (is_space c); [discriminate|reflexivity].
Qed.

Lemma trimEnd_id (l : list ascii) :
  l <> [] -> is_space (last l "x"%char) = false -> trimEnd l = l.
Proof.
  intros Hn Hl. unfold trimEnd.
  rewrite (@dropWhile_id (rev l) "x"%char).
  - apply rev_involutive.
  - intros E. apply Hn. now rewrite <- (rev_involutive l), E.
  - now rewrite <- last_rev, rev_involutive.
Qed.

Lemma trimmed_collapsed (x : list ascii) :
  let l := collapse_aux false (trimEnd (trimStart x)) in
  l = [] \/ single_blanks true l = true.
Proof.
  cbv zeta. set (z := trimEnd (trimStart x)).
  destruct z as [|c r] eqn:Ez; [now left|]. right.
  assert (Hh : is_space c = false).
  { change c with (hd "x"%char (c :: r)). rewrite <- Ez. unfold z.
    rewrite trimEnd_hd by (fold z; rewrite Ez; discriminate).
    now apply dropWhile_hd. }
  assert (Hl : is_space (last (c :: r) "x"%char) = false).
  { rewrite <- Ez. now apply trimEnd_last. }
  cbn [collapse_aux single_blanks]. rewrite Hh.
  cbn [single_blanks]. rewrite Hh.
  apply collapse_single; [|reflexivity].
  destruct r; [reflexivity|exact Hl].
Qed.

Lemma clean_list_fixed (l : list ascii) :
  l <> [] -> single_blanks true l = true ->
  collapse_aux false (trimEnd (trimStart l)) = l.
Proof.
  intros Hn H. unfold trimStart.
  rewrite (@dropWhile_id l "x"%char Hn (@single_hd l H)).
  rewrite (@trimEnd_id l Hn (@single_last l true H)).
  destruct l as [|c r]; [congruence|].
  cbn [single_blanks collapse_aux] in *.
  destruct (is_space c); [discriminate H|].
  f_equal. now apply single_collapse.
Qed.

Lemma nonempty_list (s : string) :
  nonempty s = true <-> list_ascii_of_string s <> [].
Proof. destruct s; simpl; split; congruence. Qed.

Lemma is_clean_list (l : list ascii) :
  l = [] \/ single_blanks true l = true ->
  is_clean (string_of_list_ascii l) = true.
Proof.
  intros [->|H]; [reflexivity|].
  destruct l as [|c r]; [reflexivity|].
  unfold is_clean. cbn [string_of_list_ascii].
  change (String c (string_of_list_ascii r))
    with (string_of_list_ascii (c :: r)).
  now rewrite list_ascii_of_string_of_list_ascii.
Qed.

End CleanFacts.

Lemma cleanText_clean (t : option string) (s : string) :
  Text.cleanText t = Some s ->
  is_clean s = true
  /\ (Text.nonempty s = true -> Text.cleanText (Some s) = Some s).
Proof.
  unfold Text.cleanText. destruct t as [x|]; [|discriminate].
  destruct (Text.nonempty x); [|discriminate].
  intros H. injection H as <-.
  unfold Text.collapse, Text.trim.
  rewrite list_ascii_of_string_of_list_ascii.
  pose proof (trimmed_collapsed (list_ascii_of_string x)) as C.
  cbv zeta in C.
  set (l := Text.collapse_aux false
              (Text.trimEnd (Text.trimStart (list_ascii_of_string x)))) in *.
  split; [now apply is_clean_list|].
  intros Hn. rewrite Hn. f_equal.
  rewrite !list_ascii_of_string_of_list_ascii.
  apply nonempty_list in Hn.
  rewrite list_ascii_of_string_of_list_ascii in Hn.
  destruct C as [C|C]; [contradiction|].
  now rewrite (@clean_list_fixed l Hn C).
Qed.

(** X1.  What [cleanText] returns is clean: no white space at either end,
    and single blanks as the only white space inside.  Cleaning a text that
    is clean and not empty gives the same text back. *)
Theorem cleanText_normal_form (t : option string) (s : string) :
  Text.cleanText t = Some s ->
  is_clean s = true
  /\ (Text.nonempty s = true -> Text.cleanText (Some s) = Some s).
Proof. apply cleanText_clean. Qed.

Lemma clean_trim (s : string) :
  Text.nonempty s = true -> is_clean s = true -> Text.trim s = s.
Proof.
  intros Hn Hc. unfold Text.trim.
  assert (L : list_ascii_of_string s <> []) by now apply nonempty_list.
  assert (S1 : single_blanks true (list_ascii_of_string s) = true).
  { destruct s; [discriminate Hn|exact Hc]. }
  unfold Text.trimStart.
  rewrite (@dropWhile_id _ "x"%char L (@single_hd _ S1)).
  rewrite (@trimEnd_id _ L (@single_last _ true S1)).
  apply string_of_list_ascii_of_string.
Qed.

Lemma trim_trim (s : string) : Text.trim (Text.trim s) = Text.trim s.
Proof.
  unfold Text.trim. rewrite list_ascii_of_string_of_list_ascii.
  set (l := Text.trimEnd (Text.trimStart (list_ascii_of_string s))).
  destruct l as [|c r] eqn:E; [reflexivity|]. rewrite <- E. f_equal.
  assert (Hn : l <> []) by (rewrite E; discriminate).
  assert (Hh : Text.is_space (hd "x"%char l) = false).
  { unfold l. rewrite trimEnd_hd by exact Hn. now apply dropWhile_hd. }
  assert (Hl : Text.is_space (last l "x"%char) = false).
  { unfold l. now apply trimEnd_last. }
  unfold Text.trimStart. rewrite (@dropWhile_id l "x"%char Hn Hh).
  now apply trimEnd_id.
Qed.

Section BlankFacts.

Import Text.

Lemma forallb_rev {A} (p : A -> bool) (l : list A) :
  forallb p (rev l) = forallb p l.
Proof.
  destruct (forallb p l) eqn:E.
  - rewrite forallb_forall in *. intros x Hx. apply E. now apply in_rev.
  - destruct (forallb p (rev l)) eqn:E'; [|reflexivity].
    rewrite <- E. symmetry. rewrite forallb_forall in *.
    intros x Hx. apply E'. now apply in_rev in Hx.
Qed.

Lemma collapse_nil (z : list ascii) :
  collapse_aux false z = [] <-> z = [].
Proof.
  destruct z as [|c r]; [tauto|]. simpl.
  destruct (is_space c); split; discriminate.
Qed.

Lemma trimEnd_nil (y : list ascii) :
  trimEnd y = [] <-> forallb is_space y = true.
Proof.
  unfold trimEnd. rewrite <- (forallb_rev is_space y), <- dropWhile_all.
  split; intros H; [|now rewrite H].
  now rewrite <- (rev_involutive (dropWhile is_space (rev y))), H.
Qed.

Lemma trimStart_all (x : list ascii) :
  forallb is_space (trimStart x) = forallb is_space x.
Proof.
  unfold trimStart. induction x as [|c r IH]; [reflexivity|]. simpl.
  destruct (is_space c) eqn:E; simpl; [exact IH|now rewrite E].
Qed.

Lemma string_of_list_nil (l : list ascii) :
  string_of_list_ascii l = "" <-> l = [].
Proof. destruct l; simpl; split; congruence. Qed.

End BlankFacts.

(** X2.  [cleanText] gives nothing exactly for a missing or empty text.
    For a text that is not empty it gives the empty string exactly when
    the text is white space throughout: a result can be present and empty,
    which is why the callers go on with [|| 'Unknown Title'] and
    [filter(Boolean)]. *)
Theorem cleanText_blank (t : option string) :
  (Text.cleanText t = None <-> t = None \/ t = Some "")
  /\ forall s,
       t = Some s -> Text.nonempty s = true ->
       (Text.cleanText t = Some "" <-> all_space s = true).
Proof.
  split.
  - unfold Text.cleanText. destruct t as [[|c s]|]; simpl.
    + split; auto.
    + split; [discriminate|]. intros [H|H]; discriminate H.
    + split; auto.
  - intros s -> Hs. unfold Text.cleanText. rewrite Hs.
    unfold Text.collapse, Text.trim, all_space.
    rewrite list_ascii_of_string_of_list_ascii.
    rewrite <- trimStart_all, <- trimEnd_nil, <- collapse_nil.
    rewrite <- string_of_list_nil.
    split; intros H; [now injection H|now rewrite H].
Qed.

Section YearFacts.

Import Text.

Lemma digit_val_range (c : ascii) :
  is_digit c = true -> (0 <= digit_val c <= 9)%Z.
Proof.
  unfold is_digit, digit_val. intros H.
  apply andb_true_iff in H as [H1 H2].
  apply Nat.leb_le in H1, H2. lia.
Qed.

Lemma match_d4_digits (l m : list ascii) :
  match_d4 l = Some m ->
  exists a b c d,
    m = [a; b; c; d] /\ four_digits a b c d = true.
Proof.
  induction l as [|a t IH]; [discriminate|]. cbn [match_d4].
  destruct t as [|b [|c [|d rest]]]; try discriminate.
  destruct (four_digits a b c d) eqn:E.
  - intros H. injection H as <-. exists a, b, c, d. auto.
  - exact IH.
Qed.

End YearFacts.

(** X3.  A year that [extractYear] returns lies between 0 and 9999: the
    function never gives a negative number or one of more than four
    digits, and it checks nothing else about the value. *)
Theorem extractYear_range (dateString : option string) (y : Z) :
  Text.extractYear dateString = Some y -> (0 <= y <= 9999)%Z.
Proof.
  unfold Text.extractYear. destruct dateString as [s|]; [|discriminate].
  destruct (Text.nonempty s); [|discriminate].
  destruct (Text.match_d4 (list_ascii_of_string s)) as [m|] eqn:E;
    [|discriminate].
  intros H. injection H as <-.
  apply match_d4_digits in E as (a & b & c & d & -> & Hd).
  unfold Text.four_digits in Hd.
  apply andb_true_iff in Hd as [Hd H4].
  apply andb_true_iff in Hd as [Hd H3].
  apply andb_true_iff in Hd as [H1 H2].
  apply digit_val_range in H1, H2, H3, H4.
  unfold Text.parseInt. simpl. lia.
Qed.

Lemma cleanText_normal_form_witness :
  is_clean "Dune Messiah" = true
  /\ (Text.nonempty "Dune Messiah" = true ->
      Text.cleanText (Some "Dune Messiah") = Some "Dune Messiah").
Proof.
  apply (cleanText_normal_form (Some "  Dune   Messiah ")).
  vm_compute. reflexivity.
Defined.

Lemma extractYear_range_witness : (0 <= 1965 <= 9999)%Z.
Proof.
  apply (extractYear_range (Some "May 1965")). vm_compute. reflexivity.
Defined.

(* ====================================================================== *)
(** * Further properties: the adapters *)
(* ====================================================================== *)

Section AdapterMore.

Variable env : Env.

Lemma Ok_inj {A} (a b : A) : Ok a = Ok b -> a = b.
Proof. congruence. Qed.

Lemma cleanNames_nonblank (xs : list (option string)) :
  Forall (fun n => nonblank n = true) (cleanNames xs).
Proof.
  unfold cleanNames. induction xs as [|x xs IH]; simpl; [constructor|].
  apply Forall_app. split; [|exact IH].
  destruct (Text.cleanText x) as [s|] eqn:E; [|constructor].
  destruct (Text.nonempty s) eqn:Hn; [|constructor].
  repeat constructor. unfold nonblank. rewrite Hn.
  destruct (cleanText_clean x E) as [Hc _].
  now rewrite (clean_trim s Hn Hc), Hn.
Qed.

Lemma trimmed_nonblank (s : string) :
  Text.nonempty (Text.trim s) = true -> nonblank (Text.trim s) = true.
Proof. intros H. unfold nonblank. now rewrite trim_trim, H. Qed.

Lemma yield_authors (r : Res ScrapedBook) :
  (forall b, r = Ok b -> authors_nonblank b) ->
  Forall authors_nonblank (yield r).
Proof.
  intros H. destruct r as [b|m]; simpl; [|constructor].
  destruct (keep b); repeat constructor. now apply H.
Qed.

Lemma flat_map_yield_authors {A} (f : A -> Res ScrapedBook) (l : list A) :
  (forall x b, f x = Ok b -> authors_nonblank b) ->
  Forall authors_nonblank (flat_map (fun x => yield (f x)) l).
Proof.
  intros H. induction l as [|x l IH]; simpl; [constructor|].
  apply Forall_app. split; [|exact IH].
  apply yield_authors. intros b. apply H.
Qed.

Lemma parseWork_authors (subject : string) (work : Work) (b : ScrapedBook) :
  parseWork subject work = Ok b -> authors_nonblank b.
Proof.
  unfold parseWork. intros H. injection H as <-. unfold authors_nonblank.
  simpl. destruct (w_authors work); [apply cleanNames_nonblank|constructor].
Qed.

Lemma parseItem_authors (item : Item) (b : ScrapedBook) :
  parseItem item = Ok b -> authors_nonblank b.
Proof.
  unfold parseItem. destruct (volumeInfo item) as [vi|]; [|discriminate].
  intros H. injection H as <-. unfold authors_nonblank. simpl.
  destruct (v_authors vi); [apply cleanNames_nonblank|constructor].
Qed.

Lemma parseBooklink_authors (term : string) (el : Element) (b : ScrapedBook) :
  parseBooklink term el = Ok b ->
  authors_nonblank b /\ length (authors b) <= 1
  /\ categories b = [term] /\ language b = Some "English"
  /\ isbn b = None /\ publication_year b = None.
Proof.
  unfold parseBooklink. intros H. apply Ok_inj in H. subst b.
  unfold authors_nonblank.
  cbn [authors categories language isbn publication_year].
  destruct (Text.cleanText (Some (findText el ".subtitle"))) as [t|];
    [|repeat split; auto; constructor].
  destruct (Text.nonempty t); [|repeat split; auto; constructor].
  destruct (Text.nonempty
              (Text.trim (string_of_list_ascii
                            (stripBy (list_ascii_of_string t))))) eqn:E;
    [|repeat split; auto; constructor].
  repeat split; auto. repeat constructor. now apply trimmed_nonblank.
Qed.

Lemma parseCustomItem_authors (url : string) (sels : CustomSelectors)
    (el : Element) (b : ScrapedBook) :
  parseCustomItem env url sels el = Ok b -> authors_nonblank b.
Proof.
  unfold parseCustomItem.
  destruct (absoluteUrl env url el (sel_coverImage sels) "src");
    [|discriminate].
  destruct (absoluteUrl env url el (sel_link sels) "href"); [|discriminate].
  intros H. injection H as <-. unfold authors_nonblank, eachText. simpl.
  destruct (sel_authors sels) as [q|]; [|constructor].
  destruct (Text.nonempty q); [apply cleanNames_nonblank|constructor].
Qed.

Lemma Forall_flat_yield {A} (P : ScrapedBook -> Prop)
    (f : A -> Res ScrapedBook) (l : list A) :
  (forall x b, f x = Ok b -> P b) ->
  Forall P (flat_map (fun x => yield (f x)) l).
Proof.
  intros H. induction l as [|x l IH]; simpl; [constructor|].
  apply Forall_app. split; [|exact IH].
  destruct (f x) as [b|m] eqn:E; simpl; [|constructor].
  destruct (keep b); repeat constructor. now apply (H x).
Qed.

End AdapterMore.

(** X4.  The listing adapter returns at most 20 candidates; each of them
    has the search term as its only category, English as language, no ISBN
    and no year, and at most one author, which is not blank. *)
Theorem scrapeProjectGutenberg_bounds (env : Env) (searchTerm : string)
    (books : list ScrapedBook) :
  scrapeProjectGutenberg env searchTerm = Ok books ->
  length books <= 20
  /\ Forall (fun b =>
               authors_nonblank b /\ length (authors b) <= 1
               /\ categories b = [searchTerm]
               /\ language b = Some "English"
               /\ isbn b = None /\ publication_year b = None) books.
Proof.
  unfold scrapeProjectGutenberg.
  destruct (getPage env _) as [page|]; [|discriminate].
  intros H.
  replace books
    with (firstn 20
            (flat_map (fun el => yield (parseBooklink searchTerm el))
               (page ".booklink")))
    by congruence.
  split; [apply firstn_le_length|].
  apply Forall_firstn. apply Forall_flat_yield.
  intros el b. apply parseBooklink_authors.
Qed.

(** X6.  No adapter yields a blank author name: every author of every
    candidate passes the test [authorName && authorName.trim()] of
    [saveBooks], so none is skipped when the authors are linked. *)
Theorem adapters_authors_nonblank (env : Env) (type : ScrapeType)
    (query : string) (sels : option CustomSelectors)
    (books : list ScrapedBook) :
  scrapeByType env type query sels = Ok books ->
  Forall authors_nonblank books.
Proof.
  unfold scrapeByType. destruct type.
  - unfold scrapeOpenLibrary.
    destruct (getWorks env _) as [d|]; [|discriminate]. intros H.
    replace books
      with (flat_map (fun work => yield (parseWork query work))
              (match d with Some ws => ws | None => [] end))
      by congruence.
    apply Forall_flat_yield. intros x b. apply parseWork_authors.
  - unfold scrapeGoogleBooks.
    destruct (getItems env _) as [d|]; [|discriminate]. intros H.
    replace books
      with (flat_map (fun item => yield (parseItem item))
              (match d with Some its => its | None => [] end))
      by congruence.
    apply Forall_flat_yield. intros x b. apply parseItem_authors.
  - unfold scrapeProjectGutenberg.
    destruct (getPage env _) as [page|]; [|discriminate]. intros H.
    replace books
      with (firstn 20
              (flat_map (fun el => yield (parseBooklink query el))
                 (page ".booklink")))
      by congruence.
    apply Forall_firstn. apply Forall_flat_yield.
    intros x b Hb. now apply parseBooklink_authors in Hb.
  - destruct sels as [s|]; [|discriminate]. unfold scrapeCustomWebsite.
    destruct (getPage env _) as [page|]; [|discriminate]. intros H.
    replace books
      with (flat_map (fun el => yield (parseCustomItem env query s el))
              (page (sel_container s)))
      by congruence.
    apply Forall_flat_yield. intros x b. apply parseCustomItem_authors.
  - discriminate.
Qed.

(** X7.  The ISBN of a search-API candidate is the identifier of the first
    entry of type ISBN_13 whenever that identifier is not empty; and an
    ISBN that is present and not empty always comes from an entry of type
    ISBN_13 or ISBN_10 of the item, never from an identifier of another
    type. *)
Theorem parseItem_isbn (item : Item) (vi : VolumeInfo)
    (ids : list Identifier) (b : ScrapedBook) :
  parseItem item = Ok b ->
  volumeInfo item = Some vi ->
  v_industryIdentifiers vi = Some ids ->
  (forall i13,
      findIdentifier "ISBN_13" ids = Some i13 ->
      Text.truthy (id_identifier i13) = true ->
      isbn b = id_identifier i13)
  /\ (Text.truthy (isbn b) = true ->
      exists i,
        In i ids /\ isbn b = id_identifier i
        /\ (id_type i = "ISBN_13" \/ id_type i = "ISBN_10")).
Proof.
  unfold parseItem. intros H Hvi Hids. rewrite Hvi in H.
  apply Ok_inj in H. subst b. cbn [isbn]. rewrite Hids.
  unfold Text.orElse, findIdentifier. split.
  - intros i13 -> Ht. now rewrite Ht.
  - destruct (find (fun i => String.eqb (id_type i) "ISBN_13") ids)
      as [i13|] eqn:E13.
    + destruct (Text.truthy (id_identifier i13)) eqn:T13.
      * intros _. apply find_some in E13 as [Hin Hty].
        apply String.eqb_eq in Hty. exists i13. auto.
      * destruct (find (fun i => String.eqb (id_type i) "ISBN_10") ids)
          as [i10|] eqn:E10; [|discriminate].
        intros _. apply find_some in E10 as [Hin Hty].
        apply String.eqb_eq in Hty. exists i10. auto.
    + simpl.
      destruct (find (fun i => String.eqb (id_type i) "ISBN_10") ids)
        as [i10|] eqn:E10; [|discriminate].
      intros _. apply find_some in E10 as [Hin Hty].
      apply String.eqb_eq in Hty. exists i10. auto.
Qed.

(* ====================================================================== *)
(** * Further properties: get-or-create *)
(* ====================================================================== *)

Section GetOrCreateMore.

Variable env : Env.

Lemma lookup_name_absent (n : string) (t : list Store.NamedRow) :
  lookup_name n t = None -> ~ In n (map Store.row_name t).
Proof.
  intros H Hin. apply lookup_name_none in H.
  apply in_map_iff in Hin as (r & Hr & Hin).
  assert (K : In r (filter (fun r => String.eqb (Store.row_name r) n) t)).
  { apply filter_In. split; [exact Hin|]. now apply String.eqb_eq. }
  rewrite H in K. destruct K.
Qed.

Lemma goc_author_more (n : string) (d : Store.DB) :
  Store.authors_tbl (fst (goc_author n d))
  = Store.authors_tbl d
    ++ match lookup_name n (Store.authors_tbl d) with
       | Some _ => []
       | None => [Store.mkNamedRow (snd (goc_author n d)) n]
       end
  /\ (forall id, lookup_name n (Store.authors_tbl d) = Some id ->
      goc_author n d = (d, id))
  /\ (NoDup (map Store.row_name (Store.authors_tbl d)) ->
      NoDup (map Store.row_name (Store.authors_tbl (fst (goc_author n d)))))
  /\ goc_author n (fst (goc_author n d))
     = (fst (goc_author n d), snd (goc_author n d)).
Proof.
  destruct (goc_author_spec n d) as (Hl & _ & _).
  split; [|split; [|split]].
  - unfold goc_author.
    destruct (lookup_name n (Store.authors_tbl d)) as [id|] eqn:E; simpl;
      [now rewrite app_nil_r|reflexivity].
  - intros id E. unfold goc_author. now rewrite E.
  - unfold goc_author.
    destruct (lookup_name n (Store.authors_tbl d)) as [id|] eqn:E; simpl;
      [auto|].
    intros HN. rewrite map_app. simpl. apply NoDup_app.
    + exact HN.
    + repeat constructor. intros [].
    + intros x Hx [<-|[]]. now apply (lookup_name_absent n _ E).
  - now apply goc_author_found.
Qed.

Lemma goc_category_more (n : string) (d : Store.DB) :
  Store.categories_tbl (fst (goc_category n d))
  = Store.categories_tbl d
    ++ match lookup_name n (Store.categories_tbl d) with
       | Some _ => []
       | None => [Store.mkNamedRow (snd (goc_category n d)) n]
       end
  /\ (forall id, lookup_name n (Store.categories_tbl d) = Some id ->
      goc_category n d = (d, id))
  /\ (NoDup (map Store.row_name (Store.categories_tbl d)) ->
      NoDup (map Store.row_name
               (Store.categories_tbl (fst (goc_category n d)))))
  /\ goc_category n (fst (goc_category n d))
     = (fst (goc_category n d), snd (goc_category n d)).
Proof.
  destruct (goc_category_spec n d) as (Hl & _ & _).
  split; [|split; [|split]].
  - unfold goc_category.
    destruct (lookup_name n (Store.categories_tbl d)) as [id|] eqn:E; simpl;
      [now rewrite app_nil_r|reflexivity].
  - intros id E. unfold goc_category. now rewrite E.
  - unfold goc_category.
    destruct (lookup_name n (Store.categories_tbl d)) as [id|] eqn:E; simpl;
      [auto|].
    intros HN. rewrite map_app. simpl. apply NoDup_app.
    + exact HN.
    + repeat constructor. intros [].
    + intros x Hx [<-|[]]. now apply (lookup_name_absent n _ E).
  - now apply goc_category_found.
Qed.

Lemma pair_eq {A B} (a a' : A) (b b' : B) :
  (a, b) = (a', b') -> a = a' /\ b = b'.
Proof. intros H. now injection H. Qed.

End GetOrCreateMore.

(** X8.  Getting or creating an author is a round trip: when it returns,
    the name is found under the returned id; the table is the table of
    before, followed by the one row of the returned id and the name when
    the name was not there, and by nothing when it was; a name that was
    there is answered with its id and the database is unchanged; names
    that were pairwise different stay so; and asking again for the same
    name returns the same id and writes nothing.  With a store that
    refuses nothing and no aborted transaction it does return. *)
Theorem getOrCreateAuthor_round_trip (env : Env) (n : string) (w : World) :
  (forall a w',
     getOrCreateAuthor env n w = (Ok a, w') ->
     lookup_name n (Store.authors_tbl (current w')) = Some a
     /\ Store.authors_tbl (current w')
        = Store.authors_tbl (current w)
          ++ match lookup_name n (Store.authors_tbl (current w)) with
             | Some _ => []
             | None => [Store.mkNamedRow a n]
             end
     /\ (forall id,
           lookup_name n (Store.authors_tbl (current w)) = Some id ->
           a = id /\ current w' = current w)
     /\ (NoDup (map Store.row_name (Store.authors_tbl (current w))) ->
         NoDup (map Store.row_name (Store.authors_tbl (current w'))))
     /\ (forall a2 w2,
           getOrCreateAuthor env n w' = (Ok a2, w2) ->
           a2 = a /\ current w2 = current w'))
  /\ (accepts_all env -> aborted w = false ->
      exists a, fst (getOrCreateAuthor env n w) = Ok a).
Proof.
  split.
  2:{ intros HA L.
      exact (proj1 (getOrCreateAuthor_live HA n w L)). }
  intros a w' H. apply getOrCreateAuthor_ok in H.
  rewrite (surjective_pairing (goc_author n (current w))) in H.
  apply pair_eq in H as [Hc Ha].
  destruct (goc_author_spec n (current w)) as (Hl & _ & _).
  destruct (goc_author_more n (current w)) as (Hx & Hs & Hn & Hi).
  rewrite Hc, Ha. split; [exact Hl|]. split; [exact Hx|].
  split; [intros id E; now rewrite (Hs id E)|].
  split; [exact Hn|].
  intros a2 w2 H2. apply getOrCreateAuthor_ok in H2.
  rewrite Hc, Hi in H2. apply pair_eq in H2 as [-> ->]. auto.
Qed.

(** X9.  The same round trip for categories. *)
Theorem getOrCreateCategory_round_trip (env : Env) (n : string) (w : World) :
  (forall c w',
     getOrCreateCategory env n w = (Ok c, w') ->
     lookup_name n (Store.categories_tbl (current w')) = Some c
     /\ Store.categories_tbl (current w')
        = Store.categories_tbl (current w)
          ++ match lookup_name n (Store.categories_tbl (current w)) with
             | Some _ => []
             | None => [Store.mkNamedRow c n]
             end
     /\ (forall id,
           lookup_name n (Store.categories_tbl (current w)) = Some id ->
           c = id /\ current w' = current w)
     /\ (NoDup (map Store.row_name (Store.categories_tbl (current w))) ->
         NoDup (map Store.row_name (Store.categories_tbl (current w'))))
     /\ (forall c2 w2,
           getOrCreateCategory env n w' = (Ok c2, w2) ->
           c2 = c /\ current w2 = current w'))
  /\ (accepts_all env -> aborted w = false ->
      exists c, fst (getOrCreateCategory env n w) = Ok c).
Proof.
  split.
  2:{ intros HA L.
      exact (proj1 (getOrCreateCategory_live HA n w L)). }
  intros c w' H. apply getOrCreateCategory_ok in H.
  rewrite (surjective_pairing (goc_category n (current w))) in H.
  apply pair_eq in H as [Hc Ha].
  destruct (goc_category_spec n (current w)) as (Hl & _ & _).
  destruct (goc_category_more n (current w)) as (Hx & Hs & Hn & Hi).
  rewrite Hc, Ha. split; [exact Hl|]. split; [exact Hx|].
  split; [intros id E; now rewrite (Hs id E)|].
  split; [exact Hn|].
  intros c2 w2 H2. apply getOrCreateCategory_ok in H2.
  rewrite Hc, Hi in H2. apply pair_eq in H2 as [-> ->]. auto.
Qed.

Section SourceFacts.

Variable env : Env.

Lemma lookup_source_app (n : string) (t x : list Store.SourceRow) (a : nat) :
  lookup_source n t = Some a -> lookup_source n (t ++ x) = Some a.
Proof.
  unfold lookup_source. rewrite filter_app, map_app.
  apply hd_error_app_some.
Qed.

Lemma lookup_source_fresh (n url : string) (t : list Store.SourceRow)
    (id : nat) :
  lookup_source n t = None ->
  lookup_source n (t ++ [Store.mkSourceRow id n url true None]) = Some id.
Proof.
  unfold lookup_source. intros H. rewrite filter_app, map_app.
  destruct (filter (fun r => String.eqb (Store.s_name r) n) t);
    [|discriminate H].
  simpl. now rewrite String.eqb_refl.
Qed.

Lemma goc_source_lookup (n url : string) (d : Store.DB) :
  lookup_source n (Store.sources (fst (goc_source n url d)))
  = Some (snd (goc_source n url d)).
Proof.
  unfold goc_source.
  destruct (lookup_source n (Store.sources d)) as [id|] eqn:E; simpl;
    [exact E|now apply lookup_source_fresh].
Qed.

Lemma getOrCreateSource_ok (n url : string) (w w' : World) (sid : nat) :
  getOrCreateSource env n url w = (Ok sid, w') ->
  current w' = fst (goc_source n url (current w))
  /\ sid = snd (goc_source n url (current w)).
Proof.
  unfold getOrCreateSource. intros H.
  apply bind_ok in H as (r0 & w0 & Hc & H).
  assert (C0 : current w0 = current w).
  { apply poolQuery_ok in Hc as (_ & Hd & Ht). unfold current.
    rewrite Ht, Hd. reflexivity. }
  rewrite rethrow_eq in H.
  apply bind_ok in H as (rows & w1 & Hq & H).
  apply clientQuery_data_ok in Hq as [Hrows Hc1]; [|reflexivity].
  simpl in Hrows, Hc1. rewrite C0 in *.
  unfold goc_source, lookup_source. rewrite <- Hrows.
  destruct rows as [|id rows]; simpl.
  - apply bind_ok in H as (rows2 & w2 & Hq2 & H).
    apply clientQuery_data_ok in Hq2 as [Hrows2 Hc2]; [|reflexivity].
    simpl in Hrows2, Hc2. rewrite Hc1 in *. subst rows2.
    simpl in H. apply pair_eq in H as [H1 H2].
    apply Ok_inj in H1. subst. auto.
  - apply pair_eq in H as [H1 H2]. apply Ok_inj in H1. subst. auto.
Qed.

End SourceFacts.

(** X10.  Getting or creating a source: for a name that is there, the id
    of the first source of that name comes back and nothing is written (the
    base URL given is not looked at); for a new name, one source is added,
    active, never scraped, with the base URL given.  Either way the name is
    found under the returned id afterwards, and asking again, with whatever
    base URL, returns the same id and writes nothing. *)
Theorem getOrCreateSource_round_trip (env : Env) (name url : string)
    (w w' : World) (sid : nat) :
  getOrCreateSource env name url w = (Ok sid, w') ->
  (forall id,
      lookup_source name (Store.sources (current w)) = Some id ->
      sid = id /\ current w' = current w)
  /\ (lookup_source name (Store.sources (current w)) = None ->
      Store.sources (current w')
      = Store.sources (current w)
          ++ [Store.mkSourceRow sid name url true None])
  /\ lookup_source name (Store.sources (current w')) = Some sid
  /\ (forall url2 sid2 w2,
        getOrCreateSource env name url2 w' = (Ok sid2, w2) ->
        sid2 = sid /\ current w2 = current w').
Proof.
  intros H. apply getOrCreateSource_ok in H as [Hc Hs].
  pose proof (goc_source_lookup name url (current w)) as Hl.
  rewrite <- Hc, <- Hs in Hl.
  split; [|split; [|split; [exact Hl|]]].
  - intros id E. unfold goc_source in Hc, Hs. rewrite E in Hc, Hs. auto.
  - intros E. unfold goc_source in Hc, Hs. rewrite E in Hc, Hs.
    simpl in Hc, Hs. rewrite Hc, Hs. reflexivity.
  - intros url2 sid2 w2 H2. apply getOrCreateSource_ok in H2 as [Hc2 Hs2].
    unfold goc_source in Hc2, Hs2. rewrite Hl in Hc2, Hs2. auto.
Qed.

Section LogUpdateFacts.

Variable env : Env.

Lemma logUpdates_nil (data : LogData) :
  logUpdates data = [] ->
  d_completed_at data = None /\ d_books_added data = None
  /\ d_books_updated data = None /\ d_errors data = None
  /\ d_status data = None /\ Text.truthy (d_error_details data) = false.
Proof.
  unfold logUpdates.
  destruct data as [[?|] [?|] [?|] [?|] [?|] [[|? ?]|]]; simpl;
    intros H; try discriminate H; auto 10.
Qed.

Lemma log_updated_same (lid : nat) (data : LogData) (r : Store.LogRow) :
  logUpdates data = [] -> log_updated lid data r r.
Proof.
  intros H. apply logUpdates_nil in H as (H1 & H2 & H3 & H4 & H5 & H6).
  unfold log_updated. rewrite H1, H2, H3, H4, H5, H6. simpl. auto 12.
Qed.

Lemma log_updated_other (lid : nat) (data : LogData) (r : Store.LogRow) :
  Store.l_id r <> lid -> log_updated lid data r r.
Proof. intros H. unfold log_updated. repeat split; auto; contradiction. Qed.

Lemma log_updated_assigns (lid : nat) (data : LogData) (r : Store.LogRow) :
  Store.l_id r = lid ->
  log_updated lid data r (Store.apply_assigns (logUpdates data) r).
Proof.
  intros Hid. unfold logUpdates, log_updated, Store.apply_assigns.
  destruct data as [[?|] [?|] [?|] [?|] [?|] [[|? ?]|]]; simpl;
    repeat split; auto; intros; try contradiction.
Qed.

Lemma log_rows_updated (lid : nat) (data : LogData)
    (l : list Store.LogRow) :
  Forall2 (log_updated lid data) l
    (map (fun r => if Store.l_id r =? lid
                   then Store.apply_assigns (logUpdates data) r else r) l).
Proof.
  induction l as [|r l IH]; simpl; constructor; [|exact IH].
  destruct (Store.l_id r =? lid) eqn:E.
  - apply log_updated_assigns. now apply Nat.eqb_eq.
  - apply log_updated_other. now apply Nat.eqb_neq.
Qed.

Lemma Forall2_same {A} (P : A -> A -> Prop) (l : list A) :
  (forall x, P x x) -> Forall2 P l l.
Proof. intros H. induction l; constructor; auto. Qed.

End LogUpdateFacts.

(** X11.  [updateScrapingLog] writes only what it is given.  With no field
    to write (an empty [error_details] counts as none) it sends no
    statement and leaves the world as it is.  Otherwise the log table keeps
    its rows in place; a row with another id is untouched; in the row of the
    id the columns for which the data has nothing keep their values, and id,
    source and start time never move.  Nothing is written inside an open
    transaction. *)
Theorem updateScrapingLog_effect (env : Env) (lid : nat) (data : LogData)
    (w w' : World) :
  updateScrapingLog env lid data w = (Ok tt, w') ->
  Forall2 (log_updated lid data)
    (Store.scraping_logs (durable w)) (Store.scraping_logs (durable w'))
  /\ txn w' = txn w
  /\ (logUpdates data = [] -> w' = w).
Proof.
  unfold updateScrapingLog. rewrite rethrow_eq.
  destruct (logUpdates data) as [|u us] eqn:E.
  - intros H. apply pair_eq in H as [_ <-].
    split; [|auto]. apply Forall2_same. intros r.
    now apply log_updated_same.
  - intros H. apply bind_ok in H as (rows & w1 & Hq & H).
    apply pair_eq in H as [_ <-].
    apply poolQuery_ok in Hq as (_ & Hd & Ht).
    split; [|split; [exact Ht|discriminate]].
    rewrite Hd, <- E. apply log_rows_updated.
Qed.

Section FindFacts.

Lemma find_in {A} (p : A -> bool) (l : list A) (x : A) :
  In x l -> p x = true -> find p l <> None.
Proof.
  intros Hin Hp Hf. exact (eq_true_false_abs _ Hp (find_none p l Hf x Hin)).
Qed.

Lemma first_some_last {A} (a b c : option A) :
  c <> None -> first_some a (first_some b c) <> None.
Proof. destruct a, b, c; simpl; congruence. Qed.

Lemma findable_found (book : ScrapedBook) (rows : list Store.BookRow)
    (r : Store.BookRow) :
  In r rows -> findable book r ->
  spec_findBookId book rows <> None.
Proof.
  intros Hin [[Hi He]|[Ht He]]; unfold spec_findBookId.
  - unfold spec_by_isbn.
    destruct (isbn book) as [i|] eqn:E; [|discriminate Hi].
    simpl in Hi. rewrite Hi.
    destruct (find (fun x => Store.opt_eqb (Store.b_isbn x) i) rows) eqn:F.
    + simpl. discriminate.
    + exfalso. revert F. apply find_in with r; [exact Hin|].
      rewrite He. simpl. apply String.eqb_refl.
  - apply first_some_last. unfold spec_by_title. rewrite Ht.
    destruct (find (fun x => String.eqb (Store.b_title x) (title book)) rows)
      eqn:F.
    + simpl. discriminate.
    + exfalso. revert F. apply find_in with r; [exact Hin|].
      rewrite He. apply String.eqb_refl.
Qed.

Lemma found_row (book : ScrapedBook) (rows : list Store.BookRow) (id : nat) :
  spec_findBookId book rows = Some id ->
  exists r,
    In r rows /\ Store.book_id r = id
    /\ (Text.truthy (isbn book) = true
        \/ (Text.nonempty (title book) = true
            /\ Store.b_title r = title book)).
Proof.
  unfold spec_findBookId, first_some.
  destruct (spec_by_isbn book rows) as [a|] eqn:E1.
  { intros H. injection H as ->. unfold spec_by_isbn in E1.
    destruct (isbn book) as [i|]; [|discriminate E1].
    destruct (Text.nonempty i) eqn:N; [|discriminate E1].
    destruct (find (fun x => Store.opt_eqb (Store.b_isbn x) i) rows)
      as [r|] eqn:F; [|discriminate E1].
    apply find_some in F as [Hin _]. simpl in E1. injection E1 as E1.
    exists r. simpl. auto. }
  destruct (spec_by_title_year book rows) as [a|] eqn:E2.
  { intros H. injection H as ->. unfold spec_by_title_year in E2.
    destruct (publication_year book) as [y|]; [|discriminate E2].
    destruct (Text.nonempty (title book)) eqn:N; [|discriminate E2].
    destruct (negb (y =? 0)%Z); [|discriminate E2]. simpl in E2.
    match type of E2 with
    | option_map _ (find ?p rows) = _ =>
        destruct (find p rows) as [r|] eqn:F; [|discriminate E2]
    end.
    apply find_some in F as [Hin Hp]. simpl in E2. injection E2 as E2.
    apply andb_prop in Hp as [Hp _]. apply String.eqb_eq in Hp.
    exists r. auto. }
  unfold spec_by_title.
  destruct (Text.nonempty (title book)) eqn:N; [|discriminate].
  destruct (find (fun x => String.eqb (Store.b_title x) (title book)) rows)
    as [r|] eqn:F; [|discriminate].
  intros H. simpl in H. injection H as H.
  apply find_some in F as [Hin Hp]. apply String.eqb_eq in Hp.
  exists r. auto.
Qed.

Lemma truthy_some (o : option string) :
  Text.truthy o = true -> exists i, o = Some i.
Proof. destruct o; [eauto|discriminate]. Qed.

Lemma no_key_not_found (book : ScrapedBook) (rows : list Store.BookRow) :
  Text.truthy (isbn book) = false -> Text.nonempty (title book) = false ->
  spec_findBookId book rows = None.
Proof.
  intros Hi Ht.
  unfold spec_findBookId, spec_by_isbn, spec_by_title_year, spec_by_title.
  rewrite Ht. unfold Text.truthy in Hi.
  destruct (isbn book) as [i|]; [rewrite Hi|];
    destruct (publication_year book); reflexivity.
Qed.

End FindFacts.

Section ReIngest.

Variable env : Env.
Hypothesis HA : accepts_all env.

Lemma insertBook_row (book : ScrapedBook) (sid : nat) (w w' : World)
    (id : nat) :
  insertBook env book sid w = (Ok id, w') ->
  exists r,
    Store.books (current w') = Store.books (current w) ++ [r]
    /\ Store.b_title r = title book /\ Store.b_isbn r = isbn book.
Proof.
  unfold insertBook. intros H.
  apply bind_ok in H as (rows & w1 & Hq & H).
  apply clientQuery_data_ok in Hq as [-> Hc]; [|reflexivity].
  simpl in H. apply pair_eq in H as [_ <-].
  rewrite Hc. simpl. eexists. split; [reflexivity|split; reflexivity].
Qed.

Lemma updateBook_row (id : nat) (book : ScrapedBook) (w w' : World)
    (r : Store.BookRow) :
  updateBook env id book w = (Ok tt, w') ->
  In r (Store.books (current w)) -> Store.book_id r = id ->
  exists r',
    In r' (Store.books (current w'))
    /\ Store.b_title r' = Store.b_title r
    /\ Store.b_isbn r' = Store.coalesce (isbn book) (Store.b_isbn r).
Proof.
  unfold updateBook. intros H Hin Hid.
  apply bind_ok in H as (rows & w1 & Hq & Hret).
  apply pair_eq in Hret as [_ <-].
  apply clientQuery_data_ok in Hq as [_ Hcur]; [|reflexivity].
  rewrite Hcur. simpl.
  eexists. split.
  - apply in_map_iff. exists r. split; [reflexivity|exact Hin].
  - apply Nat.eqb_eq in Hid. rewrite Hid. simpl. auto.
Qed.

Lemma linkSteps_books (id : nat) (book : ScrapedBook) (s : SaveSt) :
  Store.books (current (fst (snd (linkSteps env id book s))))
  = Store.books (current (fst s)).
Proof.
  destruct (linkSteps_always books_same_refl books_same_trans
              (books_same_link env) id book s) as [Hs _].
  exact Hs.
Qed.

Lemma saveBook_findable (book : ScrapedBook) (sid : nat) (w : World)
    (c : Counts) :
  aborted w = false ->
  Text.truthy (isbn book) = true \/ Text.nonempty (title book) = true ->
  exists r,
    In r (Store.books (current (fst (snd (saveBook env book sid (w, c))))))
    /\ findable book r.
Proof.
  intros L Hk. rewrite saveBook_run.
  destruct (findExisting_live HA book w L) as [[o Ho] L1].
  destruct (findExisting env book w) as [[o'|e] w1] eqn:E; simpl in Ho;
    [|discriminate Ho].
  cbn [snd] in L1.
  apply findExisting_ok in E as [-> Hc1].
  destruct (spec_findBookId book (Store.books (current w))) as [id|] eqn:F.
  - destruct (updateBook_total HA id book w1 L1) as [[] Hu].
    destruct (updateBook env id book w1) as [[[]|e] w2] eqn:U; simpl in Hu;
      [|discriminate Hu].
    apply found_row in F as (r & Hin & Hid & Hr).
    rewrite <- Hc1 in Hin.
    edestruct updateBook_row as (r' & Hin' & Ht' & Hi');
      [exact U|exact Hin|exact Hid|].
    exists r'. split.
    + exact (eq_ind_r (fun l => In r' l) Hin'
               (linkSteps_books id book
                  (w2, mkCounts (added c) (S (updated c))))).
    + destruct Hr as [Hi|[Hn Ht]].
      * left. split; [exact Hi|].
        apply truthy_some in Hi as [i Hi]. rewrite Hi', Hi. reflexivity.
      * right. split; [exact Hn|congruence].
  - destruct (insertBook_total HA book sid w1 L1) as [id Hi].
    destruct (insertBook env book sid w1) as [[id'|e] w2] eqn:I; simpl in Hi;
      [|discriminate Hi].
    apply insertBook_row in I as (r & Hb & Ht & Hs).
    exists r. split.
    + assert (Hin : In r (Store.books (current w2))).
      { rewrite Hb. apply in_or_app. right. now left. }
      exact (eq_ind_r (fun l => In r l) Hin
               (linkSteps_books id' book
                  (w2, mkCounts (S (added c)) (updated c)))).
    + destruct Hk as [Hk|Hk]; [left|right]; auto.
Qed.

Lemma saveBooks_single (book : ScrapedBook) (sid : nat) (w : World) :
  fst (saveBooks env [book] sid w)
  = Ok (match spec_findBookId book (Store.books (durable w)) with
        | Some _ => mkCounts 0 1
        | None => mkCounts 1 0
        end).
Proof.
  rewrite (saveBooks_run [book] w (accepts_control HA sid)).
  cbn [fst]. unfold loop_end. cbn [fold_left].
  pose proof (saveBook_counts env book sid (begun env w)
                (mkCounts 0 0)) as Hc.
  rewrite Hc, (write_outcome_accepting HA) by apply (begun_live HA).
  rewrite (begun_shape (accepts_control HA sid)). unfold current. simpl.
  destruct (spec_findBookId book (Store.books (durable w))); reflexivity.
Qed.

Lemma saveBook_rows (book : ScrapedBook) (sid : nat) (w : World)
    (c : Counts) (L : aborted w = false) :
  length (Store.books
            (current (fst (snd (saveBook env book sid (w, c))))))
  = match spec_findBookId book (Store.books (current w)) with
    | Some _ => length (Store.books (current w))
    | None => S (length (Store.books (current w)))
    end.
Proof.
  rewrite saveBook_run.
  destruct (findExisting_live HA book w L) as [[o Ho] L1].
  destruct (findExisting env book w) as [[o'|e] w1] eqn:E; simpl in Ho;
    [|discriminate Ho].
  cbn [snd] in L1.
  apply findExisting_ok in E as [-> Hc1].
  destruct (spec_findBookId book (Store.books (current w))) as [id|].
  - destruct (updateBook_total HA id book w1 L1) as [[] Hu].
    destruct (updateBook env id book w1) as [[[]|e] w2] eqn:U; simpl in Hu;
      [|discriminate Hu].
    rewrite (linkSteps_books id book
               (w2, mkCounts (added c) (S (updated c)))). cbn [fst].
    unfold updateBook in U.
    apply bind_ok in U as (rows & w3 & Hq & Hret).
    apply pair_eq in Hret as [_ <-].
    apply clientQuery_data_ok in Hq as [_ Hcur]; [|reflexivity].
    rewrite Hcur, Hc1. simpl. apply length_map.
  - destruct (insertBook_total HA book sid w1 L1) as [id Hi].
    destruct (insertBook env book sid w1) as [[id'|e] w2] eqn:I; simpl in Hi;
      [|discriminate Hi].
    rewrite (linkSteps_books id' book
               (w2, mkCounts (S (added c)) (updated c))). cbn [fst].
    apply insertBook_row in I as (r & Hb & _).
    rewrite Hb, Hc1, length_app. simpl. lia.
Qed.

Lemma saveBooks_single_rows (book : ScrapedBook) (sid : nat) (w : World) :
  length (Store.books (durable (snd (saveBooks env [book] sid w))))
  = match spec_findBookId book (Store.books (durable w)) with
    | Some _ => length (Store.books (durable w))
    | None => S (length (Store.books (durable w)))
    end.
Proof.
  rewrite (saveBooks_run [book] w (accepts_control HA sid)). cbn [snd].
  rewrite (committed_shape (accepts_control HA sid)). cbn [durable].
  unfold loop_end. cbn [fold_left].
  rewrite (saveBook_live HA book sid (begun env w, mkCounts 0 0)
             (begun_live HA w)).
  pose proof (@saveBook_rows book sid (begun env w) (mkCounts 0 0)
                (begun_live HA w)) as H.
  assert (Hb : Store.books (current (begun env w))
               = Store.books (durable w))
    by (rewrite (begun_shape (accepts_control HA sid)); reflexivity).
  rewrite Hb in H. exact H.
Qed.

End ReIngest.

(** X12.  Ingesting again updates.  With a store that refuses nothing, a
    candidate that has an ISBN or a title, saved once, is found by the next
    run: saving the same candidate again counts one update and no addition,
    and the catalog has as many books after it as before. *)
Theorem saveBooks_again_updates (env : Env) (book : ScrapedBook)
    (sid sid2 : nat) (w : World) :
  accepts_all env ->
  Text.truthy (isbn book) = true \/ Text.nonempty (title book) = true ->
  fst (saveBooks env [book] sid2 (snd (saveBooks env [book] sid w)))
  = Ok (mkCounts 0 1)
  /\ length (Store.books
               (durable (snd (saveBooks env [book] sid2
                                (snd (saveBooks env [book] sid w))))))
     = length (Store.books (durable (snd (saveBooks env [book] sid w)))).
Proof.
  intros HA Hk.
  rewrite (saveBooks_single HA), (saveBooks_single_rows HA).
  assert (Hs : spec_findBookId book
                 (Store.books (durable (snd (saveBooks env [book] sid w))))
               <> None).
  { rewrite (saveBooks_run [book] w (accepts_control HA sid)). cbn [snd].
    rewrite (committed_shape (accepts_control HA sid)). cbn [durable].
    unfold loop_end. cbn [fold_left].
    rewrite (saveBook_live HA book sid (begun env w, mkCounts 0 0)
               (begun_live HA w)).
    destruct (@saveBook_findable env HA book sid (begun env w)
                (mkCounts 0 0) (begun_live HA w) Hk) as (r & Hin & Hf).
    exact (@findable_found book _ r Hin Hf). }
  destruct (spec_findBookId book _); [split; reflexivity|contradiction].
Qed.

(** X13.  A candidate with neither an ISBN nor a title is never found:
    with a store that refuses nothing, every run that saves it counts one
    addition and no update and leaves the catalog with one book more,
    whatever the catalog holds. *)
Theorem saveBooks_keyless_inserts (env : Env) (book : ScrapedBook)
    (sid : nat) (w : World) :
  accepts_all env ->
  Text.truthy (isbn book) = false -> Text.nonempty (title book) = false ->
  fst (saveBooks env [book] sid w) = Ok (mkCounts 1 0)
  /\ length (Store.books (durable (snd (saveBooks env [book] sid w))))
     = S (length (Store.books (durable w))).
Proof.
  intros HA Hi Ht.
  rewrite (saveBooks_single HA), (saveBooks_single_rows HA).
  rewrite (@no_key_not_found book _ Hi Ht). split; reflexivity.
Qed.

Section Transaction.

Variable env : Env.

(** [saveBooks] once the connection and [BEGIN] have gone through: the
    rest of the [try] on the state in which the loop ends, and the [catch]
    on what it raises. *)
Lemma saveBooks_from_loop (books : list ScrapedBook) (sid : nat)
    (w : World) :
  (forall d, rejects env Store.Connect d = None) ->
  (forall d, rejects env Store.Begin d = None) ->
  saveBooks env books sid w
  = (let (r, s) :=
       try_catch
         (liftW (clientQuery env Store.Commit) ;;;
          liftW (clientQuery env (Store.TouchSource sid)) ;;;
          getLocal)
         (fun error =>
            liftW (clientQuery env Store.Rollback) ;;;
            throw error)
         (loop_end env books sid (begun env w, mkCounts 0 0))
     in (r, fst s)).
Proof.
  intros Hc Hb. unfold saveBooks, begun.
  rewrite (bind_step _ _ _ (poolQuery_accepted _ _ _ (Hc (durable w)))).
  rewrite (poolQuery_accepted _ _ _ (Hc (durable w))). cbn [snd].
  set (w0 := record (EvSql Store.Connect true) _).
  unfold withLocals, try_catch.
  unfold bind at 1. rewrite liftW_run.
  rewrite (clientQuery_accepted _ _ _
             (control_not_blocked Store.Begin _ eq_refl)
             (Hb (current w0))).
  cbn [fst snd].
  set (wB := record (EvSql Store.Begin true) _).
  unfold bind at 1. rewrite saveLoop_run.
  reflexivity.
Qed.

Lemma begun_private (w : World) :
  (forall d, rejects env Store.Connect d = None) ->
  (forall d, rejects env Store.Begin d = None) ->
  txn (begun env w) <> None /\ durable (begun env w) = durable w
  /\ aborted (begun env w) = false.
Proof.
  intros Hc Hb. unfold begun.
  rewrite (poolQuery_accepted _ _ _ (Hc (durable w))). cbn [snd].
  rewrite clientQuery_accepted;
    [|now apply control_not_blocked|apply Hb].
  simpl. split; [discriminate|split; reflexivity].
Qed.

End Transaction.

(** X14.  A refused [COMMIT] undoes the batch.  When the store accepts the
    connection, [BEGIN] and [ROLLBACK] and refuses [COMMIT], [saveBooks]
    raises the error of the [COMMIT], whatever candidates it was given, and
    the committed store is exactly what it was before the call; no
    transaction is left open. *)
Theorem saveBooks_commit_refused (env : Env) (books : list ScrapedBook)
    (sid : nat) (w : World) (m : string) :
  (forall d, rejects env Store.Connect d = None) ->
  (forall d, rejects env Store.Begin d = None) ->
  (forall d, rejects env Store.Commit d = Some m) ->
  (forall d, rejects env Store.Rollback d = None) ->
  fst (saveBooks env books sid w) = Throw m
  /\ durable (snd (saveBooks env books sid w)) = durable w
  /\ txn (snd (saveBooks env books sid w)) = None.
Proof.
  intros Hc Hb Hm Hr.
  destruct (saveBooks env books sid w) as [r w'] eqn:E.
  rewrite (@saveBooks_from_loop env books sid w Hc Hb) in E.
  destruct (@begun_private env w Hc Hb) as (Ht & Hd & _).
  destruct (@loop_end_private env books sid _ (mkCounts 0 0) Ht) as [_ HL].
  destruct (loop_end env books sid (begun env w, mkCounts 0 0))
    as [wL cL]. cbn [fst] in HL.
  unfold try_catch in E. unfold bind at 1 in E. rewrite liftW_run in E.
  rewrite (clientQuery_refused env _ _
             (control_not_blocked Store.Commit _ eq_refl)
             (Hm (current wL))) in E.
  cbn [fst snd] in E.
  unfold bind in E. rewrite liftW_run in E.
  rewrite (clientQuery_accepted _ _ _
             (control_not_blocked Store.Rollback _ eq_refl) (Hr _)) in E.
  simpl in E.
  apply pair_eq in E as [<- <-]. simpl.
  rewrite durable_fail_stmt. repeat split. congruence.
Qed.

Lemma saveBooks_touch_run (env : Env) (books : list ScrapedBook)
    (sid : nat) (w : World) (m : string) :
  (forall d, rejects env Store.Connect d = None) ->
  (forall d, rejects env Store.Begin d = None) ->
  (forall d, rejects env Store.Commit d = None) ->
  (forall d, rejects env (Store.TouchSource sid) d = Some m) ->
  (forall d, rejects env Store.Rollback d = None) ->
  exists w',
    saveBooks env books sid w = (Throw m, w')
    /\ durable w'
       = (if aborted (fst (loop_end env books sid
                             (begun env w, mkCounts 0 0)))
          then durable w
          else current (fst (loop_end env books sid
                               (begun env w, mkCounts 0 0))))
    /\ txn w' = None.
Proof.
  intros Hc Hb Hm Ht Hr.
  rewrite (@saveBooks_from_loop env books sid w Hc Hb).
  destruct (@begun_private env w Hc Hb) as (Hx & Hd & _).
  destruct (@loop_end_private env books sid _ (mkCounts 0 0) Hx) as [_ HL].
  destruct (loop_end env books sid (begun env w, mkCounts 0 0))
    as [wL cL]. cbn [fst] in *.
  unfold try_catch. unfold bind at 1. rewrite liftW_run.
  rewrite (clientQuery_accepted _ _ _
             (control_not_blocked Store.Commit _ eq_refl)
             (Hm (current wL))).
  cbn [fst snd].
  set (wC := record (EvSql Store.Commit true) _).
  unfold bind at 1. rewrite liftW_run.
  rewrite (clientQuery_refused env _ _
             (live_not_blocked (Store.TouchSource sid) wC eq_refl)
             (Ht _)).
  cbn [fst snd].
  unfold bind. rewrite liftW_run.
  rewrite (clientQuery_accepted _ _ _
             (control_not_blocked Store.Rollback _ eq_refl) (Hr _)).
  simpl.
  eexists. split; [reflexivity|]. split; [|reflexivity].
  simpl. destruct (aborted wL); [congruence|reflexivity].
Qed.

(** X15.  A failure after [COMMIT] comes too late.  When the store accepts
    the connection, [BEGIN], [COMMIT] and [ROLLBACK] and refuses the update
    of the source, [saveBooks] raises the error of that update, and what
    the [COMMIT] did stays: if no statement failed in the loop, the batch
    is committed although the call raises (the store holds the state in
    which the loop ended); if one did, the store is what it was before the
    call. *)
Theorem saveBooks_touch_refused (env : Env) (books : list ScrapedBook)
    (sid : nat) (w : World) (m : string) :
  (forall d, rejects env Store.Connect d = None) ->
  (forall d, rejects env Store.Begin d = None) ->
  (forall d, rejects env Store.Commit d = None) ->
  (forall d, rejects env (Store.TouchSource sid) d = Some m) ->
  (forall d, rejects env Store.Rollback d = None) ->
  fst (saveBooks env books sid w) = Throw m
  /\ durable (snd (saveBooks env books sid w))
     = (if aborted (fst (loop_end env books sid
                           (begun env w, mkCounts 0 0)))
        then durable w
        else current (fst (loop_end env books sid
                             (begun env w, mkCounts 0 0))))
  /\ txn (snd (saveBooks env books sid w)) = None
  /\ ((forall q d, is_book_stmt q = true -> rejects env q d = None) ->
      aborted (fst (loop_end env books sid (begun env w, mkCounts 0 0)))
      = false)
  /\ (forall pre book post e,
        books = pre ++ book :: post ->
        fst (saveBook env book sid
               (loop_end env pre sid (begun env w, mkCounts 0 0)))
        = Throw e ->
        aborted (fst (loop_end env books sid (begun env w, mkCounts 0 0)))
        = true).
Proof.
  intros Hc Hb Hm Ht Hr.
  destruct (@saveBooks_touch_run env books sid w m Hc Hb Hm Ht Hr)
    as (w' & E & Hd & Hx).
  destruct (@begun_private env w Hc Hb) as (T0 & _ & L0).
  rewrite E. cbn [fst snd].
  split; [reflexivity|]. split; [exact Hd|]. split; [exact Hx|]. split.
  - intros HA.
    exact (loop_end_live env books sid (begun env w, mkCounts 0 0) HA L0).
  - intros pre book post e -> He.
    exact (raised_aborts_batch env pre post book sid
             (begun env w, mkCounts 0 0) T0 He).
Qed.

Section CatalogKept.

Variable env : Env.

Lemma db_keeps_refl (d : Store.DB) : db_keeps d d.
Proof. unfold db_keeps. repeat split; eauto. Qed.

Lemma db_keeps_trans (d1 d2 d3 : Store.DB) :
  db_keeps d1 d2 -> db_keeps d2 d3 -> db_keeps d1 d3.
Proof.
  intros (B1 & A1 & C1 & L1) (B2 & A2 & C2 & L2).
  repeat split; auto.
  intros r Hr. destruct (B1 r Hr) as (r1 & H1 & E1 & E2 & E3).
  destruct (B2 r1 H1) as (r2 & H2 & F1 & F2 & F3).
  exists r2. repeat split; congruence.
Qed.

Lemma exec_keeps (t : nat) (q : Store.Stmt) (d : Store.DB) :
  db_keeps d (fst (Store.exec t q d)).
Proof.
  destruct q; try apply db_keeps_refl; unfold db_keeps; simpl;
    repeat split; eauto; intros r Hr; try (apply in_or_app; now left).
  - eexists. split; [apply in_map_iff; exists r; split;
                     [reflexivity|exact Hr]|].
    destruct (Store.book_id r =? id); auto.
  - exists r. split; [apply in_or_app; now left|auto].
  - unfold Store.insert_book_category.
    destruct (existsb _ _); [exact Hr|apply in_or_app; now left].
Qed.

Lemma catalog_kept_refl (w : World) : catalog_kept w w.
Proof. intros H. split; [exact H|apply db_keeps_refl]. Qed.

Lemma catalog_kept_trans (w1 w2 w3 : World) :
  catalog_kept w1 w2 -> catalog_kept w2 w3 -> catalog_kept w1 w3.
Proof.
  intros H1 H2 H. destruct (H1 H) as [H' K1]. destruct (H2 H') as [H'' K2].
  split; [exact H''|exact (db_keeps_trans K1 K2)].
Qed.

Lemma catalog_kept_client (q : Store.Stmt) :
  always catalog_kept (clientQuery env q).
Proof.
  apply clientQuery_always; intros w H.
  - split; [exact H|apply db_keeps_refl].
  - split; [|simpl; rewrite durable_fail_stmt; apply db_keeps_refl].
    unfold txn_keeps in *. simpl.
    now rewrite txn_fail_stmt, durable_fail_stmt.
  - destruct q; unfold after_stmt;
      try (match goal with
           | |- context [set_current (fst (Store.exec ?t ?q ?d)) w] =>
               pose proof (exec_keeps t q d) as K;
               generalize dependent (fst (Store.exec t q d))
           end;
           intros d' K; unfold txn_keeps, set_current, current in *;
           destruct (txn w) as [d|]; simpl;
           (split; [|apply db_keeps_refl]; exact (db_keeps_trans H K))
           || (split; [exact I|exact K]));
      unfold txn_keeps, current, aborted in *; destruct (txn w) as [d|];
      simpl; try destruct (txn_failed w); auto using db_keeps_refl.
Qed.

Lemma catalog_kept_connect :
  always catalog_kept (poolQuery env Store.Connect).
Proof.
  intros w H. unfold poolQuery.
  destruct (rejects env Store.Connect (durable w)); simpl;
    (split; [exact H|apply db_keeps_refl]).
Qed.

End CatalogKept.

(** X16.  [saveBooks] loses nothing but author links.  Called with no
    transaction open, whatever the store refuses and however the call ends,
    every book that was committed before the call is committed after it,
    under the same id, title and year, and so is every author, every
    category and every link of a book to a category. *)
Theorem saveBooks_keeps_catalog (env : Env) (books : list ScrapedBook)
    (sid : nat) (w : World) :
  txn w = None ->
  db_keeps (durable w) (durable (snd (saveBooks env books sid w))).
Proof.
  intros Ht.
  refine (proj2 (saveBooks_always (R:=catalog_kept) (env:=env) (sid:=sid)
                   catalog_kept_refl catalog_kept_trans
                   (fun q _ => catalog_kept_client env q)
                   (catalog_kept_client env _) (catalog_kept_client env _)
                   (catalog_kept_client env _) (catalog_kept_client env _)
                   (catalog_kept_connect env) books w _)).
  unfold txn_keeps. now rewrite Ht.
Qed.

Section AuthorLinks.

Variable env : Env.

Lemma links_same_refl (w : World) : links_same w w.
Proof. reflexivity. Qed.

Lemma links_same_trans (w1 w2 w3 : World) :
  links_same w1 w2 -> links_same w2 w3 -> links_same w1 w3.
Proof. unfold links_same. congruence. Qed.

Lemma links_same_category (q : Store.Stmt) :
  is_category_stmt q = true -> always links_same (clientQuery env q).
Proof.
  intros Hq. apply clientQuery_always; intros w; [reflexivity| |].
  - unfold links_same. now rewrite current_record, current_fail_stmt.
  - unfold links_same.
    destruct q; try discriminate Hq;
      (rewrite current_after_data by reflexivity); reflexivity.
Qed.

Lemma relinkCategories_links (b : nat) (names : list string) :
  always links_same (relinkCategories env b names).
Proof.
  induction names as [|n rest IH]; simpl;
    [apply always_ret; exact links_same_refl|].
  apply always_bind; [exact links_same_trans| |intros _; exact IH].
  destruct (nonblank n); [|apply always_ret; exact links_same_refl].
  apply always_bind; [exact links_same_trans| |].
  - unfold getOrCreateCategory. apply always_rethrow.
    apply always_bind; [exact links_same_trans| |].
    + now apply links_same_category.
    + intros [|id rows]; [|apply always_ret; exact links_same_refl].
      apply always_bind; [exact links_same_trans| |].
      * now apply links_same_category.
      * intros rows. apply always_firstRow. exact links_same_refl.
  - intros c. apply always_bind; [exact links_same_trans| |].
    + now apply links_same_category.
    + intros _. apply always_ret. exact links_same_refl.
Qed.

Lemma linkAuthorsFrom_blank (b : nat) (names : list string) :
  Forall (fun n => nonblank n = false) names ->
  forall i w, linkAuthorsFrom env b i names w = (Ok tt, w).
Proof.
  induction 1 as [|n rest Hn _ IH]; intros i w; simpl; [reflexivity|].
  rewrite Hn. unfold bind at 1. simpl. apply IH.
Qed.

Lemma category_step_links (b : nat) (book : ScrapedBook) (s : SaveSt) :
  Store.book_authors
    (current (fst (snd ((match categories book with
                         | [] => ret tt
                         | _ => liftW (relinkCategories env b
                                         (categories book))
                         end) s))))
  = Store.book_authors (current (fst s)).
Proof.
  destruct (categories book) as [|c cs]; [reflexivity|].
  destruct s as [w l]. rewrite liftW_run. cbn [fst snd].
  apply relinkCategories_links.
Qed.

End AuthorLinks.

(** X17.  The author links of STEP 3 at the edge.  A candidate with an
    empty list of authors leaves every author link as it is, whatever the
    store refuses.  A candidate whose list is not empty but holds blank
    names only loses the links of its book, once the store accepts the
    delete: nothing is put in their place, and the links of other books
    stay.  (In a transaction that an earlier failure has aborted the store
    takes no statement, and the links stay as they are.) *)
Theorem linkSteps_author_links (env : Env) (id : nat) (book : ScrapedBook)
    (w : World) (c : Counts) :
  (authors book = [] ->
   Store.book_authors (current (fst (snd (linkSteps env id book (w, c)))))
   = Store.book_authors (current w))
  /\ (authors book <> [] ->
      Forall (fun n => nonblank n = false) (authors book) ->
      rejects env (Store.DeleteBookAuthors id) (current w) = None ->
      Store.book_authors
        (current (fst (snd (linkSteps env id book (w, c)))))
      = if aborted w
        then Store.book_authors (current w)
        else filter (fun r => negb (Store.ba_book r =? id))
               (Store.book_authors (current w))).
Proof.
  unfold linkSteps. split.
  - intros ->. unfold bind at 1. cbn [ret].
    apply (category_step_links env id book (w, c)).
  - intros Hne Hb Hd.
    destruct (authors book) as [|a rest] eqn:E; [contradiction|].
    unfold bind at 1. rewrite liftW_run.
    unfold relinkAuthors.
    destruct (aborted w) eqn:Hl.
    + assert (B : blocked (Store.DeleteBookAuthors id) w = true)
        by (unfold blocked; now rewrite Hl).
      rewrite (bind_fail _ _ _ (clientQuery_blocked env _ _ B)).
      cbn [fst snd]. reflexivity.
    + rewrite (bind_step _ _ _
                 (clientQuery_accepted _ _ _ (live_not_blocked _ _ Hl) Hd)).
      rewrite linkAuthorsFrom_blank by exact Hb. cbn [fst snd].
      rewrite (category_step_links env id book (_, c)). cbn [fst].
      rewrite current_after_data by reflexivity. reflexivity.
Qed.

(* ====================================================================== *)
(** * Further properties: the orchestrators *)
(* ====================================================================== *)

Section ResultFacts.

Variable env : Env.

Lemma runOnce_ok (type : ScrapeType) (query name url : string)
    (sels : option CustomSelectors) (s s' : World * RunLocals)
    (r : ScrapingResult) :
  runOnce env type query name url sels s = (Ok r, s') ->
  status r = completed /\ errors r = 0 /\ error_details r = None.
Proof.
  unfold runOnce. intros H.
  apply bind_ok in H as (sid & s1 & _ & H).
  apply bind_ok in H as (? & s2 & _ & H).
  apply bind_ok in H as (lid & s3 & _ & H).
  apply bind_ok in H as (? & s4 & _ & H).
  apply bind_ok in H as (books & s5 & _ & H).
  apply bind_ok in H as (c & s6 & _ & H).
  apply bind_ok in H as (t & s7 & _ & H).
  apply bind_ok in H as (? & s8 & _ & H).
  apply pair_eq in H as [H _]. apply Ok_inj in H. subst r. auto.
Qed.

Lemma closeFailed_ok (message : string) (s s' : World * RunLocals)
    (r : ScrapingResult) :
  closeFailed env message s = (Ok r, s') ->
  r = failedResult (snd s) message.
Proof.
  unfold closeFailed. intros H.
  apply bind_ok in H as (l & s1 & Hl & H).
  apply pair_eq in Hl as [Hl _]. apply Ok_inj in Hl.
  apply bind_ok in H as (? & s2 & _ & H).
  apply pair_eq in H as [H _]. apply Ok_inj in H. congruence.
Qed.

Lemma failedResult_shape (l : RunLocals) (message : string) :
  result_shape (failedResult l message).
Proof. right. simpl. repeat split. discriminate. Qed.

Lemma scrapeAndSave_shape (type : ScrapeType) (query name url : string)
    (sels : option CustomSelectors) (w : World) (r : ScrapingResult) :
  fst (scrapeAndSave env type query name url sels w) = Ok r ->
  result_shape r.
Proof.
  unfold scrapeAndSave, withLocals, try_catch.
  destruct (runOnce env type query name url sels
              (w, mkRunLocals None None)) as [[r0|e] s] eqn:E.
  - simpl. intros H. apply Ok_inj in H. subst r0.
    apply runOnce_ok in E. now left.
  - destruct (closeFailed env e s) as [[r1|e1] s1] eqn:F; simpl;
      [|discriminate].
    intros H. apply Ok_inj in H. subst r1.
    apply closeFailed_ok in F. subst r. apply failedResult_shape.
Qed.

Lemma entry_shape (source : SourceSpec) (r : ScrapingResult) :
  entry_of env source r -> result_shape r.
Proof.
  intros (w0 & [H|(m & _ & ->)]).
  - exact (scrapeAndSave_shape _ _ _ _ _ _ H).
  - right. simpl. repeat split. discriminate.
Qed.

Lemma sum_by_acc (f : ScrapingResult -> nat) (l : list ScrapingResult) :
  forall a, fold_left (fun sum r => sum + f r) l a = a + sum_by f l.
Proof.
  unfold sum_by. induction l as [|r l IH]; intros a; simpl; [lia|].
  rewrite (IH (a + f r)), (IH (f r)). lia.
Qed.

Lemma sum_by_cons (f : ScrapingResult -> nat) (r : ScrapingResult)
    (l : list ScrapingResult) :
  sum_by f (r :: l) = f r + sum_by f l.
Proof. unfold sum_by at 1. simpl. apply sum_by_acc. Qed.

Lemma shape_totals (l : list ScrapingResult) :
  Forall result_shape l ->
  sum_by errors l + length (filter is_completed l) = length l
  /\ sum_by books_added l = sum_by books_added (filter is_completed l)
  /\ sum_by books_updated l = sum_by books_updated (filter is_completed l).
Proof.
  induction 1 as [|r l Hr _ IH]; [repeat split|].
  destruct IH as (I1 & I2 & I3).
  rewrite !sum_by_cons. cbn [filter].
  destruct Hr as [(Hs & He & _)|(Hs & Ha & Hu & He & _)].
  - assert (Hc : is_completed r = true)
      by (unfold is_completed; now rewrite Hs).
    rewrite Hc, !sum_by_cons. cbn [length]. repeat split; lia.
  - assert (Hc : is_completed r = false)
      by (unfold is_completed; now rewrite Hs).
    rewrite Hc. cbn [length]. repeat split; lia.
Qed.

End ResultFacts.

(** X18.  Every result that [scrapeAndSave] returns is either completed,
    with no error and no message, or failed, with nothing added, nothing
    updated, one error and a message; none is left running. *)
Theorem scrapeAndSave_result_shape (env : Env) (type : ScrapeType)
    (query name url : string) (sels : option CustomSelectors) (w : World) :
  match fst (scrapeAndSave env type query name url sels w) with
  | Ok r => result_shape r /\ status r <> running
  | Throw _ => True
  end.
Proof.
  destruct (fst (scrapeAndSave env type query name url sels w))
    as [r|e] eqn:E; [|exact I].
  pose proof (scrapeAndSave_shape _ _ _ _ _ _ _ E) as H.
  split; [exact H|].
  destruct H as [(Hs & _)|(Hs & _)]; rewrite Hs; discriminate.
Qed.

(** X19.  The summary of the batch driver adds up.  The driver returns,
    and in the summary it prints as its last act the number of failed
    sources and the total of errors are the same number, the successful and
    the failed sources make up the sources processed, and the books added
    and updated are those of the completed runs. *)
Theorem scrapeMultipleSources_summary (env : Env)
    (sources : list SourceSpec) (w : World) :
  exists results wL succ,
    scrapeMultipleSources env sources w
    = (Ok results,
       record (EvSummary (length sources) succ (length sources - succ)
                 (sum_by books_added (filter is_completed results))
                 (sum_by books_updated (filter is_completed results))
                 (length sources - succ)) wL)
    /\ succ = length (filter is_completed results)
    /\ succ + (length sources - succ) = length sources
    /\ Forall result_shape results.
Proof.
  destruct (scrape_end env 0 (length sources) sources (w, []))
    as [wL results] eqn:E.
  destruct (scrape_end_results env sources 0 (length sources) w [])
    as (new & Hn & HF).
  rewrite E in Hn. simpl in Hn. subst new.
  assert (HS : Forall result_shape results).
  { clear E. induction HF as [|s r ss rs H _ IH]; constructor;
      [exact (entry_shape H)|exact IH]. }
  assert (HL : length results = length sources).
  { symmetry. eapply Forall2_length. exact HF. }
  destruct (shape_totals HS) as (He & Ha & Hu).
  exists results, wL, (length (filter is_completed results)).
  split; [|split; [reflexivity|split; [lia|exact HS]]].
  unfold scrapeMultipleSources, withLocals, bind.
  rewrite scrapeLoop_run, E. cbn [getLocal fst snd].
  rewrite liftW_run. cbn [fst snd ret]. unfold summary.
  rewrite <- Ha, <- Hu.
  replace (length sources - length (filter is_completed results))
    with (sum_by errors results) by lia.
  reflexivity.
Qed.

(** X20.  A run that fails before its log row exists.  When the source
    cannot be had, or the log row cannot be created, [scrapeAndSave] returns
    a failed result with log id 0 (and source id 0 if there is no source),
    and sends no further statement: the world is the one in which the
    failing step ended. *)
Theorem scrapeAndSave_before_log (env : Env) (type : ScrapeType)
    (query name url : string) (sels : option CustomSelectors)
    (w w' : World) (sid : nat) (m : string) :
  (getOrCreateSource env name url w = (Throw m, w') /\ sid = 0)
  \/ (exists w1,
        getOrCreateSource env name url w = (Ok sid, w1)
        /\ createScrapingLog env sid w1 = (Throw m, w')) ->
  scrapeAndSave env type query name url sels w
  = (Ok (mkScrapingResult 0 sid 0 0 1 failed (Some m)), w').
Proof.
  intros [[H ->]|(w1 & H1 & H2)];
    unfold scrapeAndSave, withLocals, try_catch, runOnce.
  - unfold bind at 1. rewrite liftW_run, H. reflexivity.
  - unfold bind at 1. rewrite liftW_run, H1. cbn [fst snd].
    unfold bind at 1. cbn [setLocal fst snd].
    unfold bind at 1. rewrite liftW_run, H2. reflexivity.
Qed.

(** X21.  A run that goes through.  When the source and the log row are
    had, the adapter returns candidates, [saveBooks] returns its counters
    and the store accepts the update of the log, [scrapeAndSave] returns a
    completed result that carries the two ids and the counters of
    [saveBooks]; the log row of the run gets the status completed, the same
    counters and the completion time, its error count and message are left
    alone, the other log rows are untouched, and the books are as
    [saveBooks] left them. *)
Theorem scrapeAndSave_completed (env : Env) (type : ScrapeType)
    (query name url : string) (sels : option CustomSelectors)
    (w w1 w2 w3 : World) (sid lid : nat) (books : list ScrapedBook)
    (c : Counts) :
  getOrCreateSource env name url w = (Ok sid, w1) ->
  createScrapingLog env sid w1 = (Ok lid, w2) ->
  scrapeByType env type query sels = Ok books ->
  saveBooks env books sid w2 = (Ok c, w3) ->
  log_updates_accepted env ->
  exists w4,
    scrapeAndSave env type query name url sels w
    = (Ok (mkScrapingResult lid sid (added c) (updated c) 0 completed None),
       w4)
    /\ Forall2 (log_updated lid (completedData (clock w3) c))
         (Store.scraping_logs (durable w3))
         (Store.scraping_logs (durable w4))
    /\ Store.books (durable w4) = Store.books (durable w3).
Proof.
  intros H1 H2 H3 H4 HU.
  eexists. split; [|split].
  - unfold scrapeAndSave, withLocals, try_catch, runOnce.
    unfold bind at 1. rewrite liftW_run, H1. cbn [fst snd].
    unfold bind at 1. cbn [setLocal fst snd].
    unfold bind at 1. rewrite liftW_run, H2. cbn [fst snd].
    unfold bind at 1. cbn [setLocal fst snd].
    rewrite H3. unfold bind at 1. cbn [liftRes ret].
    unfold bind at 1. rewrite liftW_run, H4. cbn [fst snd].
    unfold bind at 1. rewrite liftW_run. cbn [now fst snd].
    unfold bind at 1. rewrite liftW_run.
    unfold updateScrapingLog. rewrite rethrow_eq.
    cbn [logUpdates optList d_completed_at app].
    rewrite (bind_step _ _ _ (poolQuery_accepted _ _ _ (HU _ _ _))).
    reflexivity.
  - simpl. apply (log_rows_updated lid (completedData (clock w3) c)).
  - reflexivity.
Qed.

(* ====================================================================== *)
(** * Further properties: the controller *)
(* ====================================================================== *)

Section ControllerFacts.

Variable env : Env.
Variable beyond : Beyond.

Lemma Json_null_dec (b : Json) : b = JNull \/ b <> JNull.
Proof. destruct b; [now left|right; discriminate..]. Qed.

Lemma destructure_some {S} (name : string) (b : Json) :
  b <> JNull -> @destructure S name (Some b) = ret b.
Proof. destruct b; [contradiction|reflexivity..]. Qed.

(** A value that [validTypes] includes is one of its four strings. *)
Lemma includes_valid (v : option Json) :
  ScraperController.includes ScraperController.validTypes v = true ->
  exists ty,
    v = Some (JString ty)
    /\ In ty ScraperController.validTypes
    /\ (typeOf ty = openlibrary \/ typeOf ty = googlebooks
        \/ typeOf ty = gutenberg
        \/ (typeOf ty = custom /\ ty = "custom")).
Proof.
  unfold ScraperController.includes, ScraperController.validTypes.
  destruct v as [[| | |ty| |]|]; cbn [existsb strictEq orb];
    try discriminate.
  intros H. exists ty. split; [reflexivity|]. unfold typeOf.
  destruct (String.eqb ty "openlibrary") eqn:E1;
    [apply String.eqb_eq in E1; subst; simpl; auto|].
  destruct (String.eqb ty "googlebooks") eqn:E2;
    [apply String.eqb_eq in E2; subst; simpl; auto|].
  destruct (String.eqb ty "gutenberg") eqn:E3;
    [apply String.eqb_eq in E3; subst; simpl; auto|].
  destruct (String.eqb ty "custom") eqn:E4;
    [apply String.eqb_eq in E4; subst; simpl; auto 8|discriminate H].
Qed.

Lemma valid_includes (ty : string) :
  In ty ScraperController.validTypes ->
  ScraperController.includes ScraperController.validTypes
    (Some (JString ty)) = true
  /\ truthyJs (Some (JString ty)) = true.
Proof.
  intros [<-|[<-|[<-|[<-|[]]]]]; split; reflexivity.
Qed.

Lemma sources_dec (v : option Json) :
  (exists first rest, v = Some (JArray (first :: rest)))
  \/ (forall first rest, v <> Some (JArray (first :: rest))).
Proof.
  destruct v as [[| | | |[|f r]|]|];
    try (right; intros first rest; discriminate).
  left. now exists f, r.
Qed.

(** The test of [scrapeMultipleSources] fires on everything but an array
    with an entry. *)
Lemma guard_no_sources (v : option Json) :
  (forall first rest, v <> Some (JArray (first :: rest))) ->
  negb (truthyJs v) || negb (isArray v) || (length (itemsOf v) =? 0) = true.
Proof.
  intros H. destruct v as [[|x|x|x|[|f r]|]|]; try reflexivity.
  - destruct x; reflexivity.
  - destruct x; reflexivity.
  - destruct x; reflexivity.
  - exfalso. now apply (H f r).
Qed.

Lemma asSpecs_length (items : list Json) :
  forall l, asSpecs items = Some l -> length l = length items.
Proof.
  induction items as [|v rest IH]; simpl; intros l H.
  - injection H as <-. reflexivity.
  - destruct (asEntry v) as [s|]; [|discriminate H]. simpl in H.
    destruct (asSpecs rest) as [l'|]; [|discriminate H]. simpl in H.
    injection H as <-. simpl. now rewrite (IH l' eq_refl).
Qed.

Lemma driver_returns (sources : list SourceSpec) (w : World) :
  exists results w',
    scrapeMultipleSources env sources w = (Ok results, w')
    /\ length results = length sources.
Proof.
  destruct (scrape_end env 0 (length sources) sources (w, []))
    as [wL results] eqn:E.
  destruct (scrape_end_results env sources 0 (length sources) w [])
    as (new & Hn & HF).
  rewrite E in Hn. simpl in Hn. subst new.
  exists results. eexists. split.
  - unfold scrapeMultipleSources, withLocals, bind.
    rewrite scrapeLoop_run, E. cbn [getLocal fst snd].
    rewrite liftW_run. reflexivity.
  - symmetry. eapply Forall2_length. exact HF.
Qed.

End ControllerFacts.

(** X22.  The handler of [POST /scrape] always answers, with 400, 200 or
    500, whatever the body is.  A body with no properties to read
    ([undefined] or [null]) is answered with 500 and nothing is touched.
    Any other body is answered with 400 exactly when it does not pass the
    three tests, and then nothing is touched: no statement is sent and no
    run is started.  For a body that passes and whose fields are of the
    types [scrapeAndSave] declares, the type is one that the service
    knows and a custom type has its selectors, so the two guards of the
    [switch] cannot fire; the answer is 200 with the result of the run,
    completed or failed alike, or 500 with the message the run raised; and
    when the store accepts the log updates it is never 500. *)
Theorem scrapeBooks_response (env : Env) (beyond : Beyond)
    (body : option Json) (w : World) :
  exists resp w',
    ScraperController.scrapeBooks env beyond body w = (Ok resp, w')
    /\ (rs_status resp = 400 \/ rs_status resp = 200
        \/ rs_status resp = 500)
    /\ (rs_status resp = 400 -> w' = w /\ rs_success resp = false)
    /\ (~ has_properties body -> rs_status resp = 500 /\ w' = w)
    /\ (forall b,
          body = Some b -> b <> JNull ->
          (rs_status resp = 400 <-> ~ passes b)
          /\ (forall s,
                passes b -> spec_of b = Some s ->
                well_typed s
                /\ w' = snd (run_of env s w)
                /\ match fst (run_of env s w) with
                   | Ok r => resp = mkResponse 200 true (Data r)
                   | Throw m => resp = mkResponse 500 false (ErrorText m)
                   end
                /\ (log_updates_accepted env -> rs_status resp = 200))).
Proof.
  destruct body as [b|].
  2:{ eexists; eexists. split; [reflexivity|]. simpl.
      split; [auto|]. split; [discriminate|]. split; [auto|].
      intros b H. discriminate H. }
  destruct (Json_null_dec b) as [->|Hb].
  { eexists; eexists. split; [reflexivity|]. simpl.
    split; [auto|]. split; [discriminate|]. split; [auto|].
    intros b H Hn. injection H as <-. now contradiction Hn. }
  assert (HP : has_properties (Some b)) by (exists b; auto).
  unfold ScraperController.scrapeBooks, try_catch.
  rewrite (destructure_some "type" Hb). unfold bind at 1. cbn [ret].
  cbv zeta.
  assert (K400 : forall m,
             ~ passes b ->
             exists resp w',
               (Ok (ScraperController.badRequest m), w) = (Ok resp, w')
               /\ (rs_status resp = 400 \/ rs_status resp = 200
                   \/ rs_status resp = 500)
               /\ (rs_status resp = 400 -> w' = w /\ rs_success resp = false)
               /\ (~ has_properties (Some b) -> rs_status resp = 500 /\ w' = w)
               /\ (forall b0,
                     Some b = Some b0 -> b0 <> JNull ->
                     (rs_status resp = 400 <-> ~ passes b0)
                     /\ (forall s,
                           passes b0 -> spec_of b0 = Some s ->
                           well_typed s
                           /\ w' = snd (run_of env s w)
                           /\ match fst (run_of env s w) with
                              | Ok r => resp = mkResponse 200 true (Data r)
                              | Throw m =>
                                  resp = mkResponse 500 false (ErrorText m)
                              end
                           /\ (log_updates_accepted env ->
                               rs_status resp = 200)))).
  { intros m N. eexists; eexists. split; [reflexivity|]. simpl.
    split; [auto|]. split; [auto|].
    split; [intros H; now contradiction H|].
    intros b0 H _. injection H as <-. split; [tauto|].
    intros s P. now contradiction N. }
  destruct (truthyJs (member "type" b)) eqn:T1; cbn [negb orb].
  2:{ apply K400. intros (ty & Hty & Hin & _).
      rewrite Hty, (proj2 (valid_includes Hin)) in T1. discriminate T1. }
  destruct (truthyJs (member "query" b)) eqn:T2; cbn [negb orb].
  2:{ apply K400. intros (ty & _ & _ & H & _). congruence. }
  destruct (truthyJs (member "sourceName" b)) eqn:T3; cbn [negb orb].
  2:{ apply K400. intros (ty & _ & _ & _ & H & _). congruence. }
  destruct (truthyJs (member "baseUrl" b)) eqn:T4; cbn [negb orb].
  2:{ apply K400. intros (ty & _ & _ & _ & _ & H & _). congruence. }
  destruct (ScraperController.includes ScraperController.validTypes
              (member "type" b)) eqn:V; cbn [negb].
  2:{ apply K400. intros (ty & Hty & Hin & _).
      rewrite Hty, (proj1 (valid_includes Hin)) in V. discriminate V. }
  destruct (includes_valid _ V) as (ty & Hty & Hin & Hk).
  destruct (strictEq (member "type" b) "custom"
            && negb (truthyJs (member "customSelectors" b))) eqn:C.
  { apply K400. intros (ty' & Hty' & _ & _ & _ & _ & Hc).
    rewrite Hty' in Hty. injection Hty as ->.
    rewrite Hty' in C. cbn [strictEq] in C.
    apply andb_prop in C as [C1 C2]. apply String.eqb_eq in C1.
    rewrite (Hc C1) in C2. discriminate C2. }
  assert (P : passes b).
  { exists ty. repeat split; auto. intros ->.
    rewrite Hty in C. cbn [strictEq] in C. rewrite String.eqb_refl in C.
    cbn [andb] in C. now apply negb_false_iff in C. }
  fold (spec_of b).
  assert (run_known : forall s,
             spec_of b = Some s ->
             well_typed s /\ (ty = "custom" -> sp_customSelectors s <> None)).
  { intros s Hs. unfold spec_of, asSpec in Hs. rewrite Hty in Hs.
    cbn [asString opt_bind] in Hs.
    destruct (asString (member "query" b)); [|discriminate Hs].
    destruct (asString (member "sourceName" b)); [|discriminate Hs].
    destruct (asString (member "baseUrl" b)); [|discriminate Hs].
    cbn [opt_bind] in Hs.
    destruct (asOptSelectors (member "customSelectors" b)) as [sels|] eqn:Es;
      [|discriminate Hs].
    cbn [opt_bind] in Hs. injection Hs as <-.
    assert (Q : ty = "custom" -> sels <> None).
    { intros ->. destruct P as (ty' & Hty' & _ & _ & _ & _ & Hc).
      rewrite Hty' in Hty. injection Hty as ->.
      specialize (Hc eq_refl).
      destruct (member "customSelectors" b) as [j|]; [|discriminate Hc].
      simpl in Es. destruct (asSelectors j); [|discriminate Es].
      injection Es as <-. discriminate. }
    split; [|exact Q]. unfold well_typed. cbn [sp_type sp_customSelectors].
    destruct Hk as [H|[H|[H|[H Hc]]]]; auto.
    right; right; right. split; [exact H|]. now apply Q. }
  destruct (spec_of b) as [s|] eqn:Es.
  - fold (run_of env s). unfold bind.
    destruct (run_of env s w) as [[r|m] w1] eqn:R.
    + eexists; eexists. split; [reflexivity|]. simpl.
      split; [auto|]. split; [discriminate|].
      split; [intros H; now contradiction H|].
      intros b0 H _. injection H as <-.
      split; [split; [discriminate|intros N; now contradiction N]|].
      intros s0 _ Hs0. rewrite Es in Hs0. injection Hs0 as <-.
      rewrite R. cbn [fst snd].
      split; [exact (proj1 (run_known s eq_refl))|]. auto.
    + eexists; eexists. split; [reflexivity|]. simpl.
      split; [auto|]. split; [discriminate|].
      split; [intros H; now contradiction H|].
      intros b0 H _. injection H as <-.
      split; [split; [discriminate|intros N; now contradiction N]|].
      intros s0 _ Hs0. rewrite Es in Hs0. injection Hs0 as <-.
      rewrite R. cbn [fst snd].
      split; [exact (proj1 (run_known s eq_refl))|].
      split; [reflexivity|]. split; [reflexivity|].
      intros HU. exfalso.
      destruct (scrapeAndSave_total HU (sp_type s) (sp_query s)
                  (sp_sourceName s) (sp_baseUrl s) (sp_customSelectors s) w)
        as [r Hr].
      unfold run_of in R. rewrite R in Hr. discriminate Hr.
  - unfold bind.
    destruct (scrapeAndSave_beyond beyond _ _ _ _ _ w) as [[r|m] w1].
    + eexists; eexists. split; [reflexivity|]. simpl.
      split; [auto|]. split; [discriminate|].
      split; [intros H; now contradiction H|].
      intros b0 H _. injection H as <-.
      split; [split; [discriminate|intros N; now contradiction N]|].
      intros s0 _ Hs0. rewrite Es in Hs0. discriminate Hs0.
    + eexists; eexists. split; [reflexivity|]. simpl.
      split; [auto|]. split; [discriminate|].
      split; [intros H; now contradiction H|].
      intros b0 H _. injection H as <-.
      split; [split; [discriminate|intros N; now contradiction N]|].
      intros s0 _ Hs0. rewrite Es in Hs0. discriminate Hs0.
Qed.

(** X23.  The handler of [POST /scrape-multiple] always answers, with 400,
    200 or 500, whatever the body is.  A body with no properties to read is
    answered with 500 and nothing is touched.  Any other body is answered
    with 400 exactly when its [sources] is not an array with an entry, and
    then nothing is touched.  When every entry of the array is of the
    declared shape the answer is 200 with one result per entry, whatever
    happened to the runs; it can be 500 only for an entry of another
    shape. *)
Theorem scrapeMultipleSources_response (env : Env) (beyond : Beyond)
    (body : option Json) (w : World) :
  exists resp w',
    ScraperController.scrapeMultipleSources env beyond body w
    = (Ok resp, w')
    /\ (rs_status resp = 400 \/ rs_status resp = 200
        \/ rs_status resp = 500)
    /\ (rs_status resp = 400 -> w' = w /\ rs_success resp = false)
    /\ (~ has_properties body -> rs_status resp = 500 /\ w' = w)
    /\ (forall b,
          body = Some b -> b <> JNull ->
          (rs_status resp = 400 <-> ~ has_sources b)
          /\ (forall items l,
                member "sources" b = Some (JArray items) ->
                items <> [] ->
                asSpecs items = Some l ->
                exists results,
                  resp = mkResponse 200 true (DataList results)
                  /\ length results = length items)
          /\ (rs_status resp = 500 ->
              asSpecs (itemsOf (member "sources" b)) = None)).
Proof.
  destruct body as [b|].
  2:{ eexists; eexists. split; [reflexivity|]. simpl.
      split; [auto|]. split; [discriminate|]. split; [auto|].
      intros b H. discriminate H. }
  destruct (Json_null_dec b) as [->|Hb].
  { eexists; eexists. split; [reflexivity|]. simpl.
    split; [auto|]. split; [discriminate|]. split; [auto|].
    intros b H Hn. injection H as <-. now contradiction Hn. }
  assert (HP : has_properties (Some b)) by (exists b; auto).
  unfold ScraperController.scrapeMultipleSources, try_catch.
  rewrite (destructure_some "sources" Hb). unfold bind at 1. cbn [ret].
  cbv zeta.
  destruct (sources_dec (member "sources" b))
    as [(first & rest & Em)|Em].
  2:{ rewrite (guard_no_sources Em).
      eexists; eexists. split; [reflexivity|]. simpl.
      split; [auto|]. split; [auto|].
      split; [intros H; now contradiction H|].
      intros b0 H _. injection H as <-.
      split; [split; [intros _ (f & r & Hs); exact (Em f r Hs)
                     |reflexivity]|].
      split; [|discriminate].
      intros items l Hi Hne. exfalso.
      destruct items as [|f r]; [now apply Hne|exact (Em f r Hi)]. }
  rewrite Em. cbn [truthyJs isArray itemsOf negb orb length Nat.eqb].
  destruct (asSpecs (first :: rest)) as [l|] eqn:El.
  - destruct (driver_returns env l w) as (results & w' & E & L).
    unfold bind. rewrite E.
    eexists; eexists. split; [reflexivity|]. simpl.
    split; [auto|]. split; [discriminate|].
    split; [intros H; now contradiction H|].
    intros b0 H _. injection H as <-.
    split; [split; [discriminate
                   |intros N; exfalso; apply N; now exists first, rest]|].
    split; [|discriminate].
    intros items l0 Hi _ Hl. rewrite Em in Hi. injection Hi as <-.
    exists results. split; [reflexivity|].
    rewrite L. apply asSpecs_length. exact El.
  - unfold bind.
    destruct (scrapeMultipleSources_beyond beyond _ w) as [[r|m] w1];
      (eexists; eexists; split; [reflexivity|]; simpl;
       split; [auto|]; split; [discriminate|];
       split; [intros H; now contradiction H|];
       intros b0 H _; injection H as <-;
       split; [split; [discriminate
                      |intros N; exfalso; apply N; now exists first, rest]|];
       split; [intros items l0 Hi _ Hl; rewrite Em in Hi;
               injection Hi as <-; rewrite El in Hl; discriminate Hl
              |intros _; rewrite Em; exact El]).
Qed.

Section FailedYetStored.

Variable env : Env.
Hypothesis HU : log_updates_accepted env.

Lemma closeFailed_books (message : string) (w : World) (n sid : nat) :
  exists w',
    closeFailed env message (w, mkRunLocals (Some (S n)) (Some sid))
    = (Ok (mkScrapingResult (S n) sid 0 0 1 failed (Some message)),
       (w', mkRunLocals (Some (S n)) (Some sid)))
    /\ Store.books (durable w') = Store.books (durable w).
Proof.
  unfold closeFailed, bind, getLocal. cbn [fst snd logId].
  rewrite liftW_run. cbn [fst snd now]. rewrite liftW_run.
  unfold updateScrapingLog. rewrite rethrow_eq.
  unfold logUpdates. cbn [d_completed_at d_books_added d_books_updated
                           d_errors d_status d_error_details optList app].
  unfold bind, poolQuery. rewrite HU. cbn [fst snd ret].
  eexists. split; reflexivity.
Qed.

End FailedYetStored.

(** X24.  A failed result does not mean that nothing was stored.  When
    the source and the log row are had, the adapter returns candidates, and
    the store accepts the connection, [BEGIN], [COMMIT] and [ROLLBACK] but
    refuses the update of the source after [COMMIT], [scrapeAndSave]
    returns a failed result with no book added or updated, and the catalog
    is what the [COMMIT] made it: the books as they were before the batch
    when a statement of the loop had failed, and otherwise, so whenever the
    store accepts everything of the loop, the books of the batch as the
    loop left them. *)
Theorem scrapeAndSave_failed_yet_stored (env : Env) (type : ScrapeType)
    (query name url : string) (sels : option CustomSelectors)
    (w w1 w2 : World) (sid lid : nat) (books : list ScrapedBook)
    (m : string) :
  getOrCreateSource env name url w = (Ok sid, w1) ->
  createScrapingLog env sid w1 = (Ok lid, w2) ->
  scrapeByType env type query sels = Ok books ->
  (forall d, rejects env Store.Connect d = None) ->
  (forall d, rejects env Store.Begin d = None) ->
  (forall d, rejects env Store.Commit d = None) ->
  (forall d, rejects env (Store.TouchSource sid) d = Some m) ->
  (forall d, rejects env Store.Rollback d = None) ->
  log_updates_accepted env ->
  exists w',
    scrapeAndSave env type query name url sels w
    = (Ok (mkScrapingResult lid sid 0 0 1 failed (Some m)), w')
    /\ Store.books (durable w')
       = Store.books
           (if aborted (fst (loop_end env books sid
                               (begun env w2, mkCounts 0 0)))
            then durable w2
            else current (fst (loop_end env books sid
                                 (begun env w2, mkCounts 0 0))))
    /\ ((forall q d, is_book_stmt q = true -> rejects env q d = None) ->
        Store.books (durable w')
        = Store.books
            (current (fst (loop_end env books sid
                             (begun env w2, mkCounts 0 0))))).
Proof.
  intros H1 H2 H3 Hc Hb Hm Ht Hr HU.
  destruct (@saveBooks_touch_run env books sid w2 m Hc Hb Hm Ht Hr)
    as (w3 & E & Hd & _).
  destruct (@begun_private env w2 Hc Hb) as (_ & _ & L0).
  destruct (createScrapingLog_ok _ _ _ H2) as [[n ->] _].
  pose proof (runOnce_failed env type query name url sels w H1 H2
                (or_intror (ex_intro _ books (conj H3 E)))) as HR.
  destruct (closeFailed_books HU m w3 n sid) as (w' & HC & HB).
  exists w'. split; [|split].
  - unfold scrapeAndSave, withLocals, try_catch. rewrite HR, HC.
    reflexivity.
  - rewrite HB, Hd. reflexivity.
  - intros Hq. rewrite HB, Hd.
    now rewrite (loop_end_live env books sid (begun env w2, mkCounts 0 0)
                   Hq L0).
Qed.

(* ====================================================================== *)
(** * The further properties at work *)
(* ====================================================================== *)

Lemma scrapeProjectGutenberg_bounds_witness :
  exists books,
    scrapeProjectGutenberg shelf_env "emma" = Ok books
    /\ length books <= 20
    /\ Forall (fun b => authors b = ["Jane Austen"]
                        -> categories b = ["emma"]) books.
Proof.
  pose (books := match scrapeProjectGutenberg shelf_env "emma" with
                 | Ok l => l
                 | Throw _ => []
                 end).
  assert (H : scrapeProjectGutenberg shelf_env "emma" = Ok books)
    by (vm_compute; reflexivity).
  exists books. split; [exact H|].
  destruct (scrapeProjectGutenberg_bounds shelf_env "emma" H) as [L F].
  split; [exact L|].
  apply (Forall_impl _ (P:=fun b =>
           authors_nonblank b /\ length (authors b) <= 1
           /\ categories b = ["emma"] /\ language b = Some "English"
           /\ isbn b = None /\ publication_year b = None));
    [|exact F].
  intros b (_ & _ & C & _) _. exact C.
Defined.

Lemma adapters_authors_nonblank_witness :
  exists books,
    scrapeByType shelf_env openlibrary "romance" None = Ok books
    /\ Forall authors_nonblank books.
Proof.
  pose (books := match scrapeByType shelf_env openlibrary "romance" None with
                 | Ok l => l
                 | Throw _ => []
                 end).
  assert (H : scrapeByType shelf_env openlibrary "romance" None = Ok books)
    by (vm_compute; reflexivity).
  exists books. split; [exact H|].
  exact (adapters_authors_nonblank shelf_env openlibrary "romance" None H).
Defined.

Lemma parseItem_isbn_witness :
  exists b, parseItem emma_item = Ok b /\ isbn b = Some "9780141439587".
Proof.
  pose (b := match parseItem emma_item with
             | Ok b => b
             | Throw _ => emma
             end).
  assert (H : parseItem emma_item = Ok b) by (vm_compute; reflexivity).
  assert (H1 : volumeInfo emma_item = Some emma_volume)
    by (vm_compute; reflexivity).
  assert (H2 : v_industryIdentifiers emma_volume
               = Some [mkIdentifier "OTHER" (Some "OCLC:1");
                       mkIdentifier "ISBN_10" (Some "0141439580");
                       mkIdentifier "ISBN_13" (Some "9780141439587")])
    by (vm_compute; reflexivity).
  exists b. split; [exact H|].
  apply (proj1 (parseItem_isbn emma_item H H1 H2)
           (mkIdentifier "ISBN_13" (Some "9780141439587")));
    vm_compute; reflexivity.
Defined.

Lemma getOrCreateAuthor_round_trip_witness :
  lookup_name "Jane Austen"
    (Store.authors_tbl
       (current (snd (getOrCreateAuthor quiet_env "Jane Austen"
                        fresh_world))))
  = Some 1
  /\ Store.authors_tbl
       (current (snd (getOrCreateAuthor quiet_env "Jane Austen"
                        fresh_world)))
     = [Store.mkNamedRow 1 "Jane Austen"].
Proof.
  assert (H : getOrCreateAuthor quiet_env "Jane Austen" fresh_world
              = (Ok 1, snd (getOrCreateAuthor quiet_env "Jane Austen"
                              fresh_world)))
    by (vm_compute; reflexivity).
  split.
  - exact (proj1 (proj1 (getOrCreateAuthor_round_trip quiet_env "Jane Austen"
                           fresh_world) _ _ H)).
  - exact (proj1 (proj2 (proj1 (getOrCreateAuthor_round_trip quiet_env
                                  "Jane Austen" fresh_world) _ _ H))).
Defined.

Lemma getOrCreateCategory_round_trip_witness :
  lookup_name "Fiction"
    (Store.categories_tbl
       (current (snd (getOrCreateCategory quiet_env "Fiction"
                        fresh_world))))
  = Some 1
  /\ Store.categories_tbl
       (current (snd (getOrCreateCategory quiet_env "Fiction"
                        fresh_world)))
     = [Store.mkNamedRow 1 "Fiction"].
Proof.
  assert (H : getOrCreateCategory quiet_env "Fiction" fresh_world
              = (Ok 1, snd (getOrCreateCategory quiet_env "Fiction"
                              fresh_world)))
    by (vm_compute; reflexivity).
  split.
  - exact (proj1 (proj1 (getOrCreateCategory_round_trip quiet_env "Fiction"
                           fresh_world) _ _ H)).
  - exact (proj1 (proj2 (proj1 (getOrCreateCategory_round_trip quiet_env
                                  "Fiction" fresh_world) _ _ H))).
Defined.

Lemma getOrCreateSource_round_trip_witness :
  lookup_source "Open Library"
    (Store.sources
       (current (snd (getOrCreateSource quiet_env "Open Library"
                        "https://openlibrary.org" fresh_world))))
  = Some 1.
Proof.
  assert (H : getOrCreateSource quiet_env "Open Library"
                "https://openlibrary.org" fresh_world
              = (Ok 1, snd (getOrCreateSource quiet_env "Open Library"
                              "https://openlibrary.org" fresh_world)))
    by (vm_compute; reflexivity).
  exact (proj1 (proj2 (proj2 (getOrCreateSource_round_trip quiet_env
                                "Open Library" "https://openlibrary.org"
                                fresh_world H)))).
Defined.

Lemma updateScrapingLog_effect_witness :
  Forall2 (log_updated 1 (completedData 7 (mkCounts 2 1)))
    (Store.scraping_logs (durable logged_world))
    (Store.scraping_logs
       (durable (snd (updateScrapingLog quiet_env 1
                        (completedData 7 (mkCounts 2 1)) logged_world)))).
Proof.
  assert (H : updateScrapingLog quiet_env 1 (completedData 7 (mkCounts 2 1))
                logged_world
              = (Ok tt, snd (updateScrapingLog quiet_env 1
                               (completedData 7 (mkCounts 2 1))
                               logged_world)))
    by (vm_compute; reflexivity).
  exact (proj1 (updateScrapingLog_effect quiet_env 1
                  (completedData 7 (mkCounts 2 1)) logged_world H)).
Defined.

Lemma saveBooks_again_updates_witness :
  fst (saveBooks quiet_env [dune] 1
         (snd (saveBooks quiet_env [dune] 1 fresh_world)))
  = Ok (mkCounts 0 1).
Proof.
  refine (proj1 (saveBooks_again_updates dune 1 1 fresh_world
                   quiet_accepts_all _)).
  left. vm_compute. reflexivity.
Defined.

Lemma saveBooks_keyless_inserts_witness :
  fst (saveBooks quiet_env [untitled] 1
         (snd (saveBooks quiet_env [untitled] 1 fresh_world)))
  = Ok (mkCounts 1 0).
Proof.
  refine (proj1 (saveBooks_keyless_inserts untitled 1
                   (snd (saveBooks quiet_env [untitled] 1 fresh_world))
                   quiet_accepts_all _ _));
    vm_compute; reflexivity.
Defined.

Lemma saveBooks_commit_refused_witness :
  fst (saveBooks (env_with no_commit) [dune] 1 fresh_world)
  = Throw "could not serialize access"
  /\ durable (snd (saveBooks (env_with no_commit) [dune] 1 fresh_world))
     = durable fresh_world
  /\ txn (snd (saveBooks (env_with no_commit) [dune] 1 fresh_world)) = None.
Proof.
  apply (saveBooks_commit_refused (env_with no_commit) [dune] 1 fresh_world);
    intros d; reflexivity.
Defined.

Lemma saveBooks_touch_refused_witness :
  fst (saveBooks (env_with no_touch) [dune] 1 fresh_world)
  = Throw "permission denied for table sources"
  /\ map Store.b_title
       (Store.books
          (durable (snd (saveBooks (env_with no_touch) [dune] 1
                           fresh_world))))
     = ["Dune"].
Proof.
  destruct (@saveBooks_touch_refused (env_with no_touch) [dune] 1
              fresh_world "permission denied for table sources"
              (fun d => eq_refl) (fun d => eq_refl) (fun d => eq_refl)
              (fun d => eq_refl) (fun d => eq_refl))
    as (E & Hd & _).
  split; [exact E|]. rewrite Hd. vm_compute. reflexivity.
Defined.

Lemma saveBooks_keeps_catalog_witness :
  db_keeps (durable acme_world)
    (durable (snd (saveBooks short_names_env [long_author; dune_again] 1
                     acme_world))).
Proof.
  apply (saveBooks_keeps_catalog short_names_env [long_author; dune_again] 1
           acme_world).
  reflexivity.
Defined.

Lemma scrapeAndSave_before_log_witness :
  fst (scrapeAndSave (env_with no_connection) openlibrary "romance"
         "Open Library" "https://openlibrary.org" None fresh_world)
  = Ok (mkScrapingResult 0 0 0 0 1 failed (Some "connect ECONNREFUSED")).
Proof.
  assert (H : getOrCreateSource (env_with no_connection) "Open Library"
                "https://openlibrary.org" fresh_world
              = (Throw "connect ECONNREFUSED",
                 snd (getOrCreateSource (env_with no_connection)
                        "Open Library" "https://openlibrary.org"
                        fresh_world)))
    by (vm_compute; reflexivity).
  rewrite (scrapeAndSave_before_log (env_with no_connection) openlibrary
             "romance" "Open Library" "https://openlibrary.org" None
             fresh_world (or_introl (conj H eq_refl))).
  reflexivity.
Defined.

Lemma scrapeAndSave_completed_witness :
  exists lid sid w4,
    scrapeAndSave shelf_env openlibrary "romance" "Open Library"
      "https://openlibrary.org" None fresh_world
    = (Ok (mkScrapingResult lid sid 1 0 0 completed None), w4).
Proof.
  pose (w1 := snd (getOrCreateSource shelf_env "Open Library"
                     "https://openlibrary.org" fresh_world)).
  pose (w2 := snd (createScrapingLog shelf_env 1 w1)).
  pose (books := match scrapeByType shelf_env openlibrary "romance" None with
                 | Ok l => l
                 | Throw _ => []
                 end).
  pose (w3 := snd (saveBooks shelf_env books 1 w2)).
  assert (H1 : getOrCreateSource shelf_env "Open Library"
                 "https://openlibrary.org" fresh_world = (Ok 1, w1))
    by (vm_compute; reflexivity).
  assert (H2 : createScrapingLog shelf_env 1 w1 = (Ok 1, w2))
    by (vm_compute; reflexivity).
  assert (H3 : scrapeByType shelf_env openlibrary "romance" None = Ok books)
    by (vm_compute; reflexivity).
  assert (H4 : saveBooks shelf_env books 1 w2 = (Ok (mkCounts 1 0), w3))
    by (vm_compute; reflexivity).
  assert (HU : log_updates_accepted shelf_env)
    by (intros u id d; reflexivity).
  destruct (@scrapeAndSave_completed shelf_env openlibrary "romance"
              "Open Library" "https://openlibrary.org" None fresh_world
              w1 w2 w3 1 1 books (mkCounts 1 0) H1 H2 H3 H4 HU)
    as (w4 & E & _).
  exists 1, 1, w4. exact E.
Defined.

Lemma scrapeAndSave_failed_yet_stored_witness :
  exists w',
    scrapeAndSave (online no_touch) openlibrary "romance" "Open Library"
      "https://openlibrary.org" None fresh_world
    = (Ok (mkScrapingResult 1 1 0 0 1 failed
             (Some "permission denied for table sources")), w')
    /\ map Store.b_title (Store.books (durable w')) = ["Emma"].
Proof.
  pose (w1 := snd (getOrCreateSource (online no_touch) "Open Library"
                     "https://openlibrary.org" fresh_world)).
  pose (w2 := snd (createScrapingLog (online no_touch) 1 w1)).
  pose (books := match scrapeByType (online no_touch) openlibrary "romance"
                         None with
                 | Ok l => l
                 | Throw _ => []
                 end).
  assert (H1 : getOrCreateSource (online no_touch) "Open Library"
                 "https://openlibrary.org" fresh_world = (Ok 1, w1))
    by (vm_compute; reflexivity).
  assert (H2 : createScrapingLog (online no_touch) 1 w1 = (Ok 1, w2))
    by (vm_compute; reflexivity).
  assert (H3 : scrapeByType (online no_touch) openlibrary "romance" None
               = Ok books)
    by (vm_compute; reflexivity).
  assert (HU : log_updates_accepted (online no_touch))
    by (intros u id d; reflexivity).
  assert (HQ : forall q d, is_book_stmt q = true ->
                           rejects (online no_touch) q d = None)
    by (intros q d; destruct q; try discriminate; reflexivity).
  destruct (@scrapeAndSave_failed_yet_stored (online no_touch) openlibrary
              "romance" "Open Library" "https://openlibrary.org" None
              fresh_world w1 w2 1 1 books
              "permission denied for table sources" H1 H2 H3
              (fun d => eq_refl) (fun d => eq_refl) (fun d => eq_refl)
              (fun d => eq_refl) (fun d => eq_refl) HU)
    as (w' & E & _ & B).
  exists w'. split; [exact E|].
  rewrite (B HQ). vm_compute. reflexivity.
Defined.

(** An update with nothing to write sends nothing. *)
Example updateScrapingLog_no_data :
  updateScrapingLog quiet_env 1 no_data logged_world = (Ok tt, logged_world).
Proof. vm_compute. reflexivity. Qed.

(** A request that goes through: one book added, answered with 200. *)
Example scrapeBooks_emma :
  exists lid sid w',
    ScraperController.scrapeBooks shelf_env refusing (Some emma_request)
      fresh_world
    = (Ok (mkResponse 200 true
             (Data (mkScrapingResult lid sid 1 0 0 completed None))), w').
Proof. eexists; eexists; eexists. vm_compute. reflexivity. Qed.

(** A request without its type is refused before anything is done. *)
Example scrapeBooks_no_type :
  ScraperController.scrapeBooks shelf_env refusing
    (Some (JObject [("query", JString "romance");
                    ("sourceName", JString "Open Library");
                    ("baseUrl", JString "https://openlibrary.org")]))
    fresh_world
  = (Ok (ScraperController.badRequest
           "Missing required fields: type, query, sourceName, baseUrl"),
     fresh_world).
Proof. vm_compute. reflexivity. Qed.

(** A type that is not a string is no valid type. *)
Example scrapeBooks_type_array :
  ScraperController.scrapeBooks shelf_env refusing
    (Some (JObject [("type", JArray [JString "custom"]);
                    ("query", JString "romance");
                    ("sourceName", JString "Open Library");
                    ("baseUrl", JString "https://openlibrary.org")]))
    fresh_world
  = (Ok (ScraperController.badRequest
           "Invalid type. Must be one of: openlibrary, googlebooks, gutenberg, custom"),
     fresh_world).
Proof. vm_compute. reflexivity. Qed.

(** A query that is not a string passes the tests of the handler: the
    service is then called outside its signature, and what it raises is
    answered with 500. *)
Example scrapeBooks_query_object :
  ScraperController.scrapeBooks shelf_env refusing
    (Some (JObject [("type", JString "openlibrary");
                    ("query", JObject [("toString", JNull)]);
                    ("sourceName", JString "Open Library");
                    ("baseUrl", JString "https://openlibrary.org")]))
    fresh_world
  = (Ok (ScraperController.serverError "outside the signature"),
     fresh_world).
Proof. vm_compute. reflexivity. Qed.

(** Sources that are no array with an entry are refused. *)
Example scrapeMultipleSources_empty :
  ScraperController.scrapeMultipleSources shelf_env refusing
    (Some (JObject [("sources", JArray [])])) fresh_world
  = (Ok (ScraperController.badRequest
           "sources array is required and must not be empty"),
     fresh_world).
Proof. vm_compute. reflexivity. Qed.
